(** * Per-session download orchestrator of the Telegram video bot (bot.py)

    A shallow embedding of the queue / active-slot state machine of
    [bot.py]: the persisted session record and its loader, the size
    resolver inlined in [download_and_send_video], the pipeline itself with
    its [try] / [except] / [finally] structure, the list view's
    reconciliation, and the enqueue path of [handle_video_link].

    Python dict objects are shared by reference: the dict stored in
    [session['active_download']] is, on the start path, the very dict that
    sits in [session['queue']].  Sessions are therefore modelled over an
    object store, and what [json.dump] writes is the [snapshot] of it. *)

From stdpp Require Import gmap strings list fin_maps pretty.
From Stdlib Require Import ZArith Lia Ascii.

Local Open Scope string_scope.
Local Open Scope Z_scope.

(** ** Thresholds (bot.py, lines 31-37) *)

Module Limits.

(** [TELEGRAM_MAX_FILE_SIZE_BYTES = 1.95 * 1000 * 1000 * 1000].  The Python
    value is the double [1950000000.0]; it is a whole number, and Python
    compares an [int] with a [float] by value, so the comparisons of the
    source are comparisons with this integer. *)
Definition TELEGRAM_MAX_FILE_SIZE_BYTES : Z := 1950000000.

(** [TELEGRAM_VIDEO_FILE_SIZE_LIMIT_BYTES = 50 * 1024 * 1024]. *)
Definition TELEGRAM_VIDEO_FILE_SIZE_LIMIT_BYTES : Z := 50 * 1024 * 1024.

(** [VIDEO_PARSE_TIMEOUT_SECONDS = 15]. *)
Definition VIDEO_PARSE_TIMEOUT_SECONDS : Z := 15.

(** The literal [timeout=300] of the [asyncio.wait_for] around the
    download (line 491). *)
Definition DOWNLOAD_TIMEOUT_SECONDS : Z := 300.

Definition MB : Z := 1024 * 1024.
Definition GB : Z := 1000 * 1000 * 1000.

End Limits.
Export Limits.

(** ** The size resolver

    The source has no resolver function: the decision is the [if] / [elif]
    chain of lines 427-445 (on the probed estimate) and the one of lines
    544-575 (on the measured size).  Each constructor below names one
    branch of those chains. *)

Module Resolver.

Inductive Outcome :=
  | PROCEED_UNKNOWN     (* line 427: no estimate, download and decide later *)
  | REJECT_TOO_LARGE    (* line 430: above the upload limit *)
  | PROCEED_AS_VIDEO    (* line 434: within the direct-video limit *)
  | NEEDS_SELECTION     (* line 439: in between, format is 'best' *)
  | PROCEED_ANYWAY.     (* line 443: in between, a quality was chosen *)

#[global] Instance Outcome_eq_dec : EqDecision Outcome.
Proof. solve_decision. Defined.

(** The default format selector, the string ['best']. *)
Definition BEST : string := "best".

(** Lines 427-445, on [file_size_initial_estimate] and [format_string]. *)
Definition resolve_estimate (estimate : option Z) (format_string : string)
  : Outcome :=
  match estimate with
  | None => PROCEED_UNKNOWN
  | Some n =>
      if TELEGRAM_MAX_FILE_SIZE_BYTES <? n then REJECT_TOO_LARGE
      else if n <=? TELEGRAM_VIDEO_FILE_SIZE_LIMIT_BYTES then PROCEED_AS_VIDEO
      else if String.eqb format_string BEST then NEEDS_SELECTION
      else PROCEED_ANYWAY
  end.

(** The flag [action_needed] set by the chain (lines 425, 433, 441). *)
Definition action_needed (d : Outcome) : bool :=
  match d with
  | REJECT_TOO_LARGE | NEEDS_SELECTION => true
  | _ => false
  end.

(** Lines 544-575, on [actual_file_size]: the format selector is not
    consulted. *)
Definition resolve_measured (actual_file_size : Z) : Outcome :=
  if TELEGRAM_MAX_FILE_SIZE_BYTES <? actual_file_size then REJECT_TOO_LARGE
  else if TELEGRAM_VIDEO_FILE_SIZE_LIMIT_BYTES <? actual_file_size
       then NEEDS_SELECTION
  else PROCEED_AS_VIDEO.

(** [info_dict.get('filesize') or info_dict.get('filesize_approx')]
    (line 416): Python's [or] skips a first operand that is [None] or [0]. *)
Definition py_or (a b : option Z) : option Z :=
  match a with
  | Some n => if n =? 0 then b else Some n
  | None => b
  end.

End Resolver.
Export Resolver.

(** ** Items and sessions *)

Module Model.

(** One submitted link: the dict built at line 812, later extended by the
    start handler with ['initial_message_id'] and ['format_string'].
    ['unique_id'] is read with [.get] everywhere (sessions saved before
    ids existed lack it), hence the option. *)
Record Item := mkItem {
  url : string;
  title : string;
  status : string;
  unique_id : option string;
  initial_message_id : option Z;
  format_string : option string;
}.

#[global] Instance Item_eq_dec : EqDecision Item.
Proof. solve_decision. Defined.

#[global] Instance Item_inhabited : Inhabited Item :=
  populate (mkItem "" "" "" None None None).

Definition set_status (st : string) (it : Item) : Item :=
  mkItem (url it) (title it) st (unique_id it)
         (initial_message_id it) (format_string it).

Definition set_title (t : string) (it : Item) : Item :=
  mkItem (url it) t (status it) (unique_id it)
         (initial_message_id it) (format_string it).

Definition set_initial_message_id (m : Z) (it : Item) : Item :=
  mkItem (url it) (title it) (status it) (unique_id it)
         (Some m) (format_string it).

Definition set_format_string (f : string) (it : Item) : Item :=
  mkItem (url it) (title it) (status it) (unique_id it)
         (initial_message_id it) (Some f).

(** [x in [a, b, ...]] on strings. *)
Definition py_in (x : string) (l : list string) : bool :=
  existsb (String.eqb x) l.

(** The session dict.  [objects] is the store of item dicts, addressed by
    [nat]; [active_download] and [queue] hold addresses, so that the same
    dict can be the active download and a queue entry at once. *)
Record Session := mkSession {
  objects : gmap nat Item;
  active_download : option nat;
  queue : list nat;
  last_user_message_id : option Z;
  selection_buttons_message_id : option Z;
}.

Definition item_at (s : Session) (r : nat) : Item := objects s !!! r.

(** In-place update of the dict at address [r]. *)
Definition write (f : Item → Item) (r : nat) (s : Session) : Session :=
  mkSession (<[r := f (item_at s r)]> (objects s)) (active_download s)
            (queue s) (last_user_message_id s)
            (selection_buttons_message_id s).

Definition set_queue (q : list nat) (s : Session) : Session :=
  mkSession (objects s) (active_download s) q (last_user_message_id s)
            (selection_buttons_message_id s).

Definition set_active_download (a : option nat) (s : Session) : Session :=
  mkSession (objects s) a (queue s) (last_user_message_id s)
            (selection_buttons_message_id s).

(** What [json.dump(session_data, f)] writes: the session by value. *)
Record Persisted := mkPersisted {
  p_active_download : option Item;
  p_queue : list Item;
  p_last_user_message_id : option Z;
  p_selection_buttons_message_id : option Z;
}.

#[global] Instance Persisted_eq_dec : EqDecision Persisted.
Proof. solve_decision. Defined.

Definition snapshot (s : Session) : Persisted :=
  mkPersisted (item_at s <$> active_download s) (item_at s <$> queue s)
              (last_user_message_id s) (selection_buttons_message_id s).

(** The session dict literal of lines 173-178, 770-775 and 871-876. *)
Definition empty_session : Session := mkSession ∅ None [] None None.

(** The list comprehension
    [[q for q in session['queue'] if q.get('unique_id') != uid]]. *)
Definition queue_without (uid : option string) (s : Session) : list nat :=
  filter (λ r, unique_id (item_at s r) ≠ uid) (queue s).

(** The [for idx, q_item in enumerate(session['queue'])] search of lines
    204-208 and 737-741: the first entry whose id is [uid]. *)
Definition find_in_queue (uid : option string) (s : Session) : option nat :=
  snd <$> list_find (λ r, unique_id (item_at s r) = uid) (queue s).

(** Lines 736-743 and 203-210: the active dict [a] is put back among the
    queue entries.  The first entry carrying [uid] takes over the status of
    [a]; when there is none, [a] itself is appended. *)
Definition fold_into_queue (uid : option string) (a : nat) (s : Session)
  : Session :=
  match find_in_queue uid s with
  | Some r => write (set_status (status (item_at s a))) r s
  | None => set_queue (queue s ++ [a]) s
  end.

End Model.
Export Model.

(** ** Effects: collaborators, exceptions, and the control monad *)

Module Effects.

(** The exceptions the pipeline distinguishes.  [OtherError] stands for any
    other [Exception] a collaborator raises (a failed Messaging Gateway
    call, an [OSError], ...). *)
Inductive exn :=
  | DownloadError      (* yt_dlp.utils.DownloadError *)
  | TimeoutError       (* asyncio.TimeoutError *)
  | UnboundLocalError  (* a local read before it is bound *)
  | TypeError          (* subscripting None *)
  | KeyError           (* a missing dict key *)
  | OtherError.

#[global] Instance exn_eq_dec : EqDecision exn.
Proof. solve_decision. Defined.

(** The texts the pipeline writes into its status message, one per call
    site of [edit_message_text] in [download_and_send_video]. *)
Inductive Notice :=
  | N_no_estimate          (* line 428 *)
  | N_estimate_too_large   (* line 431 *)
  | N_start_as_video       (* line 436 *)
  | N_choose_quality       (* line 440 *)
  | N_start_chosen         (* line 444 *)
  | N_download_timeout     (* line 495 *)
  | N_download_failed      (* line 508 *)
  | N_download_unknown     (* line 521 *)
  | N_actual_too_large     (* line 550 *)
  | N_actual_over_50MB     (* line 569 *)
  | N_sending              (* line 592 *)
  | N_file_not_found       (* line 667 *)
  | N_processing_failed    (* line 673 *)
  | N_unknown_error.       (* line 687 *)

#[global] Instance Notice_eq_dec : EqDecision Notice.
Proof. solve_decision. Defined.

Inductive Destination := ToUser | ToChannel (channel : string).

#[global] Instance Destination_eq_dec : EqDecision Destination.
Proof. solve_decision. Defined.

(** Calls into the collaborators and the durable store, in program order. *)
Inductive Event :=
  | Saved (p : Persisted)                              (* save_user_session *)
  | Makedirs (dir : string)                            (* os.makedirs *)
  | Probed (url fmt : string)                          (* extract_info, simulate *)
  | Edited (message_id : Z) (n : Notice) (keyboard : bool)
  | Fetched (url fmt : string) (timeout : Z)           (* ydl.download under wait_for *)
  | Located (url : string)                             (* extract_info + prepare_filename *)
  | Thumbnailed (video thumbnail : string)             (* extract_thumbnail *)
  | Sent (to : Destination) (path : string) (as_video : bool)
         (thumbnail : option string)                   (* _send_media_file;
                                     the width and height are passed through *)
  | Deleted (message_id : Z)                           (* delete_message *)
  | Removed (path : string).                           (* os.remove *)

#[global] Instance Event_eq_dec : EqDecision Event.
Proof. solve_decision. Defined.

(** Answers of the Media Fetcher to the metadata probe of line 413. *)
Inductive Probe :=
  | ProbeRaises (e : exn)
  | ProbeInfo (info_title : option string)
              (filesize filesize_approx : option Z).

(** Answers to the transfer of lines 488-492. *)
Inductive Fetch :=
  | FetchDone
  | FetchTimeout          (* asyncio.TimeoutError *)
  | FetchDownloadError    (* yt_dlp.utils.DownloadError *)
  | FetchFails.           (* any other Exception *)

(** Answers to lines 535-536, which compute the produced file's path. *)
Inductive Locate :=
  | LocateRaises (e : exn)
  | FinalPath (path : string).

(** Everything the environment decides during one run.  Each Messaging
    Gateway edit is keyed by its call site; [measured] is the size of the
    produced file, [None] when [os.path.exists] is false.  The calls whose
    exceptions the pipeline catches on the spot and only logs
    ([delete_message], the mirror to the channel, [os.remove]) cannot
    change its course and have no entry here. *)
Record World := mkWorld {
  makedirs_ok : bool;
  probe : Probe;
  edit_ok : Notice → bool → bool;
  fetch : Fetch;
  locate : Locate;
  measured : option Z;
  thumbnail_ok : bool;
  user_send_ok : bool;
}.

(** Process configuration read from the environment (lines 25-29). *)
Record Config := mkConfig {
  DOWNLOAD_DESTINATION_DIR : string;
  SHOULD_DELETE_FILE : bool;
  TELEGRAM_CHANNEL_ID : option string;
}.

(** The session together with the locals of [download_and_send_video] that
    its [finally] block reads, and the calls made so far. *)
Record Frame := mkFrame {
  session : Session;
  file_path : option string;
  thumbnail_path : option string;
  send_as_video : bool;
  video_title : string;
  trace : list Event;
}.

(** How a block of statements ends: it runs through, it executes
    [return b], or it raises. *)
Inductive Ctl (A : Type) :=
  | Next (a : A)
  | Return (b : bool)
  | Raise (e : exn).
Arguments Next {A} a.
Arguments Return {A} b.
Arguments Raise {A} e.

Definition M (A : Type) : Type := Frame → Ctl A * Frame.

Definition ret {A} (a : A) : M A := λ f, (Next a, f).

Definition bind {A B} (m : M A) (k : A → M B) : M B :=
  λ f, match m f with
       | (Next a, f') => k a f'
       | (Return b, f') => (Return b, f')
       | (Raise e, f') => (Raise e, f')
       end.

#[global] Instance M_ret : MRet M := @ret.
#[global] Instance M_bind : MBind M := λ A B k m, bind m k.

Definition py_return {A} (b : bool) : M A := λ f, (Return b, f).
Definition raise {A} (e : exn) : M A := λ f, (Raise e, f).

(** [try: m except ...: h]: [h e] is the handler of the first clause that
    matches [e], if any. *)
Definition try_except {A} (m : M A) (h : exn → option (M A)) : M A :=
  λ f, match m f with
       | (Raise e, f') =>
           match h e with Some k => k f' | None => (Raise e, f') end
       | r => r
       end.

(** [try: m finally: fin].  [fin] runs however [m] ended; the way [m]
    ended stands unless [fin] itself returns or raises. *)
Definition try_finally {A} (m : M A) (fin : M unit) : M A :=
  λ f, match m f with
       | (c, f') =>
           match fin f' with
           | (Next _, f'') => (c, f'')
           | (Return b, f'') => (Return b, f'')
           | (Raise e, f'') => (Raise e, f'')
           end
       end.

Definition emit (e : Event) : M unit :=
  λ f, (Next (), mkFrame (session f) (file_path f) (thumbnail_path f)
                         (send_as_video f) (video_title f) (trace f ++ [e])).

Definition get_session : M Session := λ f, (Next (session f), f).

Definition put_session (s : Session) : M unit :=
  λ f, (Next (), mkFrame s (file_path f) (thumbnail_path f)
                         (send_as_video f) (video_title f) (trace f)).

Definition set_file_path (p : option string) : M unit :=
  λ f, (Next (), mkFrame (session f) p (thumbnail_path f)
                         (send_as_video f) (video_title f) (trace f)).

Definition set_thumbnail_path (p : option string) : M unit :=
  λ f, (Next (), mkFrame (session f) (file_path f) p
                         (send_as_video f) (video_title f) (trace f)).

Definition set_send_as_video (b : bool) : M unit :=
  λ f, (Next (), mkFrame (session f) (file_path f) (thumbnail_path f)
                         b (video_title f) (trace f)).

Definition set_video_title (t : string) : M unit :=
  λ f, (Next (), mkFrame (session f) (file_path f) (thumbnail_path f)
                         (send_as_video f) t (trace f)).

Definition get_frame : M Frame := λ f, (Next f, f).

(** [save_user_session(chat_id, session)]: it catches every exception of
    its own, so it always runs through. *)
Definition save_user_session : M unit :=
  s ← get_session; emit (Saved (snapshot s)).

(** [session['active_download'][k] = v]: a [TypeError] when the slot holds
    [None]. *)
Definition update_active (g : Item → Item) : M unit :=
  s ← get_session;
  match active_download s with
  | Some a => put_session (write g a s)
  | None => raise TypeError
  end.

(** [await context.bot.edit_message_text(...)]: the edit is attempted and
    the Messaging Gateway may fail it. *)
Definition edit_message_text (w : World) (message_id : Z) (n : Notice)
    (keyboard : bool) : M unit :=
  emit (Edited message_id n keyboard);;
  if edit_ok w n keyboard then ret () else raise OtherError.

(** [d[k]] on a key that may be missing. *)
Definition subscript {A} (o : option A) : M A :=
  match o with Some a => ret a | None => raise KeyError end.

End Effects.
Export Effects.

(** ** The pipeline: [download_and_send_video] (lines 356-754) *)

Module Pipeline.

(** The message chosen by each branch of the chain of lines 427-445. *)
Definition estimate_notice (d : Outcome) : Notice :=
  match d with
  | PROCEED_UNKNOWN => N_no_estimate
  | REJECT_TOO_LARGE => N_estimate_too_large
  | PROCEED_AS_VIDEO => N_start_as_video
  | NEEDS_SELECTION => N_choose_quality
  | PROCEED_ANYWAY => N_start_chosen
  end.

(** The test of lines 379 and 598:
    [session.get('active_download') and
     session.get('active_download').get('unique_id') != download_item.get('unique_id')]. *)
Definition superseded (download_item : Item) (s : Session) : bool :=
  match active_download s with
  | Some a =>
      bool_decide (unique_id (item_at s a) ≠ unique_id download_item)
  | None => false
  end.

(** Lines 719-752, the queue update of the [finally] block. *)
Definition reconcile_after_run (download_item : Item) (s : Session)
  : Session :=
  let uid := unique_id download_item in
  match active_download s with
  | Some a =>
      if bool_decide (unique_id (item_at s a) = uid) then
        let st := status (item_at s a) in
        let s1 :=
          if String.eqb st "completed" then
            set_queue (queue_without uid s) s
          else if String.eqb st "cancelled" then
            set_queue (queue_without uid s) s
          else if py_in st ["failed"; "failed_sending"; "failed_internal"]
          then set_queue (queue_without uid s) s
          else if String.eqb st "parse_failed"
                  || String.eqb st "failed_last_attempt" then
            fold_into_queue uid a s
          else s in
        if negb (py_in (status (item_at s1 a)) ["awaiting_quality_selection"])
        then set_active_download None s1
        else s1
      else s
  | None => s
  end.

Section Run.

Variable cfg : Config.
Variable w : World.
Variable download_item : Item.

(** Lines 396-471: the metadata probe, the first size decision, and the
    quality prompt.  Runs through exactly when the transfer is to start. *)
Definition probe_stage (fmt : string) (msg : Z) : M unit :=
  emit (Probed (url download_item) fmt);;
  match probe w with
  | ProbeRaises e => raise e
  | ProbeInfo info_title filesize filesize_approx =>
      f ← get_frame;
      let vt := default (video_title f) info_title in
      set_video_title vt;;
      let estimate := py_or filesize filesize_approx in
      update_active (set_title vt);;
      save_user_session;;
      let d := resolve_estimate estimate fmt in
      (if bool_decide (d = PROCEED_AS_VIDEO)
       then set_send_as_video true else ret ());;
      edit_message_text w msg (estimate_notice d) false;;
      if action_needed d then
        edit_message_text w msg (estimate_notice d) true;;
        update_active (set_status "awaiting_quality_selection");;
        save_user_session;;
        py_return false
      else ret ()
  end.

(** Lines 485-538: the transfer under its timeout, with its three
    [except] clauses, then the path of the produced file. *)
Definition transfer_stage (fmt : string) (msg : Z) : M unit :=
  try_except
    (emit (Fetched (url download_item) fmt DOWNLOAD_TIMEOUT_SECONDS);;
     match fetch w with
     | FetchDone => ret ()
     | FetchTimeout => raise TimeoutError
     | FetchDownloadError => raise DownloadError
     | FetchFails => raise OtherError
     end)
    (λ e, Some (
       update_active (set_status "failed_last_attempt");;
       save_user_session;;
       edit_message_text w msg
         match e with
         | TimeoutError => N_download_timeout
         | DownloadError => N_download_failed
         | _ => N_download_unknown
         end false;;
       py_return false));;
  emit (Located (url download_item));;
  match locate w with
  | LocateRaises e => raise e
  | FinalPath p => set_file_path (Some p)
  end.

(** [os.path.join(DOWNLOAD_DESTINATION_DIR,
    f"{os.path.basename(file_path)}.jpg")] (line 584); the file was
    written into [DOWNLOAD_DESTINATION_DIR], so this is its path with
    [".jpg"] appended. *)
Definition thumbnail_for (p : string) : string := String.append p ".jpg".

(** Lines 603-659: delivery to the user, then the mirror to the channel.
    In the failure branch both f-strings (lines 647 and 654) read the
    local [e], which is bound only inside [except ... as e] clauses: the
    first read raises inside the inner [try], its handler raises again. *)
Definition delivery_stage (msg : Z) (p : string) : M unit :=
  f ← get_frame;
  emit (Sent ToUser p (send_as_video f) (thumbnail_path f));;
  (if user_send_ok w then
     emit (Deleted msg);;
     match TELEGRAM_CHANNEL_ID cfg with
     | Some channel =>
         emit (Sent (ToChannel channel) p (send_as_video f)
                    (thumbnail_path f))
     | None => ret ()
     end;;
     update_active (set_status "completed")
   else
     update_active (set_status "failed_sending");;
     try_except (raise UnboundLocalError)
                (λ _, Some (raise UnboundLocalError)));;
  save_user_session;;
  py_return (user_send_ok w).

(** Lines 540-670: the second size decision on the produced file, the
    thumbnail, and the hand-over to delivery. *)
Definition measure_stage (msg : Z) : M unit :=
  f ← get_frame;
  p ← match file_path f with Some p => ret p | None => raise TypeError end;
  match measured w with
  | Some actual_file_size =>
      match resolve_measured actual_file_size with
      | REJECT_TOO_LARGE =>
          update_active (set_status "failed");;
          save_user_session;;
          edit_message_text w msg N_actual_too_large false;;
          py_return false
      | NEEDS_SELECTION =>
          update_active (set_status "awaiting_quality_selection");;
          save_user_session;;
          edit_message_text w msg N_actual_over_50MB true;;
          py_return false
      | _ => set_send_as_video true
      end;;
      f ← get_frame;
      (if send_as_video f then
         set_thumbnail_path (Some (thumbnail_for p));;
         emit (Thumbnailed p (thumbnail_for p));;
         if thumbnail_ok w then ret () else set_thumbnail_path None
       else ret ());;
      edit_message_text w msg N_sending false;;
      update_active (set_status "sending");;
      save_user_session;;
      s ← get_session;
      if superseded download_item s then py_return false
      else delivery_stage msg p
  | None =>
      update_active (set_status "failed_last_attempt");;
      save_user_session;;
      edit_message_text w msg N_file_not_found false;;
      py_return false
  end.

(** The body of the outer [try] (lines 392-670). *)
Definition try_body (fmt : string) (msg : Z) : M unit :=
  emit (Makedirs (DOWNLOAD_DESTINATION_DIR cfg));;
  (if makedirs_ok w then ret () else raise OtherError);;
  probe_stage fmt msg;;
  transfer_stage fmt msg;;
  measure_stage msg.

(** The two outer [except] clauses (lines 672-698). *)
Definition outer_except (msg : Z) (e : exn) : option (M unit) :=
  Some (
    update_active (set_status "failed_last_attempt");;
    save_user_session;;
    edit_message_text w msg
      match e with
      | DownloadError => N_processing_failed
      | _ => N_unknown_error
      end false;;
    py_return false).

(** The [finally] block (lines 699-754). *)
Definition finally_block : M unit :=
  f ← get_frame;
  match file_path f with
  | Some p =>
      if bool_decide (is_Some (measured w)) then
        if SHOULD_DELETE_FILE cfg then emit (Removed p) else ret ()
      else ret ()
  | None => ret ()
  end;;
  match thumbnail_path f with
  | Some t => if thumbnail_ok w then emit (Removed t) else ret ()
  | None => ret ()
  end;;
  s ← get_session;
  put_session (reconcile_after_run download_item s);;
  save_user_session.

(** The outer [try] with its [except] clauses, without the [finally]. *)
Definition attempt (fmt : string) (msg : Z) : M unit :=
  try_except (try_body fmt msg) (outer_except msg).

(** Lines 361-754, on a chat whose session is in [user_download_sessions]
    (the callers store it there just before the call). *)
Definition download_and_send_video : M unit :=
  msg ← subscript (initial_message_id download_item);
  fmt ← subscript (format_string download_item);
  s ← get_session;
  if superseded download_item s then
    put_session (set_queue (queue_without (unique_id download_item) s) s);;
    save_user_session;;
    py_return false
  else
    update_active (set_status "downloading");;
    save_user_session;;
    try_finally (attempt fmt msg) finally_block.

(** The locals as lines 364-369 initialise them. *)
Definition initial_frame (s : Session) : Frame :=
  mkFrame s None None false (title download_item) [].

Definition run (s : Session) : Ctl unit * Frame :=
  download_and_send_video (initial_frame s).

(** The frame in which the [finally] block starts, for a run that passed
    the guard of line 379. *)
Definition before_finally (fmt : string) (msg : Z) (s : Session) : Frame :=
  (attempt fmt msg
     ((update_active (set_status "downloading");; save_user_session)
        (initial_frame s)).2).2.

End Run.

End Pipeline.
Export Pipeline.

(** ** The list view: [list_downloads] (lines 159-309) *)

Module ListView.

(** Lines 200-213: an active download whose status is a retryable failure
    is folded into the queue and the slot is cleared; any other active
    download is left in the slot (line 214). *)
Definition reconcile_for_display (s : Session) : Session :=
  match active_download s with
  | Some a =>
      let st := status (item_at s a) in
      if py_in st ["parse_failed"; "failed_last_attempt"] then
        set_active_download None
          (fold_into_queue (unique_id (item_at s a)) a s)
      else s
  | None => s
  end.

(** The statuses line 223 hides from the list. *)
Definition HIDDEN : list string :=
  ["completed"; "cancelled"; "failed"; "failed_sending"; "failed_internal"].

(** Lines 195-225: [display_items], built on the reconciled session. *)
Definition display_items (s : Session) : list Item :=
  let s' := reconcile_for_display s in
  match active_download s' with
  | Some a => [item_at s' a]
  | None => []
  end ++
  filter (λ it, py_in (status it) HIDDEN = false) (item_at s' <$> queue s').

(** The status prefix of lines 242-253. *)
Inductive Marker :=
  | MarkParseFailed      (* '[解析失败]' *)
  | MarkPending
  | MarkDownloadFailed   (* '[下载失败]' *)
  | MarkDownloading
  | MarkSending
  | MarkParsing
  | NoMarker.

Definition marker (it : Item) : Marker :=
  if String.eqb (status it) "parse_failed" then MarkParseFailed
  else if String.eqb (status it) "pending" then MarkPending
  else if String.eqb (status it) "failed_last_attempt" then MarkDownloadFailed
  else if String.eqb (status it) "downloading" then MarkDownloading
  else if String.eqb (status it) "sending" then MarkSending
  else if String.eqb (title it) "未知视频" || String.eqb (title it) ""
          || String.eqb (title it) "[解析中]" then MarkParsing
  else NoMarker.

(** The callback data the buttons carry. *)
Inductive Callback :=
  | no_op_dummy (i : nat)
  | start_download (item_id : string)
  | reparse_item (item_id : string)
  | remove_item (item_id : string).

#[global] Instance Callback_eq_dec : EqDecision Callback.
Proof. solve_decision. Defined.

(** Lines 259-274: the buttons of the [i]-th displayed item;
    [item["unique_id"]] needs the key ([None]: a [KeyError]). *)
Definition buttons (i : nat) (it : Item) : option (list Callback) :=
  first ←
    (if py_in (status it) ["pending"; "failed_last_attempt"] then
       start_download <$> unique_id it
     else if String.eqb (status it) "parse_failed" then
       reparse_item <$> unique_id it
     else Some (no_op_dummy i));
  if py_in (status it) ["parse_failed"; "failed_last_attempt"] then
    uid ← unique_id it; Some [first; remove_item uid]
  else Some [first].

End ListView.
Export ListView.

(** ** The start button: [button_callback_handler], lines 891-983 *)

Module StartButton.

Inductive StartCheck :=
  | Busy              (* line 895: a download is already active *)
  | NotInQueue        (* line 910 *)
  | StatusRefused     (* line 917 *)
  | Accepted (r : nat).

(** Lines 895-920 for a [start_download_<id>] click. *)
Definition check_start (item_id : string) (s : Session) : StartCheck :=
  match active_download s with
  | Some _ => Busy
  | None =>
      match find_in_queue (Some item_id) s with
      | None => NotInQueue
      | Some r =>
          if py_in (status (item_at s r)) ["pending"; "failed_last_attempt"]
          then Accepted r else StatusRefused
      end
  end.

(** Lines 941-950 and 977: the selected dict becomes the active download
    (the same object, not a copy), is marked ['downloading'], and gets
    the status message and the default format. *)
Definition activate (status_message_id : Z) (item_id : string) (r : nat)
    (s : Session) : Session :=
  let s1 := write (set_initial_message_id status_message_id) r s in
  let s2 := set_active_download (Some r) s1 in
  let s3 :=
    match find_in_queue (Some item_id) s2 with
    | Some q =>
        write (set_initial_message_id status_message_id)
              q (write (set_status "downloading") q s2)
    | None => s2
    end in
  write (set_format_string BEST) r s3.

End StartButton.
Export StartButton.

(** ** Enqueueing: [handle_video_link] (lines 757-857) *)

Module Enqueue.


(** Every address the session knows: a new dict gets one outside of it. *)
Definition addresses (s : Session) : gset nat :=
  dom (objects s) ∪ list_to_set (queue s)
  ∪ match active_download s with Some a => {[a]} | None => ∅ end.

(** [session['queue'].append(item)] for a dict literal [item]. *)
Definition append_new (it : Item) (s : Session) : Session :=
  let r := fresh (addresses s) in
  mkSession (<[r := it]> (objects s)) (active_download s) (queue s ++ [r])
            (last_user_message_id s) (selection_buttons_message_id s).







Section Uuid.

(** [str(uuid.uuid4())]: the ids drawn during one call, in order. *)
Variable uuid4 : nat → string.

(** Whether the reply of line 831 goes through in round [i] of the
    loop. *)
Variable reply_ok : nat → bool.





End Uuid.

(** A list subscript [l[i]] with [i >= 0]: [None] is an [IndexError]. *)
Definition index {A} (l : list A) (i : nat) : option A := l !! i.

(** Lines 843-850.  [fetched_results] are the [(title, error_type)] pairs
    of [get_video_title]; the session is the one found when the probes
    have completed.  The result is [None] when a subscript is out of
    range. *)
Fixpoint apply_fetched_results (i : nat)
    (fetched_results : list (string * option string))
    (indices : list nat) (urls : list string) (s : Session)
  : option Session :=
  match fetched_results with
  | [] => Some s
  | (title, error_type) :: rest =>
      queue_idx ← index indices i;
      if bool_decide (queue_idx < length (queue s))%nat then
        r ← index (queue s) queue_idx;
        u ← index urls i;
        if bool_decide (url (item_at s r) = u) then
          let s1 := write (set_title title) r s in
          let s2 := match error_type with
                    | Some _ => write (set_status "parse_failed") r s1
                    | None => s1
                    end in
          apply_fetched_results (S i) rest indices urls s2
        else apply_fetched_results (S i) rest indices urls s
      else apply_fetched_results (S i) rest indices urls s
  end.

End Enqueue.
Export Enqueue.

(** ** The session store: [load_user_session] (lines 60-79) *)

Module Store.

#[warnings="-register-all"] Inductive json :=
  | JNull
  | JBool (b : bool)
  | JNumber (z : Z)
  | JString (s : string)
  | JArray (l : list json)
  | JObject (m : gmap string json).

(** What the file of a chat holds when it is read. *)
Inductive File :=
  | NoFile                   (* os.path.exists is false *)
  | Unreadable               (* open or read raises *)
  | Garbled                  (* json.load raises JSONDecodeError *)
  | Holds (v : json).        (* json.load returns v *)

Inductive load_exn := IOError | JSONDecodeError | AttributeError.

(** [d.setdefault(k, v)] *)
Definition setdefault (k : string) (v : json) (d : gmap string json)
  : gmap string json :=
  match d !! k with
  | Some _ => d
  | None => <[k := v]> d
  end.

(** Lines 65-72, the body of the [try]: a value that is not a dict has no
    [setdefault]. *)
Definition load_body (f : File) : load_exn + gmap string json :=
  match f with
  | NoFile | Unreadable => inl IOError        (* open(filepath, 'r') raises *)
  | Garbled => inl JSONDecodeError
  | Holds (JObject d) =>
      inr (setdefault "selection_buttons_message_id" JNull
          (setdefault "last_user_message_id" JNull
          (setdefault "queue" (JArray [])
          (setdefault "active_download" JNull d))))
  | Holds _ => inl AttributeError
  end.

(** How [load_user_session] ends. *)
Inductive Loaded :=
  | Escapes (e : load_exn)
  | Returns (session_data : option (gmap string json)).

(** Lines 60-79: both [except] clauses return [None]. *)
Definition load_user_session (f : File) : Loaded :=
  match f with
  | NoFile => Returns None
  | _ =>
      match load_body f with
      | inr session_data => Returns (Some session_data)
      | inl JSONDecodeError => Returns None
      | inl _ => Returns None
      end
  end.

(** The dict literal the callers install when the load returns [None]
    (lines 173-178, 770-775, 871-876). *)
Definition fresh_record : gmap string json :=
  {[ "active_download" := JNull; "queue" := JArray [];
     "last_user_message_id" := JNull;
     "selection_buttons_message_id" := JNull ]}.

(** Lines 169-179: the session a caller works with after the load. *)
Definition session_or_fresh (l : Loaded) : option (gmap string json) :=
  match l with
  | Returns (Some session_data) => Some session_data
  | Returns None => Some fresh_record
  | Escapes _ => None
  end.

Definition SESSION_KEYS : list string :=
  ["active_download"; "queue"; "last_user_message_id";
   "selection_buttons_message_id"].

End Store.
Export Store.

(** ** Finding the links of a message (line 781)

    [re.findall] with the pattern of line 781, which [main] also hands to
    the message filter (line 1200).  The pattern has no capturing group,
    so [findall] returns the matched texts.  Texts are strings of bytes
    here (UTF-8); the pattern matches ASCII characters only, so a match
    begins and ends at the same places as on the code points. *)

Module Links.

(** A member of a bracketed character set. *)
Inductive cls :=
  | One (c : ascii)
  | Span (lo hi : ascii).       (* [lo-hi] *)

Inductive regex :=
  | Lit (s : string)
  | Class (l : list cls)        (* [...] *)
  | Seq (r1 r2 : regex)
  | Alt (r1 r2 : regex)         (* r1|r2 *)
  | Opt (r : regex)             (* r? *)
  | Plus (r : regex).           (* r+ *)

Definition HEX : regex :=
  Class [Span "0" "9"; Span "a" "f"; Span "A" "F"].

(** [http[s]?://(?:[a-zA-Z]|[0-9]|[$-_@.&+]|[!*\\(\\),]|(?:%[0-9a-fA-F][0-9a-fA-F]))+]
    as the raw string literal gives it to [re]: inside the fourth set,
    each [\\] is an escaped backslash. *)
Definition URL_PATTERN : regex :=
  Seq (Lit "http")
   (Seq (Opt (Class [One "s"]))
    (Seq (Lit "://")
     (Plus
       (Alt (Class [Span "a" "z"; Span "A" "Z"])
       (Alt (Class [Span "0" "9"])
       (Alt (Class [Span "$" "_"; One "@"; One "."; One "&"; One "+"])
       (Alt (Class [One "!"; One "*"; One "\"; One "("; One "\"; One ")";
                    One ","])
            (Seq (Lit "%") (Seq HEX HEX))))))))).

Definition in_cls (c : ascii) (k : cls) : bool :=
  match k with
  | One a => Ascii.eqb c a
  | Span lo hi =>
      (nat_of_ascii lo <=? nat_of_ascii c)%nat
      && (nat_of_ascii c <=? nat_of_ascii hi)%nat
  end.

(** [text] without the prefix [p], if it starts with [p]. *)
Fixpoint strip (p text : string) : option string :=
  match p with
  | EmptyString => Some text
  | String a p' =>
      match text with
      | String c text' => if Ascii.eqb a c then strip p' text' else None
      | EmptyString => None
      end
  end.

(** One more round of [r+], then the rest [k]; when no further round
    leads to a match, [k] right away (the quantifier is greedy).  [fuel]
    bounds the number of rounds. *)
Fixpoint rounds {R} (once : string → (string → option R) → option R)
    (fuel : nat) (text : string) (k : string → option R) : option R :=
  once text
    (λ text',
       match fuel with
       | O => k text'
       | S fuel' =>
           match rounds once fuel' text' k with
           | Some x => Some x
           | None => k text'
           end
       end).

(** The backtracking matcher of [re]: [r] is matched at the start of
    [text] and [k] is tried on what follows; alternatives are tried left
    to right, and the first way that makes [k] succeed is taken. *)
Fixpoint matching {R} (r : regex) (fuel : nat) (text : string)
    (k : string → option R) {struct r} : option R :=
  match r with
  | Lit p =>
      match strip p text with
      | Some text' => k text'
      | None => None
      end
  | Class l =>
      match text with
      | String c text' => if existsb (in_cls c) l then k text' else None
      | EmptyString => None
      end
  | Seq r1 r2 =>
      matching r1 fuel text (λ text', matching r2 fuel text' k)
  | Alt r1 r2 =>
      match matching r1 fuel text k with
      | Some x => Some x
      | None => matching r2 fuel text k
      end
  | Opt r1 =>
      match matching r1 fuel text k with
      | Some x => Some x
      | None => k text
      end
  | Plus r1 => rounds (matching r1 fuel) fuel text k
  end.

(** A match of the pattern at the start of [text]: what follows it.  No
    round of the group is empty, so [length text] rounds are enough. *)
Definition match_here (text : string) : option string :=
  matching URL_PATTERN (String.length text) text Some.

(** The scan of [findall]: leftmost match first, then on from its end. *)
Fixpoint scan (fuel : nat) (text : string) : list string :=
  match fuel with
  | O => []
  | S fuel' =>
      match match_here text with
      | Some rest =>
          String.substring 0 (String.length text - String.length rest) text
          :: scan fuel' rest
      | None =>
          match text with
          | String _ text' => scan fuel' text'
          | EmptyString => []
          end
      end
  end.

(** [re.findall(pattern, message_text)] *)
Definition findall (message_text : string) : list string :=
  scan (String.length message_text) message_text.

End Links.
Export Links.

(** ** Callback data: written by the list view, read by the click handler *)

Module Routing.

(** [s.split(sep)] for a separator of one character. *)
Fixpoint split (sep : ascii) (s : string) : list string :=
  match s with
  | EmptyString => [EmptyString]
  | String c s' =>
      if Ascii.eqb c sep then EmptyString :: split sep s'
      else match split sep s' with
           | part :: parts => String c part :: parts
           | [] => [String c EmptyString]
           end
  end.

(** The f-strings of lines 259, 264, 267 and 274; [{i}] prints the
    decimal digits of [i]. *)
Definition callback_data (c : Callback) : string :=
  match c with
  | no_op_dummy i => "_no_op_dummy_" +:+ pretty i
  | start_download item_id => "start_download_" +:+ item_id
  | reparse_item item_id => "reparse_item_" +:+ item_id
  | remove_item item_id => "remove_item_" +:+ item_id
  end.

(** The sections of [button_callback_handler], in the order of its
    tests. *)
Inductive Click :=
  | ClickNoOp                         (* line 885 *)
  | ClickStart (item_id : string)     (* line 891 *)
  | ClickReparse (item_id : string)   (* line 891 *)
  | ClickRemove (item_id : string)    (* line 1014 *)
  | ClickClearAll                     (* line 1042 *)
  | ClickPrompt (data : string).      (* line 1067: whatever is left *)

#[global] Instance Click_eq_dec : EqDecision Click.
Proof. solve_decision. Defined.

(** Lines 885-893, 1014-1016 and 1042: which section handles [data], and
    the item id read with [data.split('_')[2]].  [None] is the
    [IndexError] of a subscript out of range. *)
Definition route (data : string) : option Click :=
  if String.prefix "_no_op_dummy_" data || String.eqb data "_no_op" then
    Some ClickNoOp
  else if String.prefix "start_download_" data
          || String.prefix "reparse_item_" data then
    let is_reparse_action := String.prefix "reparse_item_" data in
    item_id_to_process ← index (split "_" data) 2;
    Some (if is_reparse_action then ClickReparse item_id_to_process
          else ClickStart item_id_to_process)
  else if String.prefix "remove_item_" data then
    item_id_to_remove ← index (split "_" data) 2;
    Some (ClickRemove item_id_to_remove)
  else if String.eqb data "clear_all" then Some ClickClearAll
  else Some (ClickPrompt data).

End Routing.
Export Routing.

(** ** The keyboard of the list view (lines 236-296) *)

Module Keyboard.

(** The label of a button; the number is the item's place in the list. *)
Inductive Caption :=
  | CapDownload (n : nat)     (* f"下载 {i+1}" *)
  | CapReparse (n : nat)      (* f"重解析 {i+1}" *)
  | CapView (n : nat)         (* f"查看 {i+1}" *)
  | CapRemove (n : nat)       (* f"移除 {i+1}" *)
  | CapBlank                  (* " " *)
  | CapClearAll.              (* "清空列表" *)

Inductive Data :=
  | ItemData (c : Callback)
  | NoOpData                  (* '_no_op' *)
  | ClearAllData.             (* 'clear_all' *)

(** [InlineKeyboardButton(caption, callback_data=data)] *)
Record Key := mkKey { caption : Caption; data : Data }.

#[global] Instance Caption_eq_dec : EqDecision Caption.
Proof. solve_decision. Defined.
#[global] Instance Data_eq_dec : EqDecision Data.
Proof. solve_decision. Defined.
#[global] Instance Key_eq_dec : EqDecision Key.
Proof. solve_decision. Defined.

Definition BLANK : Key := mkKey CapBlank NoOpData.
Definition CLEAR_ALL : Key := mkKey CapClearAll ClearAllData.

(** Lines 259-274: the buttons of the [i]-th displayed item;
    [item["unique_id"]] needs the key ([None]: a [KeyError]). *)
Definition item_keys (i : nat) (it : Item) : option (list Key) :=
  first ←
    (if py_in (status it) ["pending"; "failed_last_attempt"] then
       uid ← unique_id it;
       Some (mkKey (CapDownload (i + 1)) (ItemData (start_download uid)))
     else if String.eqb (status it) "parse_failed" then
       uid ← unique_id it;
       Some (mkKey (CapReparse (i + 1)) (ItemData (reparse_item uid)))
     else Some (mkKey (CapView (i + 1)) (ItemData (no_op_dummy i))));
  if py_in (status it) ["parse_failed"; "failed_last_attempt"] then
    uid ← unique_id it;
    Some [first; mkKey (CapRemove (i + 1)) (ItemData (remove_item uid))]
  else Some [first].

(** The loop of lines 237-285 from its [i]-th round on: [n] is
    [len(display_items)], the result the rows closed so far and the row
    still open. *)
Fixpoint rows (i n : nat) (items : list Item) (current_row : list Key)
    (keyboard : list (list Key)) : option (list (list Key) * list Key) :=
  match items with
  | [] => Some (keyboard, current_row)
  | it :: rest =>
      keys ← item_keys i it;
      let current_row := (current_row ++ keys)%list in
      if (2 <=? length current_row)%nat && (i =? n - 1)%nat then
        rows (S i) n rest [] (keyboard ++ [current_row])%list
      else if (length current_row =? 2)%nat then
        rows (S i) n rest [] (keyboard ++ [current_row])%list
      else if (length current_row =? 3)%nat then
        rows (S i) n rest [] (keyboard ++ [current_row])%list
      else rows (S i) n rest current_row keyboard
  end.

(** The [while] loop of lines 288-289: a row that is open and short is
    filled up to three buttons. *)
Fixpoint pad_row (fuel : nat) (current_row : list Key) : list Key :=
  match fuel with
  | O => current_row
  | S fuel' =>
      if (0 <? length current_row)%nat && (length current_row <? 3)%nat
      then pad_row fuel' (current_row ++ [BLANK])%list
      else current_row
  end.

(** Lines 236-296, for a list that is not empty. *)
Definition keyboard (display_items : list Item) : option (list (list Key)) :=
  '(keyboard, current_row) ←
    rows 0 (length display_items) display_items [] [];
  let current_row := pad_row 3 current_row in
  let keyboard :=
    match current_row with
    | [] => keyboard
    | _ => (keyboard ++ [current_row])%list
    end in
  Some match display_items with
       | [] => keyboard
       | _ => (keyboard ++ [[CLEAR_ALL]])%list
       end.

End Keyboard.
Export Keyboard.

(** ** The other sections of [button_callback_handler]

    The handler works on the session it has just reloaded (line 869), so
    each section is a function of that session. *)

Module Clicks.

(** Lines 1016-1027 of the [remove_item_<id>] section: the session it
    leaves, and whether it reports the removal (and saves) or says that
    the item does not exist. *)
Definition remove_click (item_id_to_remove : string) (s : Session)
  : Session * bool :=
  let original_queue_len := length (queue s) in
  let s := set_queue (queue_without (Some item_id_to_remove) s) s in
  let s :=
    match active_download s with
    | Some a =>
        if bool_decide (unique_id (item_at s a) = Some item_id_to_remove)
        then set_active_download None s
        else s
    | None => s
    end in
  (s, (length (queue s) <? original_queue_len)%nat
      || (bool_decide (active_download s = None)
          && (original_queue_len =? length (queue s))%nat)).

(** Lines 1044-1049 of the [clear_all] section. *)
Definition clear_all_click (s : Session) : Session :=
  let s :=
    match active_download s with
    | Some a => write (set_status "cancelled") a s
    | None => s
    end in
  set_queue [] (set_active_download None s).

(** The test of line 1068: the click does not belong to the status
    message of the active download. *)
Definition expired (message_id : Z) (s : Session) : bool :=
  match active_download s with
  | Some a =>
      bool_decide (initial_message_id (item_at s a) ≠ Some message_id)
  | None => true
  end.

(** The format selectors of lines 1089 and 1094. *)
Definition QUALITY_MEDIUM : string :=
  "bestvideo[height<=720]+bestaudio/best[height<=720]/bestvideo[height<=480]+bestaudio/best[height<=480]".
Definition QUALITY_LOWEST : string := "worst".

(** Lines 1086-1095: the format a quality button asks for. *)
Definition format_to_try (data : string) : option string :=
  if String.eqb data "quality_medium" then Some QUALITY_MEDIUM
  else if String.eqb data "quality_lowest" then Some QUALITY_LOWEST
  else None.

(** Lines 1090/1095 and 1148: the active download [a] as the retry finds
    it. *)
Definition prepare_retry (fmt : string) (a : nat) (s : Session) : Session :=
  write (set_format_string fmt) a (write (set_status "downloading") a s).

(** Lines 1098-1112, [save_to_list]: the first queue entry with the id
    of the active download [a] becomes pending; when there is none, [a]
    becomes pending and a copy of it is appended. *)
Definition save_to_list (a : nat) (s : Session) : Session :=
  let s :=
    match find_in_queue (unique_id (item_at s a)) s with
    | Some r => write (set_status "pending") r s
    | None =>
        let s := write (set_status "pending") a s in
        append_new (item_at s a) s
    end in
  set_active_download None s.

(** Lines 1133-1134, [cancel_download]. *)
Definition cancel_download (a : nat) (s : Session) : Session :=
  set_active_download None
    (set_queue (queue_without (unique_id (item_at s a)) s) s).

(** Lines 987-990, in the [except] clause of the start section. *)
Definition fail_internal (item_id_to_process : string) (s : Session)
  : Session :=
  match active_download s with
  | Some a =>
      if bool_decide (unique_id (item_at s a) = Some item_id_to_process)
      then
        let s := write (set_status "failed_internal") a s in
        set_active_download None
          (set_queue (queue_without (Some item_id_to_process) s) s)
      else s
  | None => s
  end.

End Clicks.
Export Clicks.

(** ** Ids for the items of older records: [main], lines 1181-1185 *)

Module Startup.

Definition set_unique_id (uid : string) (it : Item) : Item :=
  mkItem (url it) (title it) (status it) (Some uid)
         (initial_message_id it) (format_string it).

Section Uuid.

(** [str(uuid.uuid4())]: the ids drawn for one record, in order. *)
Variable uuid4 : nat → string.

(** The loop of lines 1181-1183 over the entries [q]; [n] ids have been
    drawn so far. *)
Fixpoint assign_ids (n : nat) (q : list nat) (s : Session) : nat * Session :=
  match q with
  | [] => (n, s)
  | r :: rest =>
      match unique_id (item_at s r) with
      | Some _ => assign_ids n rest s
      | None => assign_ids (S n) rest (write (set_unique_id (uuid4 n)) r s)
      end
  end.

(** Lines 1181-1185. *)
Definition assign_missing_ids (s : Session) : Session :=
  let '(n, s) := assign_ids 0 (queue s) s in
  match active_download s with
  | Some a =>
      match unique_id (item_at s a) with
      | Some _ => s
      | None => write (set_unique_id (uuid4 n)) a s
      end
  | None => s
  end.

End Uuid.

End Startup.
Export Startup.

(** ** The session through one call of [list_downloads] (lines 159-309) *)

Module Listing.

Definition set_selection_buttons_message_id (m : option Z) (s : Session)
  : Session :=
  mkSession (objects s) (active_download s) (queue s)
            (last_user_message_id s) m.

(** What the Messaging Gateway answers during the call. *)
Record Gateway := mkGateway {
  delete_ok : bool;         (* line 185: [delete_message] goes through *)
  message_sent : option Z;  (* lines 231-233 and 301: the id of the message
                               sent; [None] when the call raises *)
}.

Inductive ListEnd :=
  | Listed                  (* line 309 *)
  | NothingToList           (* line 234 *)
  | ListRaises (e : exn).

(** The session in memory when the call ends, the records it has
    written to the chat's file, in order, and the way it ended. *)
Record Listing := mkListing {
  listed_session : Session;
  written : list Persisted;
  list_end : ListEnd;
}.

(** Lines 182-309, on the session found in memory at line 165. *)
Definition list_downloads (g : Gateway) (s : Session) : Listing :=
  let '(s, records) :=
    match selection_buttons_message_id s with
    | Some m =>
        if bool_decide (m ≠ 0) && delete_ok g then
          let s := set_selection_buttons_message_id None s in
          (s, [snapshot s])
        else (s, [])
    | None => (s, [])
    end in
  let folded :=
    match active_download s with
    | Some a =>
        py_in (status (item_at s a)) ["parse_failed"; "failed_last_attempt"]
    | None => false
    end in
  let display := display_items s in
  let s := reconcile_for_display s in
  let records := if folded then (records ++ [snapshot s])%list else records in
  match display with
  | [] =>
      mkListing s records
        match message_sent g with
        | Some _ => NothingToList
        | None => ListRaises OtherError
        end
  | _ =>
      match keyboard display with
      | None => mkListing s records (ListRaises KeyError)
      | Some _ =>
          match message_sent g with
          | None => mkListing s records (ListRaises OtherError)
          | Some m =>
              let s := set_selection_buttons_message_id (Some m) s in
              mkListing s (records ++ [snapshot s])%list Listed
          end
      end
  end.

End Listing.
Export Listing.

(** * Statements and proofs *)

(** * Vocabulary of the statements *)

Module Vocabulary.

(** The statuses the [finally] block prunes (lines 722-733). *)
Definition TERMINAL : list string :=
  ["completed"; "cancelled"; "failed"; "failed_sending"; "failed_internal"].

(** The statuses that are kept for a retry (lines 201 and 734). *)
Definition RETRYABLE : list string := ["parse_failed"; "failed_last_attempt"].

Definition AWAITING : string := "awaiting_quality_selection".

(** The queue entries of [s] that carry the id [uid], by value. *)
Definition entries_with (uid : option string) (s : Session) : list Item :=
  filter (λ it, unique_id it = uid) (item_at s <$> queue s).

(** No two queue entries carry the same id. *)
Definition distinct_ids (s : Session) : Prop :=
  NoDup (unique_id <$> (item_at s <$> queue s)).

(** [s] is [s0] up to the status and title of its items. *)
Definition retouched (s0 s : Session) : Prop :=
  active_download s = active_download s0 ∧ queue s = queue s0 ∧
  ∀ r, unique_id (item_at s r) = unique_id (item_at s0 r)
       ∧ url (item_at s r) = url (item_at s0 r)
       ∧ (active_download s0 ≠ Some r → item_at s r = item_at s0 r).

(** A block of statements keeps a property of the session. *)
Definition keeps {A} (Q : Session → Prop) (m : M A) : Prop :=
  ∀ f, Q (session f) → Q (session (m f).2).

Definition is_sent (e : Event) : bool :=
  match e with Sent _ _ _ _ => true | _ => false end.

Definition is_prompt (e : Event) : bool :=
  match e with Edited _ _ true => true | _ => false end.

(** A call into the Media Fetcher, or a delivery. *)
Definition is_work (e : Event) : bool :=
  match e with
  | Probed _ _ | Fetched _ _ _ | Located _ | Sent _ _ _ _ => true
  | _ => false
  end.

(** The run gets as far as the transfer: the directory can be made, the
    probe answers, its size decision asks for no action, and the edit
    announcing the download goes through. *)
Definition reaches_transfer (w : World) (fmt : string) : Prop :=
  makedirs_ok w = true
  ∧ ∃ info_title filesize filesize_approx,
      probe w = ProbeInfo info_title filesize filesize_approx
      ∧ action_needed (resolve_estimate (py_or filesize filesize_approx) fmt)
        = false
      ∧ edit_ok w (estimate_notice
                     (resolve_estimate (py_or filesize filesize_approx) fmt))
                false = true.

(** The transfer completes and leaves a file of [size] bytes at [path]. *)
Definition produces_file (w : World) (path : string) (size : Z) : Prop :=
  fetch w = FetchDone ∧ locate w = FinalPath path ∧ measured w = Some size.

(** The text shown for each way the transfer fails (lines 495, 508, 521). *)
Definition fetch_notice (f : Fetch) : Notice :=
  match f with
  | FetchTimeout => N_download_timeout
  | FetchDownloadError => N_download_failed
  | _ => N_download_unknown
  end.


(** The record the chat's file holds after the calls of [tr]: the one
    [save_user_session] wrote last. *)
Definition on_disk (tr : list Event) : option Persisted :=
  last (omap (λ e, match e with Saved p => Some p | _ => None end) tr).

(** What one probe result writes into an item (lines 847-849). *)
Definition retitled (result : string * option string) (it : Item) : Item :=
  let it := set_title result.1 it in
  match result.2 with
  | Some _ => set_status "parse_failed" it
  | None => it
  end.

(** The [j]-th probe is for the dict [r]: the index recorded for the
    probe holds [r] in the queue of [s], and [r] holds the URL that was
    probed. *)
Definition probe_for (indices : list nat) (urls : list string)
    (s : Session) (r j : nat) : bool :=
  match indices !! j, urls !! j with
  | Some queue_idx, Some u =>
      match queue s !! queue_idx with
      | Some r' => bool_decide (r' = r ∧ url (item_at s r) = u)
      | None => false
      end
  | _, _ => false
  end.

(** Of the results of the probes from the [j]-th on, those of the probes
    that are for [r], in order. *)
Fixpoint results_for (indices : list nat) (urls : list string) (s : Session)
    (r j : nat) (results : list (string * option string))
  : list (string * option string) :=
  match results with
  | [] => []
  | result :: rest =>
      (if probe_for indices urls s r j then [result] else [])
      ++ results_for indices urls s r (S j) rest
  end.


End Vocabulary.
Export Vocabulary.

(** * Sample inputs *)

Module Examples.

Definition item_a : Item :=
  mkItem "https://v.example/a" "A" "downloading" (Some "id-a") (Some 7)
         (Some "best").

Definition item_b : Item :=
  mkItem "https://v.example/b" "B" "pending" (Some "id-b") (Some 9)
         (Some "best").

(** [item_a] with a quality chosen by the user. *)
Definition item_a_worst : Item := set_format_string "worst" item_a.

(** The active download is the dict at address 0, which is also the first
    queue entry (the state the start button leaves). *)
Definition session_ab : Session :=
  mkSession {[0%nat := item_a; 1%nat := item_b]} (Some 0%nat)
            [0%nat; 1%nat] None None.

(** The same, with the user's quality choice recorded. *)
Definition session_ab_worst : Session :=
  mkSession {[0%nat := item_a_worst; 1%nat := item_b]} (Some 0%nat)
            [0%nat; 1%nat] None None.

Definition config_delete : Config := mkConfig "/downloads" true None.
Definition config_keep : Config := mkConfig "/downloads" false None.

(** A world in which every call succeeds; the probe estimates [estimate]
    and the produced file has [size] bytes. *)
Definition world_ok (estimate : option Z) (size : Z) : World :=
  mkWorld true (ProbeInfo (Some "A") estimate None) (λ _ _, true)
          FetchDone (FinalPath "/downloads/A.mp4") (Some size)
          true true.

(** As [world_ok], but delivery to the user fails. *)
Definition world_send_fails : World :=
  mkWorld true (ProbeInfo (Some "A") (Some (30 * MB)) None) (λ _ _, true)
          FetchDone (FinalPath "/downloads/A.mp4") (Some (30 * MB))
          true false.

(** As [world_ok], but the transfer ends as [outcome]. *)
Definition world_fetch (outcome : Fetch) : World :=
  mkWorld true (ProbeInfo (Some "A") (Some (30 * MB)) None) (λ _ _, true)
          outcome (FinalPath "/downloads/A.mp4") None
          true true.

(** No estimate, a produced file of 2 GB, and a Messaging Gateway that
    fails the edit announcing it. *)
Definition world_huge_edit_fails : World :=
  mkWorld true (ProbeInfo (Some "A") None None)
          (λ n _, negb (bool_decide (n = N_actual_too_large)))
          FetchDone (FinalPath "/downloads/A.mp4") (Some (2 * GB))
          true true.


(** A session with an empty slot and [item_b] queued. *)
Definition session_b : Session :=
  mkSession {[1%nat := item_b]} None [1%nat] None None.





End Examples.
Export Examples.

(** * Notions used in the statements about whole runs and handlers *)

Module Notions.

(** What holds of every delivery: the file is the one the transfer has
    produced, it goes out as a video, it measures no more than the
    direct-video limit, and the channel gets it only after the user. *)
Definition sound_delivery (w : World) (e : Event) : Prop :=
  match e with
  | Sent to p as_video _ =>
      as_video = true ∧ fetch w = FetchDone ∧ locate w = FinalPath p
      ∧ (∃ n, measured w = Some n ∧ n ≤ TELEGRAM_VIDEO_FILE_SIZE_LIMIT_BYTES)
      ∧ (to ≠ ToUser → user_send_ok w = true)
  | _ => True
  end.

Definition is_user_delivery (e : Event) : bool :=
  match e with Sent ToUser _ _ _ => true | _ => false end.

(** [m], started in a frame with [P], ends in a frame with [Q]. *)
Definition leads {A} (P Q : Frame → Prop) (m : M A) : Prop :=
  ∀ f, P f → Q (m f).2.

(** Before the measured size is known nothing has been delivered, and a
    recorded path is the one the completed transfer has produced. *)
Definition undelivered (w : World) (f : Frame) : Prop :=
  Forall (λ e, is_sent e = false) (trace f)
  ∧ ∀ p, file_path f = Some p → fetch w = FetchDone ∧ locate w = FinalPath p.

Definition delivered_once (w : World) (f : Frame) : Prop :=
  Forall (sound_delivery w) (trace f)
  ∧ (length (filter (λ e, is_user_delivery e = true) (trace f)) ≤ 1)%nat.

(** An id without an underscore in it, as [uuid.uuid4] draws them. *)
Fixpoint plain (item_id : string) : bool :=
  match item_id with
  | EmptyString => true
  | String c rest => negb (Ascii.eqb c "_") && plain rest
  end.

(** The section a button is meant for, and the id it is meant to bring
    there. *)
Definition click_of (c : Callback) : Click :=
  match c with
  | no_op_dummy _ => ClickNoOp
  | start_download item_id => ClickStart item_id
  | reparse_item item_id => ClickReparse item_id
  | remove_item item_id => ClickRemove item_id
  end.

Definition id_of (c : Callback) : string :=
  match c with
  | no_op_dummy _ => ""
  | start_download item_id | reparse_item item_id | remove_item item_id =>
      item_id
  end.

(** The buttons of the displayed items from the [i]-th place on, in the
    order of the list. *)
Fixpoint keys_from (i : nat) (items : list Item) : option (list Key) :=
  match items with
  | [] => Some []
  | it :: rest =>
      keys ← item_keys i it;
      more ← keys_from (S i) rest;
      Some (keys ++ more)%list
  end.

(** The statuses whose buttons carry the item's id. *)
Definition needs_id (it : Item) : bool :=
  py_in (status it) ["pending"; "failed_last_attempt"; "parse_failed"].

(** The exception that ends the run before the probe has answered, if
    there is one: [os.makedirs] fails, or the probe raises. *)
Definition fails_early (w : World) : option exn :=
  if makedirs_ok w then
    match probe w with
    | ProbeRaises e => Some e
    | ProbeInfo _ _ _ => None
    end
  else Some OtherError.

(** The text the outer [except] clauses show for it (lines 673, 687). *)
Definition outer_notice (e : exn) : Notice :=
  match e with
  | DownloadError => N_processing_failed
  | _ => N_unknown_error
  end.

(** [it'] is [it], or [it] with an id where it had none. *)
Definition id_filled (it it' : Item) : Prop :=
  it' = it ∨ (unique_id it = None ∧ ∃ uid, it' = set_unique_id uid it).

(** The characters a link goes on with after its scheme: the small
    letters, everything from [$] to [_] in ASCII order (the digits, the
    capitals, and [% & ' ( ) * + , - . / : ; < = > ? @ [ \ ] ^]), and
    [!]. *)
Definition link_char (c : ascii) : bool :=
  let n := nat_of_ascii c in
  ((97 <=? n) && (n <=? 122) || (36 <=? n) && (n <=? 95) || (n =? 33))%nat.

(** [text] without the link characters it starts with. *)
Fixpoint skip_link_chars (text : string) : string :=
  match text with
  | String c rest => if link_char c then skip_link_chars rest else text
  | EmptyString => EmptyString
  end.

Fixpoint link_chars (text : string) : bool :=
  match text with
  | String c rest => link_char c && link_chars rest
  | EmptyString => true
  end.

(** A link at the start of [text], read without a pattern: [http://] or
    [https://], then as many link characters as there are, at least
    one.  The result is what follows the link. *)
Definition link_at (text : string) : option string :=
  match
    match strip "https://" text with
    | Some body => Some body
    | None => strip "http://" text
    end
  with
  | Some (String c rest) =>
      if link_char c then Some (skip_link_chars rest) else None
  | _ => None
  end.

(** [u] is a link from its first to its last character. *)
Definition is_link (u : string) : Prop :=
  ∃ body, (u = "http://" +:+ body ∨ u = "https://" +:+ body)
          ∧ body ≠ "" ∧ link_chars body = true.

End Notions.
Export Notions.

#[local] Arguments write : simpl never.
#[local] Arguments item_at : simpl never.
#[local] Arguments snapshot : simpl never.
#[local] Arguments superseded : simpl never.
#[local] Arguments reconcile_after_run : simpl never.
#[local] Arguments reconcile_for_display : simpl never.
#[local] Arguments fold_into_queue : simpl never.
#[local] Arguments find_in_queue : simpl never.
#[local] Arguments queue_without : simpl never.
#[local] Arguments resolve_estimate : simpl never.
#[local] Arguments resolve_measured : simpl never.
#[local] Arguments mbind {_ _ _ _} _ _ /.
#[local] Arguments mret {_ _ _} _ /.
#[local] Arguments bind {A B} m k f /.
#[local] Arguments M_bind A B k m f /.
#[local] Arguments M_ret A a f /.
#[local] Arguments ret {A} a f /.
#[local] Arguments emit e f /.
#[local] Arguments get_session f /.
#[local] Arguments get_frame f /.
#[local] Arguments put_session s f /.
#[local] Arguments set_file_path p f /.
#[local] Arguments set_thumbnail_path p f /.
#[local] Arguments set_send_as_video b f /.
#[local] Arguments set_video_title t f /.
#[local] Arguments save_user_session f /.
#[local] Arguments update_active g f /.
#[local] Arguments edit_message_text w message_id n keyboard f /.
#[local] Arguments subscript {A} o f /.
#[local] Arguments py_return {A} b f /.
#[local] Arguments raise {A} e f /.
#[local] Arguments try_except {A} m h f /.
#[local] Arguments try_finally {A} m fin f /.
#[local] Arguments probe_stage w download_item fmt msg f /.
#[local] Arguments transfer_stage w download_item fmt msg f /.
#[local] Arguments measure_stage cfg w download_item msg f /.
#[local] Arguments delivery_stage cfg w msg p f /.
#[local] Arguments try_body cfg w download_item fmt msg f /.
#[local] Arguments attempt cfg w download_item fmt msg f /.
#[local] Arguments finally_block cfg w download_item f /.
#[local] Arguments download_and_send_video cfg w download_item f /.
#[local] Arguments run cfg w download_item s /.
#[local] Arguments before_finally cfg w download_item fmt msg s /.
#[local] Arguments outer_except w msg e /.

(** Symbolic execution: reduce, then unblock with [rew]. *)
Ltac mrun rew := repeat (progress (cbn; rew)).

(** * Facts about the store *)

Section ModelFacts.
Implicit Types (s : Session) (r a : nat) (f g : Item → Item).

Lemma item_at_write_eq f r s : item_at (write f r s) r = f (item_at s r).
Proof. unfold item_at, write; simpl. apply lookup_total_insert_eq. Qed.

Lemma item_at_write_ne f r r' s :
  r ≠ r' → item_at (write f r s) r' = item_at s r'.
Proof.
  intros. unfold item_at, write; simpl. by apply lookup_total_insert_ne.
Qed.

Lemma item_at_write f r r' s :
  item_at (write f r s) r'
  = if decide (r = r') then f (item_at s r) else item_at s r'.
Proof.
  case_decide; subst; [apply item_at_write_eq | by apply item_at_write_ne].
Qed.

Lemma item_at_set_active_download o s r :
  item_at (set_active_download o s) r = item_at s r.
Proof. done. Qed.

Lemma item_at_set_queue q s r : item_at (set_queue q s) r = item_at s r.
Proof. done. Qed.

Lemma active_download_write g r s :
  active_download (write g r s) = active_download s.
Proof. done. Qed.

Lemma queue_write g r s : queue (write g r s) = queue s.
Proof. done. Qed.

Lemma unique_id_write g r r' s :
  (∀ it, unique_id (g it) = unique_id it) →
  unique_id (item_at (write g r s) r') = unique_id (item_at s r').
Proof. intros Hg. rewrite item_at_write. case_decide; subst; by rewrite ?Hg. Qed.

Lemma py_in_spec x l : py_in x l = true ↔ x ∈ l.
Proof.
  unfold py_in. rewrite existsb_exists. split.
  - intros (y & Hy & E). apply String.eqb_eq in E. subst.
    by apply list_elem_of_In.
  - intros H. exists x. split; [by apply list_elem_of_In|apply String.eqb_refl].
Qed.

Lemma py_in_false x l : py_in x l = false ↔ x ∉ l.
Proof. rewrite <- py_in_spec. by destruct (py_in x l). Qed.

Lemma retouched_refl s : retouched s s.
Proof. by split_and!. Qed.

End ModelFacts.

(** * Facts about queues *)

Section QueueFacts.

Lemma filter_fmap_item {A B} (f : A → B) (P : B → Prop)
    `{∀ x, Decision (P x)} (l : list A) :
  filter P (f <$> l) = f <$> filter (λ x, P (f x)) l.
Proof.
  induction l as [|x l IH]; [done|]. rewrite fmap_cons, !filter_cons.
  case_decide; rewrite IH; done.
Qed.

Lemma filter_none {A} (P : A → Prop) `{∀ x, Decision (P x)} (l : list A) :
  Forall (λ x, ¬ P x) l → filter P l = [].
Proof.
  induction 1 as [|x l Hx _ IH]; [done|].
  by rewrite filter_cons, decide_False.
Qed.

Lemma filter_unique {A B} `{EqDecision B} (f : A → B) (l : list A) x :
  NoDup (f <$> l) → x ∈ l → filter (λ y, f y = f x) l = [x].
Proof.
  induction l as [|y l IH]; intros Hnd Hx; [by apply elem_of_nil in Hx|].
  rewrite fmap_cons in Hnd. apply NoDup_cons in Hnd as [Hy Hnd].
  rewrite filter_cons. apply elem_of_cons in Hx as [->|Hx].
  - rewrite decide_True by done. f_equal. apply filter_none.
    apply Forall_forall. intros z Hz E. apply Hy. rewrite <- E.
    by apply list_elem_of_fmap_2.
  - rewrite decide_False; [by apply IH|].
    intros E. apply Hy. rewrite E. by apply list_elem_of_fmap_2.
Qed.

Lemma find_in_queue_Some uid s r :
  find_in_queue uid s = Some r → r ∈ queue s ∧ unique_id (item_at s r) = uid.
Proof.
  unfold find_in_queue. destruct (list_find _ _) as [[i x]|] eqn:E; [|done].
  intros [= <-]. apply list_find_Some in E as (Hi & Hx & _). split; [|done].
  by eapply list_elem_of_lookup_2.
Qed.

Lemma find_in_queue_None uid s :
  find_in_queue uid s = None →
  Forall (λ r, unique_id (item_at s r) ≠ uid) (queue s).
Proof.
  unfold find_in_queue. destruct (list_find _ _) as [[i x]|] eqn:E; [done|].
  intros _. by apply list_find_None in E.
Qed.

Lemma find_in_queue_ext uid s s' :
  queue s' = queue s →
  (∀ r, unique_id (item_at s' r) = unique_id (item_at s r)) →
  find_in_queue uid s' = find_in_queue uid s.
Proof.
  intros Hq Hid. unfold find_in_queue. rewrite Hq. f_equal.
  apply list_find_ext. intros r. by rewrite Hid.
Qed.

Lemma entries_with_ext uid s s' :
  queue s' = queue s →
  (∀ r, unique_id (item_at s' r) = unique_id (item_at s r)) →
  entries_with uid s'
  = item_at s' <$> filter (λ r, unique_id (item_at s r) = uid) (queue s).
Proof.
  intros Hq Hid. unfold entries_with. rewrite filter_fmap_item, Hq. f_equal.
  apply list_filter_iff. intros r. by rewrite Hid.
Qed.

Lemma fold_into_queue_ids uid a s r :
  unique_id (item_at (fold_into_queue uid a s) r) = unique_id (item_at s r).
Proof.
  unfold fold_into_queue. destruct (find_in_queue _ s) as [q|]; [|done].
  by apply unique_id_write.
Qed.

Lemma fold_into_queue_active uid a s :
  active_download (fold_into_queue uid a s) = active_download s.
Proof. unfold fold_into_queue. by destruct (find_in_queue _ s). Qed.

Lemma status_after_fold uid a s :
  status (item_at (fold_into_queue uid a s) a) = status (item_at s a).
Proof.
  unfold fold_into_queue. destruct (find_in_queue _ s) as [r|]; [|done].
  rewrite item_at_write. by case_decide; subst.
Qed.

(** After the fold the first entry with the id carries the status. *)
Lemma fold_into_queue_found a s :
  ∃ r, find_in_queue (unique_id (item_at s a))
         (fold_into_queue (unique_id (item_at s a)) a s) = Some r
       ∧ status (item_at (fold_into_queue (unique_id (item_at s a)) a s) r)
         = status (item_at s a).
Proof.
  unfold fold_into_queue.
  destruct (find_in_queue _ s) as [r|] eqn:E.
  - exists r. split; [|by rewrite item_at_write_eq].
    rewrite <- E. apply find_in_queue_ext; [done|].
    intros q. by apply unique_id_write.
  - exists a. split; [|done]. pose proof (find_in_queue_None _ _ E) as Hall.
    unfold find_in_queue in *. cbn.
    destruct (list_find _ (queue s)) as [[]|] eqn:E'; [done|].
    rewrite list_find_app_r by done. cbn. by rewrite decide_True.
Qed.

(** With distinct ids the fold leaves exactly one entry with the id. *)
Lemma fold_into_queue_entries a s :
  distinct_ids s →
  ∃ it, entries_with (unique_id (item_at s a))
          (fold_into_queue (unique_id (item_at s a)) a s) = [it]
        ∧ status it = status (item_at s a).
Proof.
  intros Hnd. unfold distinct_ids in Hnd. rewrite <- list_fmap_compose in Hnd.
  unfold fold_into_queue.
  destruct (find_in_queue _ s) as [r|] eqn:E.
  - apply find_in_queue_Some in E as [Hr Hid].
    rewrite (entries_with_ext _ s); [|done|].
    2:{ intros q. by apply unique_id_write. }
    rewrite <- Hid.
    rewrite (filter_unique (λ r, unique_id (item_at s r)) (queue s) r Hnd Hr).
    eexists. split; [done|]. by rewrite item_at_write_eq.
  - apply find_in_queue_None in E.
    unfold entries_with. rewrite filter_fmap_item. simpl.
    rewrite filter_app.
    rewrite (filter_none _ (queue s)) by done.
    rewrite filter_cons, decide_True by done. eexists; split; done.
Qed.

Lemma queue_without_entries uid s s' :
  queue s' = queue_without uid s →
  (∀ r, item_at s' r = item_at s r) →
  entries_with uid s' = [].
Proof.
  intros Hq Hit. unfold entries_with. rewrite filter_fmap_item.
  rewrite filter_none; [done|]. rewrite Hq. unfold queue_without.
  apply Forall_forall. intros r [Hr _]%list_elem_of_filter. by rewrite Hit.
Qed.

End QueueFacts.

(** * What every block of the pipeline keeps *)

Section Keeps.
Context (Q : Session → Prop).

Lemma keeps_mret {A} (a : A) : keeps Q (mret a : M A).
Proof. by intros f. Qed.

Lemma keeps_ret {A} (a : A) : keeps Q (ret a).
Proof. by intros f. Qed.

Lemma keeps_bind {A B} (m : M A) (k : A → M B) :
  keeps Q m → (∀ a, keeps Q (k a)) → keeps Q (m ≫= k).
Proof.
  intros Hm Hk f Hf. specialize (Hm f Hf). cbn.
  destruct (m f) as [[a|b|e] f']; simpl in *; auto. by apply Hk.
Qed.

Lemma keeps_try_except {A} (m : M A) h :
  keeps Q m → (∀ e k, h e = Some k → keeps Q k) → keeps Q (try_except m h).
Proof.
  intros Hm Hh f Hf. specialize (Hm f Hf). cbn.
  destruct (m f) as [[a|b|e] f']; simpl in *; auto.
  destruct (h e) as [k|] eqn:E; simpl; auto. by eapply Hh.
Qed.

Lemma keeps_emit e : keeps Q (emit e).
Proof. by intros f. Qed.

Lemma keeps_raise {A} e : keeps Q (raise e : M A).
Proof. by intros f. Qed.

Lemma keeps_py_return {A} b : keeps Q (py_return b : M A).
Proof. by intros f. Qed.

Lemma keeps_get_frame : keeps Q get_frame.
Proof. by intros f. Qed.

Lemma keeps_get_session : keeps Q get_session.
Proof. by intros f. Qed.

Lemma keeps_set_file_path p : keeps Q (set_file_path p).
Proof. by intros f. Qed.

Lemma keeps_set_thumbnail_path p : keeps Q (set_thumbnail_path p).
Proof. by intros f. Qed.

Lemma keeps_set_send_as_video b : keeps Q (set_send_as_video b).
Proof. by intros f. Qed.

Lemma keeps_set_video_title t : keeps Q (set_video_title t).
Proof. by intros f. Qed.

Lemma keeps_save : keeps Q save_user_session.
Proof. by intros f. Qed.

Lemma keeps_edit w m n k : keeps Q (edit_message_text w m n k).
Proof. intros f Hf. cbn. by destruct (edit_ok w n k). Qed.

Lemma keeps_subscript {A} (o : option A) : keeps Q (subscript o).
Proof. intros f Hf. by destruct o. Qed.

End Keeps.

Lemma keeps_update_active s0 g :
  (∀ it, unique_id (g it) = unique_id it ∧ url (g it) = url it) →
  keeps (retouched s0) (update_active g).
Proof.
  intros Hg f Hf. cbn.
  destruct (active_download (session f)) as [a|] eqn:E; cbn; [|done].
  destruct Hf as (Ha & Hq & Hr).
  split_and!; auto. intros r. rewrite item_at_write.
  case_decide; subst.
  - destruct (Hg (item_at (session f) r)) as [-> ->].
    destruct (Hr r) as (? & ? & ?). split_and!; auto. congruence.
  - apply Hr.
Qed.

Ltac keeps_tac :=
  repeat first
    [ apply keeps_update_active; by intros []
    | apply keeps_bind; [|intros ?]
    | apply keeps_try_except; [|intros ? ? [= <-]]
    | apply keeps_emit | apply keeps_raise | apply keeps_py_return
    | apply keeps_get_frame | apply keeps_get_session
    | apply keeps_set_file_path | apply keeps_set_thumbnail_path
    | apply keeps_set_send_as_video | apply keeps_set_video_title
    | apply keeps_save | apply keeps_edit | apply keeps_subscript
    | apply keeps_mret | apply keeps_ret
    | match goal with
      | |- keeps _ (match ?x with _ => _ end) => destruct x
      | |- keeps _ (if ?x then _ else _) => destruct x
      end ].

(** * The shape of a run *)

Section RunFacts.
Context (cfg : Config) (w : World) (d : Item).

(** The attempt touches nothing but the status and title of items. *)
Lemma keeps_attempt s0 fmt msg :
  keeps (retouched s0) (attempt cfg w d fmt msg).
Proof.
  unfold attempt, try_body, outer_except, probe_stage, transfer_stage,
    measure_stage, delivery_stage.
  keeps_tac.
Qed.

Lemma update_active_Some g f a :
  active_download (session f) = Some a →
  update_active g f
  = (Next (), mkFrame (write g a (session f)) (file_path f)
                      (thumbnail_path f) (send_as_video f) (video_title f)
                      (trace f)).
Proof. intros H. cbn. by rewrite H. Qed.

Lemma finally_block_spec f :
  (finally_block cfg w d f).1 = Next ()
  ∧ session (finally_block cfg w d f).2 = reconcile_after_run d (session f).
Proof.
  cbn. destruct (file_path f); simpl;
    repeat (case_bool_decide || case_match || simpl); simplify_eq/=; done.
Qed.

Lemma try_finally_spec {A} (m : M A) f :
  session (try_finally m (finally_block cfg w d) f).2
  = reconcile_after_run d (session (m f).2)
  ∧ (try_finally m (finally_block cfg w d) f).1 = (m f).1.
Proof.
  unfold try_finally. destruct (m f) as [c f'].
  destruct (finally_block_spec f') as (H1 & H2).
  destruct (finally_block cfg w d f') as [[[]|b|e] f''];
    cbn -[finally_block] in *; done.
Qed.

Lemma superseded_write g r s :
  (∀ it, unique_id (g it) = unique_id it) →
  superseded d (write g r s) = superseded d s.
Proof.
  intros Hg. unfold superseded. rewrite active_download_write.
  destruct (active_download s) as [a|]; [|done].
  by rewrite unique_id_write.
Qed.

Lemma superseded_false s a :
  active_download s = Some a → unique_id (item_at s a) = unique_id d →
  superseded d s = false.
Proof.
  intros Ha Hid. unfold superseded. rewrite Ha.
  apply bool_decide_eq_false. tauto.
Qed.

Lemma superseded_true s a :
  active_download s = Some a → unique_id (item_at s a) ≠ unique_id d →
  superseded d s = true.
Proof.
  intros Ha Hid. unfold superseded. rewrite Ha. by apply bool_decide_eq_true.
Qed.

(** A run that passes the guard ends with the reconciliation of the frame
    its attempt has left. *)
Lemma run_passes_guard s a msg fmt :
  initial_message_id d = Some msg → format_string d = Some fmt →
  active_download s = Some a → unique_id (item_at s a) = unique_id d →
  session (run cfg w d s).2
  = reconcile_after_run d (session (before_finally cfg w d fmt msg s))
  ∧ retouched s (session (before_finally cfg w d fmt msg s)).
Proof.
  intros Hm Hf Ha Hid.
  pose proof (superseded_false s a Ha Hid) as Hsup.
  unfold run, download_and_send_video, before_finally.
  rewrite Hm, Hf.
  repeat (progress (cbn -[attempt finally_block try_finally];
                    rewrite ?Hsup, ?Ha)).
  split; [apply try_finally_spec|].
  apply keeps_attempt. cbn.
  split_and!; [done..|]. intros r. rewrite item_at_write.
  case_decide; subst; [|done]. split_and!; [done..|congruence].
Qed.

End RunFacts.

(** * The reconciliation of the [finally] block, by status *)

Section ReconcileFacts.

Lemma reconcile_after_run_cases d s a :
  active_download s = Some a → unique_id (item_at s a) = unique_id d →
  (status (item_at s a) = AWAITING ∧ reconcile_after_run d s = s)
  ∨ (status (item_at s a) ∈ TERMINAL ∧
     reconcile_after_run d s
     = set_active_download None (set_queue (queue_without (unique_id d) s) s))
  ∨ (status (item_at s a) ∈ RETRYABLE ∧
     reconcile_after_run d s
     = set_active_download None (fold_into_queue (unique_id d) a s))
  ∨ (status (item_at s a) ≠ AWAITING ∧ (status (item_at s a) ∉ TERMINAL)
     ∧ (status (item_at s a) ∉ RETRYABLE) ∧
     reconcile_after_run d s = set_active_download None s).
Proof.
  intros Ha Hid. unfold reconcile_after_run. rewrite Ha.
  rewrite bool_decide_eq_true_2 by done. cbv zeta.
  pose proof (status_after_fold (unique_id d) a s) as Hfold.
  unfold AWAITING, TERMINAL, RETRYABLE, py_in. simpl.
  remember (status (item_at s a)) as st eqn:Hst.
  assert (∀ q, status (item_at (set_queue q s) a) = st) as Hq by done.
  destruct (String.eqb_spec st "completed") as [E|N1]; simpl.
  { rewrite Hq, E. simpl. right; left. split; [|done].
    repeat first [apply list_elem_of_here | apply list_elem_of_further]. }
  destruct (String.eqb_spec st "cancelled") as [E|N2]; simpl.
  { rewrite Hq, E. simpl. right; left. split; [|done].
    repeat first [apply list_elem_of_here | apply list_elem_of_further]. }
  destruct (String.eqb_spec st "failed") as [E|N3]; simpl.
  { rewrite Hq, E. simpl. right; left. split; [|done].
    repeat first [apply list_elem_of_here | apply list_elem_of_further]. }
  destruct (String.eqb_spec st "failed_sending") as [E|N4]; simpl.
  { rewrite Hq, E. simpl. right; left. split; [|done].
    repeat first [apply list_elem_of_here | apply list_elem_of_further]. }
  destruct (String.eqb_spec st "failed_internal") as [E|N5]; simpl.
  { rewrite Hq, E. simpl. right; left. split; [|done].
    repeat first [apply list_elem_of_here | apply list_elem_of_further]. }
  destruct (String.eqb_spec st "parse_failed") as [E|N6]; simpl.
  { rewrite Hfold, E. simpl. right; right; left. split; [|done].
    repeat first [apply list_elem_of_here | apply list_elem_of_further]. }
  destruct (String.eqb_spec st "failed_last_attempt") as [E|N7]; simpl.
  { rewrite Hfold, E. simpl. right; right; left. split; [|done].
    repeat first [apply list_elem_of_here | apply list_elem_of_further]. }
  rewrite <- Hst.
  destruct (String.eqb_spec st "awaiting_quality_selection") as [E|N8]; simpl.
  { by left. }
  right; right; right. split_and!; [done| | |done];
    rewrite !elem_of_cons, elem_of_nil; tauto.
Qed.

End ReconcileFacts.

(** * The size resolver *)

(** C2.  The decision taken on the probed estimate: at most 50 MB is sent
    as a video, above the upload limit of 1.95 GB is rejected, in between
    the default format ['best'] needs a selection and any other format
    proceeds, and without an estimate the download proceeds to decide
    later; with the five examples of the specification. *)
Theorem resolver_on_estimate (fmt : string) :
  TELEGRAM_VIDEO_FILE_SIZE_LIMIT_BYTES = 50 * MB
  ∧ 100 * TELEGRAM_MAX_FILE_SIZE_BYTES = 195 * GB
  ∧ (∀ n, n ≤ TELEGRAM_VIDEO_FILE_SIZE_LIMIT_BYTES →
          resolve_estimate (Some n) fmt = PROCEED_AS_VIDEO)
  ∧ (∀ n, TELEGRAM_MAX_FILE_SIZE_BYTES < n →
          resolve_estimate (Some n) fmt = REJECT_TOO_LARGE)
  ∧ (∀ n, TELEGRAM_VIDEO_FILE_SIZE_LIMIT_BYTES < n
          < TELEGRAM_MAX_FILE_SIZE_BYTES →
          fmt = BEST → resolve_estimate (Some n) fmt = NEEDS_SELECTION)
  ∧ (∀ n, TELEGRAM_VIDEO_FILE_SIZE_LIMIT_BYTES < n
          < TELEGRAM_MAX_FILE_SIZE_BYTES →
          fmt ≠ BEST → resolve_estimate (Some n) fmt = PROCEED_ANYWAY)
  ∧ resolve_estimate None fmt = PROCEED_UNKNOWN
  ∧ resolve_estimate (Some (40 * MB)) fmt = PROCEED_AS_VIDEO
  ∧ resolve_estimate (Some (25 * GB / 10)) fmt = REJECT_TOO_LARGE
  ∧ resolve_estimate (Some (100 * MB)) BEST = NEEDS_SELECTION
  ∧ (fmt ≠ BEST → resolve_estimate (Some (100 * MB)) fmt = PROCEED_ANYWAY).
Proof.
  assert (Hband : ∀ n, TELEGRAM_VIDEO_FILE_SIZE_LIMIT_BYTES < n
                       ≤ TELEGRAM_MAX_FILE_SIZE_BYTES →
            resolve_estimate (Some n) fmt
            = if String.eqb fmt BEST then NEEDS_SELECTION else PROCEED_ANYWAY).
  { intros n [Hlo Hhi]. unfold resolve_estimate.
    destruct (Z.ltb_spec TELEGRAM_MAX_FILE_SIZE_BYTES n); [lia|].
    destruct (Z.leb_spec n TELEGRAM_VIDEO_FILE_SIZE_LIMIT_BYTES); [lia|done]. }
  split_and!; try done.
  - intros n Hn. unfold resolve_estimate.
    destruct (Z.ltb_spec TELEGRAM_MAX_FILE_SIZE_BYTES n).
    + unfold TELEGRAM_MAX_FILE_SIZE_BYTES,
        TELEGRAM_VIDEO_FILE_SIZE_LIMIT_BYTES in *. lia.
    + by destruct (Z.leb_spec n TELEGRAM_VIDEO_FILE_SIZE_LIMIT_BYTES); [|lia].
  - intros n Hn. unfold resolve_estimate.
    by destruct (Z.ltb_spec TELEGRAM_MAX_FILE_SIZE_BYTES n); [|lia].
  - intros n Hn ->. rewrite Hband by lia. done.
  - intros n Hn Hne. rewrite Hband by lia.
    by destruct (String.eqb_spec fmt BEST).
  - intros Hne. rewrite Hband by done.
    by destruct (String.eqb_spec fmt BEST).
Qed.

Lemma resolver_on_estimate_witness :
  resolve_estimate (Some (50 * MB)) "worst" = PROCEED_AS_VIDEO
  ∧ resolve_estimate (Some (2 * GB)) "worst" = REJECT_TOO_LARGE
  ∧ resolve_estimate (Some (60 * MB)) BEST = NEEDS_SELECTION
  ∧ resolve_estimate (Some (60 * MB)) "worst" = PROCEED_ANYWAY
  ∧ resolve_estimate (Some (100 * MB)) "worst" = PROCEED_ANYWAY.
Proof.
  destruct (resolver_on_estimate "worst")
    as (_ & _ & Hv & Hr & _ & Ha & _ & _ & _ & _ & Hex).
  destruct (resolver_on_estimate BEST)
    as (_ & _ & _ & _ & Hs & _).
  split_and!.
  - apply Hv. vm_compute. discriminate.
  - apply Hr. reflexivity.
  - apply Hs; [split; reflexivity | reflexivity].
  - apply Ha; [split; reflexivity | discriminate].
  - apply Hex. discriminate.
Defined.

(** The same chain at the boundary the prose leaves open: an estimate of
    exactly the upload limit is in the middle band. *)
Lemma resolver_at_upload_limit :
  resolve_estimate (Some TELEGRAM_MAX_FILE_SIZE_BYTES) BEST = NEEDS_SELECTION.
Proof. reflexivity. Qed.

(** * The supersession guard *)

(** C7, as amended.  A run for an item that is not the active one returns
    [False] before the [try]: nothing is probed, fetched or delivered and
    the active slot and every stored item stay as they are; the queue
    loses the entries that carry the rejected item's id (line 384) and
    keeps the others in order, and the session is saved. *)
Theorem stale_run_rejected cfg w d s a msg fmt :
  initial_message_id d = Some msg → format_string d = Some fmt →
  active_download s = Some a → unique_id (item_at s a) ≠ unique_id d →
  let s' := session (run cfg w d s).2 in
  (run cfg w d s).1 = Return false
  ∧ s' = set_queue (queue_without (unique_id d) s) s
  ∧ active_download s' = active_download s
  ∧ objects s' = objects s
  ∧ queue s' = filter (λ r, unique_id (item_at s r) ≠ unique_id d) (queue s)
  ∧ (entries_with (unique_id d) s = [] → queue s' = queue s)
  ∧ trace (run cfg w d s).2 = [Saved (snapshot s')]
  ∧ existsb is_work (trace (run cfg w d s).2) = false.
Proof.
  intros Hm Hf Ha Hid.
  pose proof (superseded_true d s a Ha Hid) as Hsup.
  unfold run, download_and_send_video. rewrite Hm, Hf.
  mrun ltac:(rewrite ?Hsup).
  split_and!; try done.
  intros Hnone. unfold queue_without.
  unfold entries_with in Hnone. rewrite filter_fmap_item in Hnone.
  apply fmap_nil_inv in Hnone.
  induction (queue s) as [|r q IH]; [done|].
  rewrite filter_cons in Hnone |- *. case_decide; [done|].
  rewrite decide_True by done. f_equal. by apply IH.
Qed.

Lemma stale_run_rejected_witness :
  queue (session (run config_delete (world_ok None 0) item_b session_ab).2)
  = [0%nat].
Proof.
  pose proof (stale_run_rejected config_delete (world_ok None 0) item_b
                session_ab 0%nat 9 "best" eq_refl eq_refl eq_refl
                ltac:(vm_compute; discriminate)) as H.
  destruct H as (_ & _ & _ & _ & -> & _). vm_compute. reflexivity.
Defined.

(** C7 as stated fails: the rejected run prunes the stale item from the
    queue. *)
Lemma stale_run_changes_queue :
  superseded item_b session_ab = true
  ∧ ¬ (queue (session (run config_delete (world_ok None 0) item_b
                           session_ab).2)
       = queue session_ab
       ∧ active_download
           (session (run config_delete (world_ok None 0) item_b
                         session_ab).2)
         = active_download session_ab).
Proof. split; [reflexivity|]. vm_compute. intros [[=] _]. Qed.

(** With an empty slot the guard does not fire; line 388 then subscripts
    [None] and the call raises before its [try], the session as it was. *)
Lemma run_without_active_raises cfg w d s msg fmt :
  initial_message_id d = Some msg → format_string d = Some fmt →
  active_download s = None →
  run cfg w d s = (Raise TypeError, initial_frame d s).
Proof.
  intros Hm Hf Ha. unfold run, download_and_send_video, superseded.
  rewrite Hm, Hf. mrun ltac:(rewrite ?Ha). done.
Qed.

(** * Reconciliation after a run *)

Section Reconciliation.

Lemma entries_with_nil uid s :
  entries_with uid s = [] ↔ find_in_queue uid s = None.
Proof.
  unfold entries_with, find_in_queue. rewrite filter_fmap_item. split.
  - intros H%fmap_nil_inv.
    destruct (list_find _ _) as [[i r]|] eqn:E; [|done].
    apply list_find_Some in E as (Hi & Hr & _).
    apply list_elem_of_lookup_2 in Hi.
    assert (r ∈ filter (λ x, unique_id (item_at s x) = uid) (queue s)) as Hin
      by by apply list_elem_of_filter.
    rewrite H in Hin. by apply elem_of_nil in Hin.
  - destruct (list_find _ _) as [[i r]|] eqn:E; [done|]. intros _.
    apply list_find_None in E. by rewrite filter_none.
Qed.

Lemma retouched_distinct s0 s :
  retouched s0 s → distinct_ids s0 → distinct_ids s.
Proof.
  intros (_ & Hq & Hr). unfold distinct_ids.
  rewrite <- !list_fmap_compose, Hq. intros H.
  erewrite list_fmap_ext; [exact H|]. intros i r _. simpl. apply Hr.
Qed.

Lemma retouched_find uid s0 s :
  retouched s0 s → find_in_queue uid s = find_in_queue uid s0.
Proof. intros (_ & Hq & Hr). apply find_in_queue_ext; [done|]. apply Hr. Qed.

(** The list view's own reconciliation (lines 200-213), on any session:
    a retryable active download is folded into the queue and the slot is
    cleared; any other is left in the slot. *)
Lemma reconcile_for_display_cases s a :
  active_download s = Some a →
  (status (item_at s a) ∈ RETRYABLE ∧
   reconcile_for_display s
   = set_active_download None
       (fold_into_queue (unique_id (item_at s a)) a s))
  ∨ ((status (item_at s a) ∉ RETRYABLE) ∧ reconcile_for_display s = s).
Proof.
  intros Ha. unfold reconcile_for_display. rewrite Ha. cbv zeta.
  destruct (py_in _ _) eqn:E.
  - left. by apply py_in_spec in E.
  - right. by apply py_in_false in E.
Qed.

Lemma retryable_cases st :
  st ∈ RETRYABLE → st = "parse_failed" ∨ st = "failed_last_attempt".
Proof.
  unfold RETRYABLE. rewrite !elem_of_cons, elem_of_nil. tauto.
Qed.

Lemma retryable_not_terminal st : st ∈ RETRYABLE → st ∉ TERMINAL.
Proof.
  intros [-> | ->]%retryable_cases; by apply py_in_false.
Qed.

Lemma retryable_not_awaiting st : st ∈ RETRYABLE → st ≠ AWAITING.
Proof. by intros [-> | ->]%retryable_cases. Qed.

End Reconciliation.

(** C1.  The active slot holds at most one item.  A run that passed the
    guard ends with the reconciliation of its [finally] block, after which
    the slot is empty unless the item awaits a quality selection; the list
    view's reconciliation then changes nothing, and an item that stays in
    the slot keeps the queue entry it had.  An item left with a retryable
    status heads the queue entries of its id with that status: the first
    such entry was updated, or the item was appended when there was none,
    and with distinct ids it is the one entry of its id.  The list view's
    reconciliation does the same fold on any session whose active item
    has a retryable status. *)
Theorem run_reconciles cfg w d s a msg fmt :
  initial_message_id d = Some msg → format_string d = Some fmt →
  active_download s = Some a → unique_id (item_at s a) = unique_id d →
  let s1 := session (before_finally cfg w d fmt msg s) in
  let s2 := session (run cfg w d s).2 in
  (∀ i j, p_active_download (snapshot s2) = Some i →
          p_active_download (snapshot s2) = Some j → i = j)
  ∧ s2 = reconcile_after_run d s1
  ∧ (∀ b, active_download s2 = Some b → status (item_at s2 b) = AWAITING)
  ∧ reconcile_for_display s2 = s2
  ∧ (∀ b, active_download s2 = Some b →
          b = a ∧ (entries_with (unique_id d) s ≠ [] →
                   entries_with (unique_id d) s2 ≠ []))
  ∧ (status (item_at s1 a) ∈ RETRYABLE →
       active_download s2 = None
       ∧ (∃ r, find_in_queue (unique_id d) s2 = Some r
               ∧ status (item_at s2 r) = status (item_at s1 a))
       ∧ (entries_with (unique_id d) s = [] → queue s2 = (queue s ++ [a])%list)
       ∧ (entries_with (unique_id d) s ≠ [] → queue s2 = queue s)
       ∧ (distinct_ids s →
            ∃ it, entries_with (unique_id d) s2 = [it]
                  ∧ status it = status (item_at s1 a)))
  ∧ (∀ t b, active_download t = Some b →
       status (item_at t b) ∈ RETRYABLE →
       let t' := reconcile_for_display t in
       active_download t' = None
       ∧ (∃ r, find_in_queue (unique_id (item_at t b)) t' = Some r
               ∧ status (item_at t' r) = status (item_at t b))
       ∧ (distinct_ids t →
            ∃ it, entries_with (unique_id (item_at t b)) t' = [it]
                  ∧ status it = status (item_at t b))).
Proof.
  intros Hm Hf Ha Hid s1 s2.
  destruct (run_passes_guard cfg w d s a msg fmt Hm Hf Ha Hid) as [Hrun Hret].
  fold s1 in Hrun, Hret. fold s2 in Hrun.
  assert (Ha1 : active_download s1 = Some a) by (destruct Hret; congruence).
  assert (Hid1 : unique_id (item_at s1 a) = unique_id d).
  { destruct Hret as (_ & _ & Hr). destruct (Hr a) as [-> _]. done. }
  pose proof (reconcile_after_run_cases d s1 a Ha1 Hid1) as Hcases.
  rewrite <- Hrun in Hcases.
  split_and!.
  - intros i j Hi Hj. congruence.
  - done.
  - intros b Hb.
    destruct Hcases as [[Hst E]|[[_ E]|[[_ E]|(_ & _ & _ & E)]]];
      rewrite E in Hb |- *; try done.
    congruence.
  - destruct Hcases as [[Hst E]|[[_ E]|[[_ E]|(_ & _ & _ & E)]]];
      rewrite E; try done.
    unfold reconcile_for_display. rewrite Ha1, Hst. done.
  - intros b Hb.
    destruct Hcases as [[Hst E]|[[_ E]|[[_ E]|(_ & _ & _ & E)]]];
      rewrite E in Hb |- *; try done.
    split; [congruence|]. rewrite !entries_with_nil.
    by rewrite (retouched_find _ s s1 Hret).
  - intros Hretry.
    destruct Hcases as [[Hst E]|[[Hst E]|[[_ E]|(_ & _ & Hst & E)]]];
      try done.
    { by apply retryable_not_awaiting in Hretry. }
    { by apply retryable_not_terminal in Hretry. }
    rewrite E. split_and!.
    + done.
    + rewrite <- Hid1. apply fold_into_queue_found.
    + intros Hnone.
      apply entries_with_nil in Hnone.
      rewrite <- (retouched_find _ s s1 Hret) in Hnone.
      cbn. unfold fold_into_queue. rewrite Hnone. cbn.
      by destruct Hret as (_ & -> & _).
    + intros Hsome.
      destruct (find_in_queue (unique_id d) s1) as [r|] eqn:Ef.
      * cbn. unfold fold_into_queue. rewrite Ef, queue_write.
        by destruct Hret as (_ & -> & _).
      * rewrite (retouched_find _ s s1 Hret) in Ef.
        by apply entries_with_nil in Ef.
    + intros Hnd. apply (retouched_distinct _ _ Hret) in Hnd.
      rewrite <- Hid1. apply (fold_into_queue_entries a s1 Hnd).
  - intros t b Hb Hst t'.
    destruct (reconcile_for_display_cases t b Hb) as [[_ E]|[Hn _]]; [|done].
    subst t'. rewrite E. split_and!.
    + done.
    + apply fold_into_queue_found.
    + apply fold_into_queue_entries.
Qed.

Lemma run_reconciles_witness :
  active_download
    (session (run config_delete (world_fetch FetchTimeout) item_a
                  session_ab).2) = None
  ∧ ∃ it,
      entries_with (Some "id-a")
        (session (run config_delete (world_fetch FetchTimeout) item_a
                      session_ab).2) = [it]
      ∧ status it = "failed_last_attempt".
Proof.
  destruct (run_reconciles config_delete (world_fetch FetchTimeout) item_a
              session_ab 0%nat 7 "best" eq_refl eq_refl eq_refl eq_refl)
    as (_ & _ & _ & _ & _ & H & _).
  destruct H as (Hact & _ & _ & _ & Hone).
  { vm_compute. apply list_elem_of_further, list_elem_of_here. }
  split; [exact Hact|].
  destruct Hone as (it & H1 & H2).
  { apply (bool_decide_unpack _). vm_compute. exact I. }
  exists it. split; [exact H1|]. rewrite H2. vm_compute. reflexivity.
Defined.

(** * Outcomes of the reconciliation, by the status the attempt left *)

Section Outcomes.
Context (d : Item) (s : Session) (a : nat).
Context (Ha : active_download s = Some a).
Context (Hid : unique_id (item_at s a) = unique_id d).

Lemma reconcile_retryable :
  status (item_at s a) ∈ RETRYABLE →
  let s' := reconcile_after_run d s in
  active_download s' = None
  ∧ ∃ r, find_in_queue (unique_id d) s' = Some r
         ∧ status (item_at s' r) = status (item_at s a).
Proof.
  intros Hst s'.
  destruct (reconcile_after_run_cases d s a Ha Hid)
    as [[H _]|[[H _]|[[_ E]|(_ & _ & H & _)]]].
  - by apply retryable_not_awaiting in Hst.
  - by apply retryable_not_terminal in Hst.
  - subst s'. rewrite E. split; [done|]. rewrite <- Hid.
    apply fold_into_queue_found.
  - done.
Qed.

Lemma reconcile_terminal :
  status (item_at s a) ∈ TERMINAL →
  let s' := reconcile_after_run d s in
  s' = set_active_download None (set_queue (queue_without (unique_id d) s) s)
  ∧ active_download s' = None
  ∧ entries_with (unique_id d) s' = []
  ∧ find_in_queue (unique_id d) s' = None.
Proof.
  intros Hst s'.
  assert (E : s' = set_active_download None
                     (set_queue (queue_without (unique_id d) s) s)).
  { destruct (reconcile_after_run_cases d s a Ha Hid)
      as [[H _]|[[_ E]|[[H _]|(_ & H & _)]]]; try done.
    - rewrite H in Hst. by apply py_in_spec in Hst.
    - by apply retryable_not_terminal in H. }
  assert (En : entries_with (unique_id d) s' = []).
  { rewrite E. by apply (queue_without_entries _ s). }
  split_and!; try done; [by rewrite E|by apply entries_with_nil].
Qed.

Lemma reconcile_awaiting :
  status (item_at s a) = AWAITING → reconcile_after_run d s = s.
Proof.
  intros Hst.
  destruct (reconcile_after_run_cases d s a Ha Hid)
    as [[_ E]|[[H _]|[[H _]|(H & _)]]]; try done.
  - rewrite Hst in H. by apply py_in_spec in H.
  - by apply retryable_not_awaiting in H.
Qed.

End Outcomes.

(** * The start button on a reloaded session *)

Section Reload.

(** [find_in_queue] and the item it finds depend on the persisted record
    only. *)
Lemma find_in_queue_snapshot uid s t r :
  snapshot t = snapshot s → find_in_queue uid s = Some r →
  ∃ r', find_in_queue uid t = Some r' ∧ item_at t r' = item_at s r.
Proof.
  intros Hsnap Hfind.
  assert (Hq : item_at t <$> queue t = item_at s <$> queue s)
    by (by injection Hsnap).
  unfold find_in_queue in *.
  pose proof (list_find_fmap (item_at s) (λ it, unique_id it = uid)
                (queue s)) as Hs.
  pose proof (list_find_fmap (item_at t) (λ it, unique_id it = uid)
                (queue t)) as Ht.
  rewrite Hq, Hs in Ht. unfold compose in *.
  destruct (list_find _ (queue s)) as [[i x]|]; [|done].
  injection Hfind as ->.
  destruct (list_find _ (queue t)) as [[j y]|]; [|done].
  injection Ht as _ Hy. by exists y.
Qed.

Lemma check_start_snapshot uid s t r :
  snapshot t = snapshot s → check_start uid s = Accepted r →
  ∃ r', check_start uid t = Accepted r' ∧ item_at t r' = item_at s r.
Proof.
  intros Hsnap. unfold check_start.
  assert (Hact : item_at t <$> active_download t
                 = item_at s <$> active_download s) by (by injection Hsnap).
  destruct (active_download s) as [?|]; [done|].
  destruct (active_download t) as [?|]; [done|].
  destruct (find_in_queue (Some uid) s) as [q|] eqn:E; [|done].
  destruct (find_in_queue_snapshot _ s t q Hsnap E) as (q' & -> & Hq').
  rewrite Hq'. destruct (py_in _ _); [|done]. intros [= <-]. by exists q'.
Qed.

(** After the start button has activated the entry [r], the pipeline
    called on [session['active_download']] passes its guard. *)
Lemma activate_passes_guard m uid r s :
  let s' := activate m uid r s in
  active_download s' = Some r ∧ superseded (item_at s' r) s' = false
  ∧ initial_message_id (item_at s' r) = Some m
  ∧ format_string (item_at s' r) = Some BEST.
Proof.
  intros s'.
  assert (Hact : active_download s' = Some r).
  { unfold s', activate. cbv zeta. rewrite active_download_write.
    by destruct (find_in_queue _ _). }
  split_and!; [done| | |].
  - by apply (superseded_false _ _ r).
  - unfold s', activate. cbv zeta. rewrite item_at_write_eq. cbn.
    destruct (find_in_queue _ _) as [q|].
    + rewrite item_at_write. case_decide; [done|].
      rewrite item_at_write_ne by done.
      by rewrite item_at_set_active_download, item_at_write_eq.
    + by rewrite item_at_set_active_download, item_at_write_eq.
  - unfold s', activate. cbv zeta. by rewrite item_at_write_eq.
Qed.

End Reload.

(** * A failed transfer *)

Ltac in_trace :=
  repeat first [apply list_elem_of_here | apply list_elem_of_further].

Ltac not_in_trace :=
  let H := fresh in
  intros H;
  repeat (apply elem_of_cons in H as [H|H]; [discriminate H|]);
  by apply elem_of_nil in H.

Ltac store_facts :=
  rewrite ?active_download_write;
  rewrite ?unique_id_write by (by intros []);
  rewrite ?item_at_write_eq.

(** * The record a later click reloads *)

Section Reloaded.

Lemma find_in_queue_record uid s t r :
  p_queue (snapshot t) = p_queue (snapshot s) →
  find_in_queue uid s = Some r →
  ∃ r', find_in_queue uid t = Some r' ∧ item_at t r' = item_at s r.
Proof.
  intros Hq Hfind. unfold snapshot in Hq. cbn in Hq.
  unfold find_in_queue in *.
  pose proof (list_find_fmap (item_at s) (λ it, unique_id it = uid)
                (queue s)) as Hs.
  pose proof (list_find_fmap (item_at t) (λ it, unique_id it = uid)
                (queue t)) as Ht.
  rewrite Hq, Hs in Ht. unfold compose in *.
  destruct (list_find _ (queue s)) as [[i x]|]; [|done].
  injection Hfind as ->.
  destruct (list_find _ (queue t)) as [[j y]|]; [|done].
  injection Ht as _ Hy. by exists y.
Qed.

Lemma check_start_record uid s t r :
  p_active_download (snapshot t) = p_active_download (snapshot s) →
  p_queue (snapshot t) = p_queue (snapshot s) →
  check_start uid s = Accepted r →
  ∃ r', check_start uid t = Accepted r' ∧ item_at t r' = item_at s r.
Proof.
  intros Hact Hq. unfold check_start. unfold snapshot in Hact. cbn in Hact.
  destruct (active_download s) as [?|]; [done|].
  destruct (active_download t) as [?|]; [done|].
  destruct (find_in_queue (Some uid) s) as [q|] eqn:E; [|done].
  destruct (find_in_queue_record _ s t q Hq E) as (q' & -> & Hq').
  rewrite Hq'. destruct (py_in _ _); [|done]. intros [= <-]. by exists q'.
Qed.

(** With an empty slot the list view has nothing to fold back: every
    record it writes differs from the session's own in the id of the
    selection message only. *)
Lemma list_downloads_idle g s p :
  active_download s = None → p ∈ written (list_downloads g s) →
  p_active_download p = p_active_download (snapshot s)
  ∧ p_queue p = p_queue (snapshot s).
Proof.
  intros Ha. unfold list_downloads.
  assert (Hsel : ∀ m S, active_download S = None →
            active_download (set_selection_buttons_message_id m S) = None
            ∧ reconcile_for_display S = S
            ∧ display_items (set_selection_buttons_message_id m S)
              = display_items S
            ∧ p_active_download
                (snapshot (set_selection_buttons_message_id m S))
              = p_active_download (snapshot S)
            ∧ p_queue (snapshot (set_selection_buttons_message_id m S))
              = p_queue (snapshot S)).
  { intros m S HS. split_and!; [done| |..].
    - unfold reconcile_for_display. by rewrite HS.
    - unfold display_items, reconcile_for_display. cbn. by rewrite HS.
    - done.
    - done. }
  assert (Hrest : ∀ S records,
    active_download S = None →
    p_active_download (snapshot S) = p_active_download (snapshot s) →
    p_queue (snapshot S) = p_queue (snapshot s) →
    (∀ q, q ∈ records →
          p_active_download q = p_active_download (snapshot s)
          ∧ p_queue q = p_queue (snapshot s)) →
    p ∈ written
          (let folded :=
             match active_download S with
             | Some a => py_in (status (item_at S a))
                           ["parse_failed"; "failed_last_attempt"]
             | None => false
             end in
           let display := display_items S in
           let s0 := reconcile_for_display S in
           let records0 :=
             if folded then (records ++ [snapshot s0])%list else records in
           match display with
           | [] =>
               mkListing s0 records0
                 match message_sent g with
                 | Some _ => NothingToList
                 | None => ListRaises OtherError
                 end
           | _ =>
               match keyboard display with
               | None => mkListing s0 records0 (ListRaises KeyError)
               | Some _ =>
                   match message_sent g with
                   | None => mkListing s0 records0 (ListRaises OtherError)
                   | Some m =>
                       let s1 := set_selection_buttons_message_id (Some m) s0 in
                       mkListing s1 (records0 ++ [snapshot s1])%list Listed
                   end
               end
           end) →
    p_active_download p = p_active_download (snapshot s)
    ∧ p_queue p = p_queue (snapshot s)).
  { intros S records HS H1 H2 Hrec. cbv zeta. rewrite HS.
    destruct (Hsel None S HS) as (_ & -> & _).
    destruct (display_items S); cbn [written]; [by apply Hrec|].
    destruct (keyboard _); cbn [written]; [|by apply Hrec].
    destruct (message_sent g) as [m|]; cbn [written]; [|by apply Hrec].
    intros [Hp| ->%list_elem_of_singleton]%elem_of_app; [by apply Hrec|].
    destruct (Hsel (Some m) S HS) as (_ & _ & _ & -> & ->). done. }
  destruct (selection_buttons_message_id s) as [m|] eqn:Em.
  - destruct (bool_decide (m ≠ 0) && delete_ok g).
    + apply Hrest.
      * done.
      * done.
      * done.
      * intros q ->%list_elem_of_singleton. done.
    + apply Hrest; [done..|]. intros q Hq. by apply elem_of_nil in Hq.
  - apply Hrest; [done..|]. intros q Hq. by apply elem_of_nil in Hq.
Qed.

End Reloaded.

(** C5.  The transfer runs under the fixed timeout of 300 s.  When it
    times out or raises, the pipeline edits the status message with the
    failure, delivers nothing and does not report success; afterwards the
    slot is empty and the first queue entry with the item's id has status
    [failed_last_attempt], and that session is what the run has saved
    last.  The retry: whatever the list view, rendered on that session,
    writes to the file (it changes the id of the selection message), on
    the session reloaded from the run's record or from any record of the
    list view the start button accepts that entry, and the run it starts
    passes the supersession guard. *)
Theorem failed_fetch_is_retryable cfg w d s a msg fmt uid :
  initial_message_id d = Some msg → format_string d = Some fmt →
  active_download s = Some a → unique_id (item_at s a) = unique_id d →
  unique_id d = Some uid →
  reaches_transfer w fmt → fetch w ≠ FetchDone →
  let r := run cfg w d s in
  let s' := session r.2 in
  DOWNLOAD_TIMEOUT_SECONDS = 5 * 60
  ∧ Fetched (url d) fmt DOWNLOAD_TIMEOUT_SECONDS ∈ trace r.2
  ∧ Edited msg (fetch_notice (fetch w)) false ∈ trace r.2
  ∧ existsb is_sent (trace r.2) = false
  ∧ (r.1 = Return false ∨ r.1 = Raise OtherError)
  ∧ (edit_ok w (fetch_notice (fetch w)) false = true → r.1 = Return false)
  ∧ active_download s' = None
  ∧ on_disk (trace r.2) = Some (snapshot s')
  ∧ ∃ q, find_in_queue (Some uid) s' = Some q
         ∧ status (item_at s' q) = "failed_last_attempt"
         ∧ ∀ g t,
             snapshot t ∈ snapshot s' :: written (list_downloads g s') →
             ∃ q', check_start uid t = Accepted q'
                   ∧ status (item_at t q') = "failed_last_attempt"
                   ∧ ∀ m, let t' := activate m uid q' t in
                          active_download t' = Some q'
                          ∧ superseded (item_at t' q') t' = false.
Proof.
  intros Hm Hf Ha Hid Huid (Hmk & t0 & fs & fsa & Hp & Han & He) Hfe r s'.
  pose proof (superseded_false d s a Ha Hid) as Hsup.
  assert (Hcore : ∀ S,
    active_download S = Some a → unique_id (item_at S a) = unique_id d →
    status (item_at S a) = "failed_last_attempt" →
    active_download (reconcile_after_run d S) = None
    ∧ ∃ q, find_in_queue (Some uid) (reconcile_after_run d S) = Some q
         ∧ status (item_at (reconcile_after_run d S) q) = "failed_last_attempt"
         ∧ ∀ g t,
             snapshot t ∈ snapshot (reconcile_after_run d S)
                          :: written (list_downloads g
                                        (reconcile_after_run d S)) →
             ∃ q', check_start uid t = Accepted q'
                   ∧ status (item_at t q') = "failed_last_attempt"
                   ∧ ∀ m, let t' := activate m uid q' t in
                          active_download t' = Some q'
                          ∧ superseded (item_at t' q') t' = false).
  { intros S HaS HidS HstS.
    destruct (reconcile_retryable d S a HaS HidS) as (Hnone & q & Hq & Hstq).
    { rewrite HstS. in_trace. }
    rewrite Huid in Hq. rewrite HstS in Hstq.
    split; [done|]. exists q. split_and!; [done..|].
    intros g t Ht.
    assert (Hchk : check_start uid (reconcile_after_run d S) = Accepted q).
    { unfold check_start. by rewrite Hnone, Hq, Hstq. }
    assert (Hrec : p_active_download (snapshot t)
                   = p_active_download (snapshot (reconcile_after_run d S))
                   ∧ p_queue (snapshot t)
                     = p_queue (snapshot (reconcile_after_run d S))).
    { apply elem_of_cons in Ht as [->|Ht]; [done|].
      by apply (list_downloads_idle g). }
    destruct Hrec as [Hr1 Hr2].
    destruct (check_start_record uid _ t q Hr1 Hr2 Hchk) as (q' & Hq' & Eq').
    exists q'. split_and!; [done|by rewrite Eq'|].
    intros m t'. by destruct (activate_passes_guard m uid q' t) as (? & ? & _). }
  subst r s'.
  destruct (run cfg w d s) as [c F] eqn:E. revert E. unfold run.
  mrun ltac:(rewrite ?Hm, ?Hf, ?Hsup, ?active_download_write, ?Ha, ?Hmk, ?Hp).
  case_bool_decide;
    mrun ltac:(rewrite ?He, ?Han, ?active_download_write, ?Ha);
    destruct (fetch w) eqn:Efetch; try done;
    mrun ltac:(rewrite ?active_download_write, ?Ha);
    match goal with
    | |- context [edit_ok w ?n false] =>
        destruct (edit_ok w n false) eqn:Ee1
    end;
    mrun ltac:(rewrite ?active_download_write, ?Ha);
    try (destruct (edit_ok w N_unknown_error false) eqn:Ee2;
         mrun ltac:(rewrite ?active_download_write, ?Ha));
    intros [= <- <-]; cbn [trace session fst snd].
  all: match goal with
       | |- context [reconcile_after_run _ ?S] =>
           destruct (Hcore S) as (H1 & H2);
           [ by store_facts | by store_facts | by store_facts | ]
       end.
  all: split_and!;
    [ done | in_trace | in_trace | done | by (left + right) | done
    | done | reflexivity | done ].
Qed.

Lemma failed_fetch_is_retryable_witness :
  (run config_delete (world_fetch FetchTimeout) item_a session_ab).1
  = Return false
  ∧ active_download
      (session (run config_delete (world_fetch FetchTimeout) item_a
                    session_ab).2) = None
  ∧ ∀ t,
      snapshot t
      ∈ written (list_downloads (mkGateway true (Some 11))
                   (session (run config_delete (world_fetch FetchTimeout)
                                 item_a session_ab).2)) →
      ∃ q, check_start "id-a" t = Accepted q.
Proof.
  assert (Hreach : reaches_transfer (world_fetch FetchTimeout) "best").
  { split; [reflexivity|]. eexists _, _, _.
    split; [reflexivity|]. split; reflexivity. }
  destruct (failed_fetch_is_retryable config_delete
              (world_fetch FetchTimeout) item_a session_ab 0%nat 7 "best"
              "id-a" eq_refl eq_refl eq_refl eq_refl eq_refl Hreach
              ltac:(discriminate))
    as (_ & _ & _ & _ & _ & Hret & Hnone & _ & q & _ & _ & Hretry).
  split; [apply Hret; reflexivity|]. split; [exact Hnone|].
  intros t Ht.
  destruct (Hretry (mkGateway true (Some 11)) t) as (q' & Hq' & _).
  { by apply list_elem_of_further. }
  exists q'. exact Hq'.
Defined.

(** * A produced file above the upload limit *)

Lemma queue_without_ext uid s s' :
  queue s' = queue s →
  (∀ r, unique_id (item_at s' r) = unique_id (item_at s r)) →
  queue_without uid s' = queue_without uid s.
Proof.
  intros Hq Hid. unfold queue_without. rewrite Hq.
  apply list_filter_iff. intros r. by rewrite Hid.
Qed.

(** C6, as amended.  When the transfer completes, the produced file
    measures more than the upload limit (whatever the estimate was, also
    when there was none) and the edit announcing it goes through, the run
    returns [False] with the item marked [failed]; the reconciliation
    empties the slot and removes the item from the queue; nothing is
    delivered and no quality prompt is shown.  The local file is removed
    when the retention policy says delete, and kept otherwise. *)
Theorem oversized_file_fails_permanently cfg w d s a msg fmt p n :
  initial_message_id d = Some msg → format_string d = Some fmt →
  active_download s = Some a → unique_id (item_at s a) = unique_id d →
  reaches_transfer w fmt → produces_file w p n →
  TELEGRAM_MAX_FILE_SIZE_BYTES < n →
  edit_ok w N_actual_too_large false = true →
  let r := run cfg w d s in
  let s' := session r.2 in
  resolve_measured n = REJECT_TOO_LARGE
  ∧ r.1 = Return false
  ∧ status (item_at (session (before_finally cfg w d fmt msg s)) a) = "failed"
  ∧ active_download s' = None
  ∧ entries_with (unique_id d) s' = []
  ∧ queue s' = queue_without (unique_id d) s
  ∧ existsb is_sent (trace r.2) = false
  ∧ existsb is_prompt (trace r.2) = false
  ∧ (SHOULD_DELETE_FILE cfg = true → Removed p ∈ trace r.2)
  ∧ (SHOULD_DELETE_FILE cfg = false → Removed p ∉ trace r.2).
Proof.
  intros Hm Hf Ha Hid (Hmk & t0 & fs & fsa & Hp & Han & He)
    (Hfe & Hloc & Hsize) Hn Hedit r s'.
  pose proof (superseded_false d s a Ha Hid) as Hsup.
  assert (Hres : resolve_measured n = REJECT_TOO_LARGE).
  { unfold resolve_measured.
    by destruct (Z.ltb_spec TELEGRAM_MAX_FILE_SIZE_BYTES n); [|lia]. }
  assert (Hcore : ∀ S,
    active_download S = Some a → queue S = queue s →
    (∀ q, unique_id (item_at S q) = unique_id (item_at s q)) →
    status (item_at S a) = "failed" →
    active_download (reconcile_after_run d S) = None
    ∧ entries_with (unique_id d) (reconcile_after_run d S) = []
    ∧ queue (reconcile_after_run d S) = queue_without (unique_id d) s).
  { intros S HaS HqS HidS HstS.
    destruct (reconcile_terminal d S a HaS) as (E & Hnone & Hent & _).
    { by rewrite HidS. }
    { rewrite HstS. in_trace. }
    split_and!; [done..|]. rewrite E. cbn. by apply queue_without_ext. }
  assert (Hdec : resolve_estimate (py_or fs fsa) fmt ≠ REJECT_TOO_LARGE
                 ∧ resolve_estimate (py_or fs fsa) fmt ≠ NEEDS_SELECTION).
  { by destruct (resolve_estimate (py_or fs fsa) fmt). }
  subst r s'. unfold run, before_finally.
  mrun ltac:(rewrite ?Hm, ?Hf, ?Hsup, ?active_download_write, ?Ha, ?Hmk, ?Hp).
  case_bool_decide;
    mrun ltac:(rewrite ?He, ?Han, ?Hfe, ?Hloc, ?Hsize, ?Hres, ?Hedit,
                 ?active_download_write, ?Ha);
    destruct (SHOULD_DELETE_FILE cfg) eqn:Edel; cbn;
    (split_and!;
     [ done | done | by store_facts | apply Hcore; store_facts; try done
     | apply Hcore; store_facts; try done
     | apply Hcore; store_facts; try done
     | try done | try done
     | try done; intros _; in_trace
     | try done; intros _ ]).
  all: try (intros q; by rewrite !unique_id_write by (by intros [])).
  all: try by destruct (resolve_estimate (py_or fs fsa) fmt).
  all: not_in_trace.
Qed.

Lemma oversized_file_fails_permanently_witness :
  (run config_delete (world_ok None (2 * GB)) item_a session_ab).1
  = Return false
  ∧ entries_with (Some "id-a")
      (session (run config_delete (world_ok None (2 * GB)) item_a
                    session_ab).2) = []
  ∧ Removed "/downloads/A.mp4"
      ∈ trace (run config_delete (world_ok None (2 * GB)) item_a
                   session_ab).2.
Proof.
  assert (Hreach : reaches_transfer (world_ok None (2 * GB)) "best").
  { split; [reflexivity|]. eexists _, _, _.
    split; [reflexivity|]. split; reflexivity. }
  assert (Hfile : produces_file (world_ok None (2 * GB)) "/downloads/A.mp4"
                    (2 * GB)).
  { split; [reflexivity|]. split; reflexivity. }
  destruct (oversized_file_fails_permanently config_delete
              (world_ok None (2 * GB)) item_a session_ab 0%nat 7 "best"
              "/downloads/A.mp4" (2 * GB) eq_refl eq_refl eq_refl eq_refl
              Hreach Hfile eq_refl eq_refl)
    as (_ & Hret & _ & _ & Hent & _ & _ & _ & Hdel & _).
  split; [exact Hret|]. split; [exact Hent|]. apply Hdel. reflexivity.
Defined.

(** C6 as stated fails twice.  With the retention policy set to keep, the
    oversized file is not removed.  And when the Messaging Gateway fails
    the edit that announces the failure, the outer handler overwrites
    [failed] with [failed_last_attempt] and the item stays in the queue. *)
Lemma oversized_file_not_always_discarded :
  (produces_file (world_ok None (2 * GB)) "/downloads/A.mp4" (2 * GB)
   ∧ TELEGRAM_MAX_FILE_SIZE_BYTES < 2 * GB
   ∧ Removed "/downloads/A.mp4"
       ∉ trace (run config_keep (world_ok None (2 * GB)) item_a
                    session_ab).2)
  ∧ (produces_file world_huge_edit_fails "/downloads/A.mp4" (2 * GB)
     ∧ status <$> entries_with (Some "id-a")
                    (session (run config_delete world_huge_edit_fails item_a
                                  session_ab).2)
       = ["failed_last_attempt"]).
Proof.
  split.
  - split; [by split_and!|]. split; [reflexivity|].
    vm_compute. not_in_trace.
  - split; [by split_and!|]. vm_compute. reflexivity.
Qed.

(** * A produced file between the two limits *)

(** C4, as amended.  When the transfer completes and the produced file
    measures more than 50 MB and at most the upload limit, the second
    decision is [NEEDS_SELECTION] whatever the format selector, the
    default one or a quality the user chose: the pipeline shows the
    quality prompt again and delivers nothing.  When that edit goes
    through the run returns [False] and the item stays in the slot,
    awaiting a selection, the queue as it was; the downloaded file is
    removed under the delete policy. *)
Theorem oversized_video_prompts_again cfg w d s a msg fmt p n :
  initial_message_id d = Some msg → format_string d = Some fmt →
  active_download s = Some a → unique_id (item_at s a) = unique_id d →
  reaches_transfer w fmt → produces_file w p n →
  TELEGRAM_VIDEO_FILE_SIZE_LIMIT_BYTES < n ≤ TELEGRAM_MAX_FILE_SIZE_BYTES →
  let r := run cfg w d s in
  let s' := session r.2 in
  resolve_measured n = NEEDS_SELECTION
  ∧ Edited msg N_actual_over_50MB true ∈ trace r.2
  ∧ existsb is_sent (trace r.2) = false
  ∧ r.1 ≠ Return true
  ∧ (edit_ok w N_actual_over_50MB true = true →
       r.1 = Return false
       ∧ active_download s' = Some a
       ∧ status (item_at s' a) = AWAITING
       ∧ queue s' = queue s)
  ∧ (SHOULD_DELETE_FILE cfg = true → Removed p ∈ trace r.2).
Proof.
  intros Hm Hf Ha Hid (Hmk & t0 & fs & fsa & Hp & Han & He)
    (Hfe & Hloc & Hsize) [Hlo Hhi] r s'.
  pose proof (superseded_false d s a Ha Hid) as Hsup.
  assert (Hres : resolve_measured n = NEEDS_SELECTION).
  { unfold resolve_measured.
    destruct (Z.ltb_spec TELEGRAM_MAX_FILE_SIZE_BYTES n); [lia|].
    by destruct (Z.ltb_spec TELEGRAM_VIDEO_FILE_SIZE_LIMIT_BYTES n); [|lia]. }
  assert (Hcore : ∀ S,
    active_download S = Some a → queue S = queue s →
    unique_id (item_at S a) = unique_id d →
    status (item_at S a) = AWAITING →
    active_download (reconcile_after_run d S) = Some a
    ∧ status (item_at (reconcile_after_run d S) a) = AWAITING
    ∧ queue (reconcile_after_run d S) = queue s).
  { intros S HaS HqS HidS HstS.
    by rewrite (reconcile_awaiting d S a HaS HidS HstS). }
  subst r s'. unfold run.
  mrun ltac:(rewrite ?Hm, ?Hf, ?Hsup, ?active_download_write, ?Ha, ?Hmk, ?Hp).
  case_bool_decide;
    mrun ltac:(rewrite ?He, ?Han, ?Hfe, ?Hloc, ?Hsize, ?Hres,
                 ?active_download_write, ?Ha);
    destruct (edit_ok w N_actual_over_50MB true) eqn:Ee1;
    mrun ltac:(rewrite ?active_download_write, ?Ha);
    try (destruct (edit_ok w N_unknown_error false) eqn:Ee2;
         mrun ltac:(rewrite ?active_download_write, ?Ha));
    destruct (SHOULD_DELETE_FILE cfg) eqn:Edel; cbn;
    (split_and!;
     [ done | in_trace | done | done
     | first [done | intros _; split; [done|]; apply Hcore; by store_facts]
     | first [done | intros _; in_trace] ]).
Qed.

Lemma oversized_video_prompts_again_witness :
  (run config_delete (world_ok (Some (100 * MB)) (100 * MB)) item_a_worst
       session_ab_worst).1 = Return false
  ∧ status (item_at
              (session (run config_delete
                            (world_ok (Some (100 * MB)) (100 * MB))
                            item_a_worst session_ab_worst).2) 0%nat)
    = AWAITING.
Proof.
  assert (Hreach : reaches_transfer (world_ok (Some (100 * MB)) (100 * MB))
                     "worst").
  { split; [reflexivity|]. eexists _, _, _.
    split; [reflexivity|]. split; reflexivity. }
  assert (Hfile : produces_file (world_ok (Some (100 * MB)) (100 * MB))
                    "/downloads/A.mp4" (100 * MB)).
  { split; [reflexivity|]. split; reflexivity. }
  destruct (oversized_video_prompts_again config_delete
              (world_ok (Some (100 * MB)) (100 * MB)) item_a_worst
              session_ab_worst 0%nat 7 "worst" "/downloads/A.mp4" (100 * MB)
              eq_refl eq_refl eq_refl eq_refl Hreach Hfile
              ltac:(split; [reflexivity | vm_compute; discriminate]))
    as (_ & _ & _ & _ & Hok & _).
  destruct (Hok eq_refl) as (Hret & _ & Hst & _).
  split; [exact Hret | exact Hst].
Defined.

(** C4 as stated fails: with the format ['worst'] chosen by the user and a
    produced file of 100 MB, the second decision is not [PROCEED_ANYWAY];
    the prompt is shown again and nothing is sent. *)
Lemma chosen_quality_is_prompted_again :
  format_string item_a_worst ≠ Some BEST
  ∧ produces_file (world_ok (Some (100 * MB)) (100 * MB))
      "/downloads/A.mp4" (100 * MB)
  ∧ TELEGRAM_VIDEO_FILE_SIZE_LIMIT_BYTES < 100 * MB
    < TELEGRAM_MAX_FILE_SIZE_BYTES
  ∧ ¬ (resolve_measured (100 * MB) = PROCEED_ANYWAY
       ∨ existsb is_sent
           (trace (run config_delete (world_ok (Some (100 * MB)) (100 * MB))
                       item_a_worst session_ab_worst).2) = true
       ∨ existsb is_prompt
           (trace (run config_delete (world_ok (Some (100 * MB)) (100 * MB))
                       item_a_worst session_ab_worst).2) = false).
Proof.
  split; [discriminate|]. split; [by split_and!|]. split; [done|].
  vm_compute. intros [H|[H|H]]; discriminate H.
Qed.

(** * A failed delivery *)

(** What a run does when delivery fails.  The two f-strings that report
    the failure read the local [e], which is unbound there: the read
    raises, the outer [except Exception] takes over and overwrites
    [failed_sending] with [failed_last_attempt], and the reconciliation
    keeps the item in the queue. *)
Lemma delivery_failure_run cfg w d s a msg fmt p n :
  initial_message_id d = Some msg → format_string d = Some fmt →
  active_download s = Some a → unique_id (item_at s a) = unique_id d →
  reaches_transfer w fmt → produces_file w p n →
  n ≤ TELEGRAM_VIDEO_FILE_SIZE_LIMIT_BYTES →
  edit_ok w N_sending false = true → user_send_ok w = false →
  let r := run cfg w d s in
  let s' := session r.2 in
  Edited msg N_unknown_error false ∈ trace r.2
  ∧ r.1 ≠ Return true
  ∧ status (item_at (session (before_finally cfg w d fmt msg s)) a)
    = "failed_last_attempt"
  ∧ active_download s' = None
  ∧ ∃ q, find_in_queue (unique_id d) s' = Some q
         ∧ status (item_at s' q) = "failed_last_attempt".
Proof.
  intros Hm Hf Ha Hid (Hmk & t0 & fs & fsa & Hp & Han & He)
    (Hfe & Hloc & Hsize) Hn Hedit Hsend r s'.
  pose proof (superseded_false d s a Ha Hid) as Hsup.
  assert (Hres : resolve_measured n = PROCEED_AS_VIDEO).
  { unfold resolve_measured.
    destruct (Z.ltb_spec TELEGRAM_MAX_FILE_SIZE_BYTES n).
    - unfold TELEGRAM_MAX_FILE_SIZE_BYTES,
        TELEGRAM_VIDEO_FILE_SIZE_LIMIT_BYTES in *. lia.
    - by destruct (Z.ltb_spec TELEGRAM_VIDEO_FILE_SIZE_LIMIT_BYTES n);
        [lia|]. }
  assert (Hcore : ∀ S,
    active_download S = Some a → unique_id (item_at S a) = unique_id d →
    status (item_at S a) = "failed_last_attempt" →
    active_download (reconcile_after_run d S) = None
    ∧ ∃ q, find_in_queue (unique_id d) (reconcile_after_run d S) = Some q
         ∧ status (item_at (reconcile_after_run d S) q)
           = "failed_last_attempt").
  { intros S HaS HidS HstS.
    destruct (reconcile_retryable d S a HaS HidS) as (Hnone & q & Hq & Hstq).
    { rewrite HstS. in_trace. }
    rewrite HstS in Hstq. split; [done|]. by exists q. }
  assert (Hsup' : ∀ S, active_download S = Some a →
            unique_id (item_at S a) = unique_id d → superseded d S = false).
  { intros S. apply superseded_false. }
  subst r s'. unfold run, before_finally.
  mrun ltac:(rewrite ?Hm, ?Hf, ?Hsup, ?active_download_write, ?Ha, ?Hmk, ?Hp).
  case_bool_decide;
    mrun ltac:(rewrite ?He, ?Han, ?Hfe, ?Hloc, ?Hsize, ?Hres, ?Hedit,
                 ?active_download_write, ?Ha);
    destruct (thumbnail_ok w) eqn:Eth;
    mrun ltac:(rewrite ?Hedit, ?active_download_write, ?Ha);
    rewrite Hsup' by (by store_facts);
    mrun ltac:(rewrite ?Hsend, ?active_download_write, ?Ha);
    destruct (edit_ok w N_unknown_error false) eqn:Ee2;
    mrun ltac:(rewrite ?active_download_write, ?Ha);
    destruct (SHOULD_DELETE_FILE cfg) eqn:Edel; cbn;
    (split_and!;
     [ in_trace | done | by store_facts
     | apply Hcore; by store_facts | apply Hcore; by store_facts ]).
Qed.

(** C3.  A run whose delivery to the user fails, at a concrete input:
    [item_a] is the active download and the first queue entry, the
    probe, the transfer (a file of 30 MB) and every edit succeed, and
    the send to the user raises.  The delivery is attempted and line 641
    sets [failed_sending]; the f-string of line 647 then reads the local
    [e], which is bound only inside [except ... as e] clauses, so the
    read raises; the handler of line 650 does the same at line 654; the
    outer [except Exception] overwrites the status with
    [failed_last_attempt] and shows its own text.  The run returns
    [False] and saves a session in which the slot is empty and the item
    is queued with status [failed_last_attempt]: no entry has status
    [failed_sending], the list offers the start and the remove button
    for the item, and the start button accepts it. *)
Theorem failed_delivery_ends_failed_last_attempt :
  let r := run config_delete world_send_fails item_a session_ab in
  let s' := session r.2 in
  (user_send_ok world_send_fails = false
   ∧ reaches_transfer world_send_fails "best"
   ∧ produces_file world_send_fails "/downloads/A.mp4" (30 * MB))
  ∧ filter (λ e, is_sent e = true) (trace r.2)
    = [Sent ToUser "/downloads/A.mp4" true (Some "/downloads/A.mp4.jpg")]
  ∧ Edited 7 N_unknown_error false ∈ trace r.2
  ∧ r.1 = Return false
  ∧ active_download s' = None
  ∧ status <$> (item_at s' <$> queue s') = ["failed_last_attempt"; "pending"]
  ∧ status <$> entries_with (Some "id-a") s' = ["failed_last_attempt"]
  ∧ Forall (λ it, status it ≠ "failed_sending") (p_queue (snapshot s'))
  ∧ on_disk (trace r.2) = Some (snapshot s')
  ∧ buttons 0 (item_at s' 0%nat)
    = Some [start_download "id-a"; remove_item "id-a"]
  ∧ check_start "id-a" s' = Accepted 0%nat.
Proof.
  cbv zeta. split_and!.
  - reflexivity.
  - split; [reflexivity|]. eexists _, _, _.
    split; [reflexivity|]. split; reflexivity.
  - by split_and!.
  - vm_compute. reflexivity.
  - vm_compute. in_trace.
  - vm_compute. reflexivity.
  - vm_compute. reflexivity.
  - vm_compute. reflexivity.
  - vm_compute. reflexivity.
  - vm_compute. repeat (constructor; [discriminate|]). constructor.
  - vm_compute. reflexivity.
  - vm_compute. reflexivity.
  - vm_compute. reflexivity.
Qed.

(** * Loading a session record *)

Lemma lookup_setdefault k v (d : gmap string json) k' :
  setdefault k v d !! k'
  = match d !! k' with
    | Some x => Some x
    | None => if decide (k = k') then Some v else None
    end.
Proof.
  unfold setdefault. destruct (d !! k) as [x|] eqn:E.
  - destruct (d !! k') eqn:E'; [done|]. case_decide; [congruence|done].
  - rewrite lookup_insert. case_decide; subst; [by rewrite E|].
    by destruct (d !! k').
Qed.

(** C9.  [load_user_session] always returns and never lets an exception
    escape.  On a stored JSON object it returns the object with every
    missing session field set to its default ([active_download],
    [last_user_message_id], [selection_buttons_message_id] to [None],
    [queue] to the empty list): all four fields are present, every stored
    field keeps its value, and nothing else is added.  On a missing,
    unreadable or unparsable file, or a JSON value that is not an object,
    it returns [None], and the callers then install the empty session. *)
Theorem load_defaults_missing_fields (f : File) :
  (∃ r, load_user_session f = Returns r)
  ∧ (∀ d, f = Holds (JObject d) →
       ∃ d', load_user_session f = Returns (Some d')
             ∧ (∀ k, k ∈ SESSION_KEYS → is_Some (d' !! k))
             ∧ (∀ k v, d !! k = Some v → d' !! k = Some v)
             ∧ (∀ k, d !! k = None → d' !! k = fresh_record !! k))
  ∧ ((f = NoFile ∨ f = Unreadable ∨ f = Garbled
      ∨ ∃ v, f = Holds v ∧ ∀ d, v ≠ JObject d) →
       load_user_session f = Returns None)
  ∧ session_or_fresh (Returns None) = Some fresh_record
  ∧ fresh_record !! "active_download" = Some JNull
  ∧ fresh_record !! "queue" = Some (JArray [])
  ∧ fresh_record !! "last_user_message_id" = Some JNull
  ∧ fresh_record !! "selection_buttons_message_id" = Some JNull
  ∧ (∀ k, k ∉ SESSION_KEYS → fresh_record !! k = None).
Proof.
  assert (Hfresh : ∀ k, fresh_record !! k
            = if decide ("active_download" = k) then Some JNull
              else if decide ("queue" = k) then Some (JArray [])
              else if decide ("last_user_message_id" = k) then Some JNull
              else if decide ("selection_buttons_message_id" = k)
                   then Some JNull
              else None).
  { intros k. unfold fresh_record.
    repeat (rewrite lookup_insert; case_decide; [done|]).
    rewrite lookup_singleton. by case_decide. }
  split_and!; try done.
  - destruct f as [| | |[]]; by eexists.
  - intros d ->. eexists. split; [reflexivity|]. split_and!.
    + intros k Hk. rewrite !lookup_setdefault.
      unfold SESSION_KEYS in Hk. rewrite !elem_of_cons, elem_of_nil in Hk.
      destruct (d !! k); [done|].
      destruct Hk as [->|[->|[->|[->|[]]]]];
        repeat (case_decide; try done).
    + intros k v Hk. rewrite !lookup_setdefault. by rewrite Hk.
    + intros k Hk. rewrite !lookup_setdefault, Hk, Hfresh.
      repeat (case_decide; try done).
  - intros [->|[->|[->|(v & -> & Hv)]]]; try done.
    destruct v; try done. by destruct (Hv m).
  - intros k Hk. rewrite Hfresh.
    unfold SESSION_KEYS in Hk. rewrite !elem_of_cons, elem_of_nil in Hk.
    repeat (case_decide; [subst; tauto|]). done.
Qed.

Lemma load_defaults_missing_fields_witness :
  ∃ d', load_user_session
          (Holds (JObject {[ "queue" := JArray [JString "x"];
                             "note" := JBool true ]}))
        = Returns (Some d')
        ∧ d' !! "queue" = Some (JArray [JString "x"])
        ∧ d' !! "active_download" = Some JNull
        ∧ d' !! "note" = Some (JBool true)
        ∧ d' !! "other" = None.
Proof.
  destruct (load_defaults_missing_fields
              (Holds (JObject {[ "queue" := JArray [JString "x"];
                                 "note" := JBool true ]})))
    as (_ & H & _).
  destruct (H _ eq_refl) as (d' & Hload & _ & Hkeep & Hmiss).
  exists d'. split; [exact Hload|]. split_and!.
  - apply Hkeep. reflexivity.
  - rewrite Hmiss by reflexivity. reflexivity.
  - apply Hkeep. reflexivity.
  - rewrite Hmiss by reflexivity. reflexivity.
Defined.

(** * Applying the title probes *)

#[local] Arguments index {A} l i /.

Lemma apply_fetched_results_spec results :
  ∀ i indices urls s,
    (i + length results ≤ length indices)%nat →
    (i + length results ≤ length urls)%nat →
    ∃ s', apply_fetched_results i results indices urls s = Some s'
          ∧ queue s' = queue s
          ∧ active_download s' = active_download s
          ∧ (∀ r, url (item_at s' r) = url (item_at s r)
                  ∧ unique_id (item_at s' r) = unique_id (item_at s r))
          ∧ (∀ r, item_at s' r ≠ item_at s r →
               ∃ j idx u, indices !! j = Some idx ∧ urls !! j = Some u
                          ∧ queue s !! idx = Some r
                          ∧ url (item_at s r) = u).
Proof.
  induction results as [|[title error_type] rest IH];
    intros i indices urls s Hi Hu.
  { exists s. by split_and!. }
  simpl in Hi, Hu.
  destruct (lookup_lt_is_Some_2 indices i ltac:(lia)) as [idx Hidx].
  destruct (lookup_lt_is_Some_2 urls i ltac:(lia)) as [u Hurl].
  cbn. rewrite Hidx. cbn.
  assert (Hskip :
    ∃ s', apply_fetched_results (S i) rest indices urls s = Some s'
          ∧ queue s' = queue s
          ∧ active_download s' = active_download s
          ∧ (∀ r, url (item_at s' r) = url (item_at s r)
                  ∧ unique_id (item_at s' r) = unique_id (item_at s r))
          ∧ (∀ r, item_at s' r ≠ item_at s r →
               ∃ j idx u, indices !! j = Some idx ∧ urls !! j = Some u
                          ∧ queue s !! idx = Some r
                          ∧ url (item_at s r) = u)).
  { apply IH; lia. }
  case_bool_decide as Hlen; [|done].
  destruct (lookup_lt_is_Some_2 (queue s) idx Hlen) as [r Hr].
  rewrite Hr. cbn. rewrite Hurl. cbn.
  case_bool_decide as Hmatch; [|done].
  set (s2 := match error_type with
             | Some _ => write (set_status "parse_failed") r
                               (write (set_title title) r s)
             | None => write (set_title title) r s
             end).
  assert (Hs2 : queue s2 = queue s ∧ active_download s2 = active_download s
                ∧ (∀ q, url (item_at s2 q) = url (item_at s q)
                        ∧ unique_id (item_at s2 q) = unique_id (item_at s q))
                ∧ (∀ q, q ≠ r → item_at s2 q = item_at s q)).
  { subst s2. destruct error_type; split_and!; try done.
    - intros q. rewrite !item_at_write.
      repeat (case_decide; subst; try done).
    - intros q Hq. by rewrite !item_at_write_ne.
    - intros q. rewrite !item_at_write.
      repeat (case_decide; subst; try done).
    - intros q Hq. by rewrite !item_at_write_ne. }
  destruct Hs2 as (Hq2 & Ha2 & Hid2 & Hne2).
  destruct (IH (S i) indices urls s2 ltac:(lia) ltac:(lia))
    as (s' & Hrun & Hq' & Ha' & Hid' & Hch').
  exists s'. split_and!; [done|congruence|congruence| |].
  - intros q. destruct (Hid' q) as [-> ->]. apply Hid2.
  - intros q Hq.
    destruct (decide (item_at s' q = item_at s2 q)) as [E|N].
    + destruct (decide (q = r)) as [->|Hqr].
      * by exists i, idx, u.
      * rewrite E, Hne2 in Hq by done. done.
    + destruct (Hch' q N) as (j & idx' & u' & Hj & Hu' & Hqq & Hurl').
      exists j, idx', u'. split_and!; try done; [congruence|].
      by destruct (Hid2 q) as [<- _].
Qed.

Lemma apply_fetched_results_dropped results :
  ∀ i indices urls s,
    (∀ j idx u r, indices !! j = Some idx → urls !! j = Some u →
                  queue s !! idx = Some r → url (item_at s r) ≠ u) →
    (i + length results ≤ length indices)%nat →
    (i + length results ≤ length urls)%nat →
    apply_fetched_results i results indices urls s = Some s.
Proof.
  induction results as [|[title error_type] rest IH];
    intros i indices urls s Hno Hi Hu; [done|].
  simpl in Hi, Hu.
  destruct (lookup_lt_is_Some_2 indices i ltac:(lia)) as [idx Hidx].
  destruct (lookup_lt_is_Some_2 urls i ltac:(lia)) as [u Hurl].
  cbn. rewrite Hidx. cbn.
  case_bool_decide as Hlen; [|apply IH; [done|lia..]].
  destruct (lookup_lt_is_Some_2 (queue s) idx Hlen) as [r Hr].
  rewrite Hr. cbn. rewrite Hurl. cbn.
  case_bool_decide as Hmatch; [|apply IH; [done|lia..]].
  by destruct (Hno i idx u r).
Qed.

Lemma results_for_cons indices urls s r j result rest :
  results_for indices urls s r j (result :: rest)
  = ((if probe_for indices urls s r j then [result] else [])
     ++ results_for indices urls s r (S j) rest)%list.
Proof. reflexivity. Qed.

#[local] Arguments results_for : simpl never.
#[local] Arguments probe_for : simpl never.
#[local] Arguments retitled : simpl never.

Lemma probe_for_ext indices urls s s' r j :
  queue s' = queue s → (∀ q, url (item_at s' q) = url (item_at s q)) →
  probe_for indices urls s' r j = probe_for indices urls s r j.
Proof. intros Hq Hu. unfold probe_for. by rewrite Hq, Hu. Qed.

Lemma results_for_ext indices urls s s' r results :
  queue s' = queue s → (∀ q, url (item_at s' q) = url (item_at s q)) →
  ∀ j, results_for indices urls s' r j results
       = results_for indices urls s r j results.
Proof.
  intros Hq Hu. induction results as [|result rest IH]; intros j; [done|].
  by rewrite !results_for_cons, IH, (probe_for_ext _ _ s s').
Qed.

(** Every dict ends up with the results of the probes that are for it
    written into it, in the order of the probes, and with nothing else. *)
Lemma apply_fetched_results_exact results :
  ∀ i indices urls s,
    (i + length results ≤ length indices)%nat →
    (i + length results ≤ length urls)%nat →
    ∃ s', apply_fetched_results i results indices urls s = Some s'
          ∧ ∀ r, item_at s' r
                 = foldl (λ it result, retitled result it) (item_at s r)
                         (results_for indices urls s r i results).
Proof.
  induction results as [|[title error_type] rest IH];
    intros i indices urls s Hi Hu.
  { by exists s. }
  simpl in Hi, Hu.
  destruct (lookup_lt_is_Some_2 indices i ltac:(lia)) as [idx Hidx].
  destruct (lookup_lt_is_Some_2 urls i ltac:(lia)) as [u Hurl].
  setoid_rewrite results_for_cons.
  cbn. rewrite Hidx. cbn.
  assert (Hmiss : (∀ r, probe_for indices urls s r i = false) →
    ∃ s', apply_fetched_results (S i) rest indices urls s = Some s'
          ∧ ∀ r, item_at s' r
                 = foldl (λ it result, retitled result it) (item_at s r)
                     ((if probe_for indices urls s r i
                       then [(title, error_type)] else [])
                      ++ results_for indices urls s r (S i) rest)).
  { intros Hno. destruct (IH (S i) indices urls s ltac:(lia) ltac:(lia))
      as (s' & Hrun & Hit).
    exists s'. split; [done|]. intros r. by rewrite Hno, Hit. }
  case_bool_decide as Hlen.
  2:{ apply Hmiss. intros r. unfold probe_for. rewrite Hidx, Hurl.
      by rewrite lookup_ge_None_2 by lia. }
  destruct (lookup_lt_is_Some_2 (queue s) idx Hlen) as [r0 Hr0].
  rewrite Hr0. cbn. rewrite Hurl. cbn.
  case_bool_decide as Hmatch.
  2:{ apply Hmiss. intros r. unfold probe_for. rewrite Hidx, Hurl, Hr0.
      apply bool_decide_eq_false_2. by intros [<- ?]. }
  set (s2 := match error_type with
             | Some _ => write (set_status "parse_failed") r0
                               (write (set_title title) r0 s)
             | None => write (set_title title) r0 s
             end).
  assert (Hs2 : queue s2 = queue s
                ∧ (∀ q, url (item_at s2 q) = url (item_at s q))
                ∧ item_at s2 r0 = retitled (title, error_type) (item_at s r0)
                ∧ (∀ q, q ≠ r0 → item_at s2 q = item_at s q)).
  { subst s2. unfold retitled. destruct error_type; cbn [fst snd].
    - split_and!; [done| | |].
      + intros q. rewrite !item_at_write.
        repeat (case_decide; subst; try done).
      + by rewrite !item_at_write_eq.
      + intros q Hq. by rewrite !item_at_write_ne.
    - split_and!; [done| | |].
      + intros q. rewrite !item_at_write.
        repeat (case_decide; subst; try done).
      + by rewrite !item_at_write_eq.
      + intros q Hq. by rewrite !item_at_write_ne. }
  destruct Hs2 as (Hq2 & Hu2 & Hr2 & Hne2).
  destruct (IH (S i) indices urls s2 ltac:(lia) ltac:(lia))
    as (s' & Hrun & Hit).
  exists s'. split; [done|]. intros r.
  rewrite Hit, (results_for_ext _ _ s s2) by done.
  unfold probe_for. rewrite Hidx, Hurl, Hr0.
  destruct (decide (r = r0)) as [->|Hne].
  - rewrite bool_decide_eq_true_2 by done. cbn. by rewrite Hr2.
  - rewrite bool_decide_eq_false_2 by (by intros [-> ?]).
    cbn. by rewrite Hne2.
Qed.


Lemma results_for_none indices urls s r results :
  ∀ j, (∀ k, (j ≤ k < j + length results)%nat →
             probe_for indices urls s r k = false) →
       results_for indices urls s r j results = [].
Proof.
  induction results as [|result rest IH]; intros j Hno; [done|].
  rewrite results_for_cons, Hno by (simpl; lia). simpl. apply IH.
  intros k Hk. apply Hno. simpl. lia.
Qed.

Lemma results_for_one indices urls s r results :
  ∀ j k result,
    results !! k = Some result →
    probe_for indices urls s r (j + k) = true →
    (∀ k', k' ≠ k → (k' < length results)%nat →
           probe_for indices urls s r (j + k') = false) →
    results_for indices urls s r j results = [result].
Proof.
  induction results as [|first rest IH]; intros j k result Hk Hyes Hno;
    [done|].
  rewrite results_for_cons. destruct k as [|k].
  - injection Hk as ->. rewrite Nat.add_0_r in Hyes. rewrite Hyes.
    rewrite results_for_none; [done|]. intros k' Hk'.
    replace k' with (j + (k' - j))%nat by lia. apply Hno; simpl; lia.
  - specialize (Hno 0%nat ltac:(done) ltac:(simpl; lia)) as H0.
    rewrite Nat.add_0_r in H0. rewrite H0. simpl.
    apply (IH (S j) k); [done| |].
    + by replace (S j + k)%nat with (j + S k)%nat by lia.
    + intros k' Hne Hlt.
      replace (S j + k')%nat with (j + S k')%nat by lia.
      apply Hno; simpl; lia.
Qed.

(** C10.  The results of the title probes are applied without any
    subscript out of range, whatever has happened to the queue while the
    probes ran.  The queue and the active slot are not changed and no
    item changes its URL or id.  A result is written into a dict only
    when the dict sits at the index recorded for that very probe and
    holds the URL that probe was for: every dict ends up with the
    results of exactly those probes written into it, in order, each
    setting the title and, on a probe error, the status [parse_failed].
    So a dict no probe is for is left as it is, a dict one probe is for
    gets that probe's result and no other, and when no recorded index
    holds its URL any more (the entry was removed, the queue was
    cleared) the session is left as it is. *)
Theorem stale_title_results_are_dropped results indices urls s :
  length indices = length results → length urls = length results →
  (∃ s', apply_fetched_results 0 results indices urls s = Some s'
         ∧ queue s' = queue s
         ∧ active_download s' = active_download s
         ∧ (∀ r, url (item_at s' r) = url (item_at s r)
                 ∧ unique_id (item_at s' r) = unique_id (item_at s r))
         ∧ (∀ r, item_at s' r ≠ item_at s r →
              ∃ j idx u, indices !! j = Some idx ∧ urls !! j = Some u
                         ∧ queue s !! idx = Some r
                         ∧ url (item_at s r) = u)
         ∧ (∀ r, item_at s' r
                 = foldl (λ it result, retitled result it) (item_at s r)
                         (results_for indices urls s r 0 results))
         ∧ (∀ r, (∀ j, (j < length results)%nat →
                       probe_for indices urls s r j = false) →
                 item_at s' r = item_at s r)
         ∧ (∀ r j result,
              results !! j = Some result →
              probe_for indices urls s r j = true →
              (∀ j', j' ≠ j → (j' < length results)%nat →
                     probe_for indices urls s r j' = false) →
              item_at s' r = retitled result (item_at s r)))
  ∧ ((∀ j idx u r, indices !! j = Some idx → urls !! j = Some u →
                   queue s !! idx = Some r → url (item_at s r) ≠ u) →
     apply_fetched_results 0 results indices urls s = Some s)
  ∧ (queue s = [] → apply_fetched_results 0 results indices urls s = Some s)
  ∧ (∀ title error_type idx u,
       apply_fetched_results 0 [(title, error_type)] [idx] [u] s
       = Some match queue s !! idx with
              | Some r =>
                  if bool_decide (url (item_at s r) = u) then
                    match error_type with
                    | Some _ => write (set_status "parse_failed") r
                                      (write (set_title title) r s)
                    | None => write (set_title title) r s
                    end
                  else s
              | None => s
              end).
Proof.
  intros Hi Hu. split_and!.
  - destruct (apply_fetched_results_spec results 0 indices urls s
                ltac:(lia) ltac:(lia)) as (s' & Hrun & Hq & Ha & Hid & Hch).
    destruct (apply_fetched_results_exact results 0 indices urls s
                ltac:(lia) ltac:(lia)) as (s'' & Hrun' & Hexact).
    assert (s'' = s') as -> by congruence.
    exists s'. split_and!; [done..| |].
    + intros r Hno. rewrite Hexact, results_for_none; [done|].
      intros k Hk. apply Hno. lia.
    + intros r j result Hj Hyes Hno.
      by rewrite Hexact, (results_for_one _ _ _ _ _ 0 j result).
  - intros Hno. apply apply_fetched_results_dropped; [done|lia..].
  - intros Hempty. apply apply_fetched_results_dropped; [|lia..].
    intros j idx u r _ _ Hr. by rewrite Hempty in Hr.
  - intros title error_type idx u. cbn.
    case_bool_decide as Hlen.
    + destruct (lookup_lt_is_Some_2 (queue s) idx Hlen) as [r Hr].
      rewrite Hr. cbn. by case_bool_decide.
    + by rewrite lookup_ge_None_2 by lia.
Qed.

(** Two new items at indices 1 and 2; by the time the probes answer the
    first has been removed, so the second sits at index 1.  Neither
    result is written: the entry now at index 1 does not hold the first
    probe's URL, and index 2 is past the end. *)
Lemma stale_title_results_are_dropped_witness :
  apply_fetched_results 0 [("B2", None); ("C2", Some "timeout")]
    [1%nat; 2%nat] ["https://v.example/b"; "https://v.example/c"]
    (mkSession {[0%nat := item_a;
                 2%nat := mkItem "https://v.example/c" "[解析中]" "pending"
                                 (Some "id-c") None None]}
               None [0%nat; 2%nat] None None)
  = Some (mkSession {[0%nat := item_a;
                      2%nat := mkItem "https://v.example/c" "[解析中]"
                                      "pending" (Some "id-c") None None]}
                    None [0%nat; 2%nat] None None).
Proof.
  destruct (stale_title_results_are_dropped
              [("B2", None); ("C2", Some "timeout")] [1%nat; 2%nat]
              ["https://v.example/b"; "https://v.example/c"]
              (mkSession {[0%nat := item_a;
                           2%nat := mkItem "https://v.example/c" "[解析中]"
                                           "pending" (Some "id-c") None
                                           None]}
                         None [0%nat; 2%nat] None None)
              eq_refl eq_refl) as (_ & Hdrop & _).
  apply Hdrop. intros j idx u r Hj Hu Hr.
  destruct j as [|[|j]]; [| |discriminate Hj].
  - injection Hj as <-. injection Hu as <-. injection Hr as <-. discriminate.
  - injection Hj as <-. discriminate Hr.
Defined.

(** * Enqueueing *)

Section EnqueueFacts.

Lemma fresh_address_new s : fresh (addresses s) ∉ addresses s.
Proof. apply is_fresh. Qed.

Lemma item_at_append_new it s r :
  r ∈ addresses s → item_at (append_new it s) r = item_at s r.
Proof.
  intros Hr. unfold item_at, append_new; simpl.
  apply lookup_total_insert_ne. intros E. rewrite <- E in Hr.
  by apply fresh_address_new in Hr.
Qed.

Lemma item_at_append_new_fresh it s :
  item_at (append_new it s) (fresh (addresses s)) = it.
Proof. unfold item_at, append_new; simpl. apply lookup_total_insert_eq. Qed.









End EnqueueFacts.

Section EnqueueTheorem.
Context (uuid4 : nat → string) (reply_ok : nat → bool).







End EnqueueTheorem.




(** * What every run of the pipeline does *)

Section RunLast.
Context (cfg : Config) (w : World) (d : Item).

Lemma finally_block_frame f :
  last (trace (finally_block cfg w d f).2)
  = Some (Saved (snapshot (session (finally_block cfg w d f).2))).
Proof.
  cbn. destruct (file_path f); simpl;
    repeat (case_bool_decide || case_match || simpl); simplify_eq/=;
    by rewrite last_snoc.
Qed.

Lemma try_finally_frame {A} (m : M A) f :
  (try_finally m (finally_block cfg w d) f).2
  = (finally_block cfg w d (m f).2).2.
Proof.
  unfold try_finally. destruct (m f) as [c f']. cbn -[finally_block].
  destruct (finally_block_spec cfg w d f') as (H1 & _).
  destruct (finally_block cfg w d f') as [[[]|b|e] f''];
    cbn -[finally_block] in *; done.
Qed.

End RunLast.

(** X1.  A run whose item carries the status message and the format, on
    a session with an occupied slot, ends with a save, and the record it
    saves last is the session as the run leaves it: whatever happened in
    between, what is on disk afterwards is what is in memory. *)
Theorem run_ends_saved cfg w d s msg fmt a :
  initial_message_id d = Some msg → format_string d = Some fmt →
  active_download s = Some a →
  last (trace (run cfg w d s).2)
  = Some (Saved (snapshot (session (run cfg w d s).2))).
Proof.
  intros Hm Hf Ha. unfold run, download_and_send_video.
  rewrite Hm, Hf.
  destruct (superseded d s) eqn:Hsup.
  - by mrun ltac:(rewrite ?Hsup).
  - repeat (progress (cbn -[attempt finally_block try_finally];
                      rewrite ?Hsup, ?Ha)).
    rewrite try_finally_frame. apply finally_block_frame.
Qed.

Lemma run_ends_saved_witness :
  last (trace (run config_delete (world_fetch FetchTimeout) item_a
                   session_ab).2)
  = Some (Saved (snapshot
       (session (run config_delete (world_fetch FetchTimeout) item_a
                     session_ab).2))).
Proof.
  apply (run_ends_saved config_delete (world_fetch FetchTimeout) item_a
           session_ab 7 "best" 0%nat); reflexivity.
Defined.

(** * What a run leaves alone *)

Section Spares.

Lemma queue_without_twice uid s s' :
  queue s' = queue_without uid s →
  (∀ r, unique_id (item_at s' r) = unique_id (item_at s r)) →
  queue_without uid s' = queue_without uid s.
Proof.
  intros Hq Hid. unfold queue_without in *. rewrite Hq, list_filter_filter.
  apply list_filter_iff. intros r. rewrite Hid. tauto.
Qed.

Lemma queue_without_fold uid a s :
  unique_id (item_at s a) = uid →
  queue_without uid (fold_into_queue uid a s) = queue_without uid s.
Proof.
  intros Ha. unfold fold_into_queue.
  destruct (find_in_queue uid s) as [r|] eqn:E.
  - apply queue_without_ext; [done|]. intros q. by apply unique_id_write.
  - unfold queue_without. cbn. rewrite filter_app, filter_cons.
    rewrite decide_False by (by intros H; apply H).
    rewrite filter_nil. by rewrite app_nil_r.
Qed.

Lemma fold_into_queue_others uid a s r :
  unique_id (item_at s r) ≠ uid →
  item_at (fold_into_queue uid a s) r = item_at s r.
Proof.
  intros Hr. unfold fold_into_queue.
  destruct (find_in_queue uid s) as [q|] eqn:E; [|done].
  apply find_in_queue_Some in E as [_ Hq].
  apply item_at_write_ne. congruence.
Qed.

Lemma fold_into_queue_urls uid a s r :
  url (item_at (fold_into_queue uid a s) r) = url (item_at s r).
Proof.
  unfold fold_into_queue. destruct (find_in_queue uid s) as [q|]; [|done].
  rewrite item_at_write. by case_decide; subst.
Qed.

End Spares.

(** X2.  Whatever the environment answers, a run changes neither the URL
    nor the id of any stored item, leaves every item that carries another
    id than the one it was called for exactly as it was, keeps the queue
    entries of other ids in their order, and leaves the slot as it was or
    empty. *)
Theorem run_spares_other_items cfg w d s :
  let s' := session (run cfg w d s).2 in
  (∀ r, url (item_at s' r) = url (item_at s r)
        ∧ unique_id (item_at s' r) = unique_id (item_at s r))
  ∧ (∀ r, unique_id (item_at s r) ≠ unique_id d →
          item_at s' r = item_at s r)
  ∧ queue_without (unique_id d) s' = queue_without (unique_id d) s
  ∧ (active_download s' = active_download s ∨ active_download s' = None).
Proof.
  intros s'.
  destruct (initial_message_id d) as [msg|] eqn:Hm;
    [|subst s'; unfold run, download_and_send_video; rewrite Hm;
      cbn; by split_and!; auto].
  destruct (format_string d) as [fmt|] eqn:Hf;
    [|subst s'; unfold run, download_and_send_video; rewrite Hm, Hf;
      cbn; by split_and!; auto].
  destruct (active_download s) as [a|] eqn:Ha.
  2:{ subst s'. rewrite (run_without_active_raises cfg w d s msg fmt Hm Hf Ha).
      cbn. rewrite Ha. by split_and!; auto. }
  destruct (decide (unique_id (item_at s a) = unique_id d)) as [Hid|Hid].
  2:{ subst s'. pose proof (superseded_true d s a Ha Hid) as Hsup.
      unfold run, download_and_send_video. rewrite Hm, Hf.
      mrun ltac:(rewrite ?Hsup). rewrite Ha.
      split_and!; [done|done| |by left].
      by apply queue_without_twice. }
  destruct (run_passes_guard cfg w d s a msg fmt Hm Hf Ha Hid) as [Hrun Hret].
  fold s' in Hrun.
  set (s1 := session (before_finally cfg w d fmt msg s)) in *.
  destruct Hret as (Ha1 & Hq1 & Hr1). rewrite Ha in Ha1.
  assert (Hid1 : unique_id (item_at s1 a) = unique_id d).
  { destruct (Hr1 a) as [-> _]. done. }
  assert (Hoth : ∀ r, unique_id (item_at s r) ≠ unique_id d →
                      item_at s1 r = item_at s r).
  { intros r Hr. apply Hr1. congruence. }
  assert (Hqw : queue_without (unique_id d) s1 = queue_without (unique_id d) s).
  { apply queue_without_ext; [done|]. intros r. apply Hr1. }
  destruct (reconcile_after_run_cases d s1 a Ha1 Hid1)
    as [[_ E]|[[_ E]|[[_ E]|(_ & _ & _ & E)]]];
    rewrite E in Hrun; rewrite Hrun; cbn.
  - split_and!; [|done|done|by left; rewrite Ha1].
    intros r. destruct (Hr1 r) as (? & ? & _). done.
  - split_and!; [| | |by right].
    + intros r. destruct (Hr1 r) as (? & ? & _). done.
    + done.
    + rewrite <- Hqw. by apply queue_without_twice.
  - split_and!; [| | |by right].
    + intros r. rewrite item_at_set_active_download.
      rewrite fold_into_queue_urls, fold_into_queue_ids.
      destruct (Hr1 r) as (? & ? & _). done.
    + intros r Hr. rewrite item_at_set_active_download.
      rewrite fold_into_queue_others; [by apply Hoth|].
      destruct (Hr1 r) as (-> & _). done.
    + rewrite <- Hqw. rewrite <- (queue_without_fold _ a s1 Hid1).
      apply queue_without_ext; [done|]. intros r.
      by rewrite item_at_set_active_download.
  - split_and!; [|done|done|by right].
    intros r. destruct (Hr1 r) as (? & ? & _). done.
Qed.

(** * Deliveries *)

Section Leads.

Lemma leads_bind {A B} (P R Q : Frame → Prop) (m : M A) (k : A → M B) :
  leads P R m → (∀ f, R f → Q f) → (∀ a, leads R Q (k a)) →
  leads P Q (m ≫= k).
Proof.
  intros Hm HRQ Hk f Hf. specialize (Hm f Hf). cbn.
  destruct (m f) as [[a|b|e] f']; simpl in *; auto. by apply Hk.
Qed.

Lemma leads_try_except {A} (P R Q : Frame → Prop) (m : M A) h :
  leads P R m → (∀ f, R f → Q f) →
  (∀ e k, h e = Some k → leads R Q k) → leads P Q (try_except m h).
Proof.
  intros Hm HRQ Hh f Hf. specialize (Hm f Hf). cbn.
  destruct (m f) as [[a|b|e] f']; simpl in *; auto.
  destruct (h e) as [k|] eqn:E; simpl; auto. by eapply Hh.
Qed.

Lemma leads_try_finally {A} (P R Q : Frame → Prop) (m : M A) fin :
  leads P R m → leads R Q fin → leads P Q (try_finally m fin).
Proof.
  intros Hm Hfin f Hf. specialize (Hm f Hf). cbn.
  destruct (m f) as [c f']; simpl in *. specialize (Hfin f' Hm).
  by destruct (fin f') as [[[]|b|e] f''].
Qed.

End Leads.

Section Deliveries.
Context (cfg : Config) (w : World) (d : Item).

Ltac step :=
  first
    [ progress simplify_eq/=
    | case_match
    | case_bool_decide
    | progress cbn in * ].

Lemma undelivered_delivered f : undelivered w f → delivered_once w f.
Proof.
  intros [Hs _]. split.
  - eapply Forall_impl; [exact Hs|]. by intros [].
  - rewrite filter_none; [simpl; lia|].
    eapply Forall_impl; [exact Hs|]. by intros [| | | | | | |[]| |].
Qed.

Ltac walk :=
  repeat first
    [ progress simplify_eq/=
    | match goal with
      | |- context [match ?x with _ => _ end] =>
          lazymatch x with
          | context [match _ with _ => _ end] => fail
          | _ => destruct x eqn:?
          end
      end
    | progress cbn in * ].

Ltac undelivered_tac :=
  split; [rewrite ?Forall_app, ?Forall_singleton; by repeat split
         |first [done | intros ? [= <-]; by split]].

Lemma probe_undelivered fmt msg :
  leads (undelivered w) (undelivered w) (probe_stage w d fmt msg).
Proof.
  intros f [Hs Hp]. unfold undelivered, probe_stage. walk.
  all: undelivered_tac.
Qed.

Lemma transfer_undelivered fmt msg :
  leads (undelivered w) (undelivered w) (transfer_stage w d fmt msg).
Proof.
  intros f [Hs Hp]. unfold undelivered, transfer_stage. walk.
  all: undelivered_tac.
Qed.

Lemma resolve_measured_small z :
  resolve_measured z ≠ REJECT_TOO_LARGE →
  resolve_measured z ≠ NEEDS_SELECTION →
  z ≤ TELEGRAM_VIDEO_FILE_SIZE_LIMIT_BYTES.
Proof.
  unfold resolve_measured.
  destruct (Z.ltb_spec TELEGRAM_MAX_FILE_SIZE_BYTES z); [done|].
  destruct (Z.ltb_spec TELEGRAM_VIDEO_FILE_SIZE_LIMIT_BYTES z); [done|].
  lia.
Qed.

Ltac sound_tac Hp :=
  lazymatch goal with
  | |- sound_delivery _ (Sent _ ?p _ _) =>
      destruct (Hp p eq_refl) as [? ?]; cbn;
      split_and!; [done|done|done| |];
      [ eexists; split; [eassumption|];
        apply resolve_measured_small; congruence
      | first [by intros [] | by intros _] ]
  | |- _ => exact I
  end.

Lemma measure_delivered msg :
  leads (undelivered w) (delivered_once w) (measure_stage cfg w d msg).
Proof.
  intros f [Hs Hp].
  assert (Hsound : Forall (sound_delivery w) (trace f)).
  { eapply Forall_impl; [exact Hs|]. by intros []. }
  assert (Hnone : filter (λ e, is_user_delivery e = true) (trace f) = []).
  { apply filter_none. eapply Forall_impl; [exact Hs|].
    by intros [| | | | | | |[]| |]. }
  unfold delivered_once, measure_stage, delivery_stage. walk.
  all: rewrite ?Forall_app, ?Forall_singleton, ?filter_app, ?length_app, ?Hnone.
  all: (split; [split_and?; first [done | sound_tac Hp] | simpl; lia]).
Qed.

Ltac delivered_tac :=
  rewrite ?Forall_app, ?Forall_singleton, ?filter_app, ?length_app;
  (split; [by split_and? | simpl in *; lia]).

Lemma outer_except_delivered msg e k :
  outer_except w msg e = Some k →
  leads (delivered_once w) (delivered_once w) k.
Proof.
  intros [= <-] f [Hs Hn]. unfold delivered_once. walk.
  all: delivered_tac.
Qed.

Lemma finally_delivered :
  leads (delivered_once w) (delivered_once w) (finally_block cfg w d).
Proof.
  intros f [Hs Hn]. unfold delivered_once, finally_block. walk.
  all: delivered_tac.
Qed.

Lemma try_body_delivered fmt msg :
  leads (undelivered w) (delivered_once w) (try_body cfg w d fmt msg).
Proof.
  unfold try_body.
  apply (leads_bind _ (undelivered w));
    [|apply undelivered_delivered|intros _].
  { intros f [Hs Hp]. unfold undelivered. walk. undelivered_tac. }
  apply (leads_bind _ (undelivered w));
    [|apply undelivered_delivered|intros _].
  { intros f [Hs Hp]. unfold undelivered. walk; undelivered_tac. }
  apply (leads_bind _ (undelivered w));
    [apply probe_undelivered|apply undelivered_delivered|intros _].
  apply (leads_bind _ (undelivered w));
    [apply transfer_undelivered|apply undelivered_delivered|intros _].
  apply measure_delivered.
Qed.

Lemma pipeline_delivered :
  leads (undelivered w) (delivered_once w) (download_and_send_video cfg w d).
Proof.
  unfold download_and_send_video.
  apply (leads_bind _ (undelivered w));
    [|apply undelivered_delivered|intros msg].
  { intros f Hf. unfold subscript. by destruct (initial_message_id d). }
  apply (leads_bind _ (undelivered w));
    [|apply undelivered_delivered|intros fmt].
  { intros f Hf. unfold subscript. by destruct (format_string d). }
  apply (leads_bind _ (undelivered w));
    [by intros f Hf|apply undelivered_delivered|intros s].
  destruct (superseded d s).
  { intros f [Hs Hp]. apply undelivered_delivered. unfold undelivered.
    walk. undelivered_tac. }
  apply (leads_bind _ (undelivered w));
    [|apply undelivered_delivered|intros _].
  { intros f [Hs Hp]. unfold undelivered. walk; undelivered_tac. }
  apply (leads_bind _ (undelivered w));
    [|apply undelivered_delivered|intros _].
  { intros f [Hs Hp]. unfold undelivered. walk; undelivered_tac. }
  apply (leads_try_finally _ (delivered_once w)); [|apply finally_delivered].
  apply (leads_try_except _ (delivered_once w));
    [apply try_body_delivered|done|apply outer_except_delivered].
Qed.

End Deliveries.

(** X3.  Whatever the environment answers, every delivery a run makes is
    of the file its completed transfer has produced, goes out as a video
    (never as a document), and is of a file that measures at most the
    direct-video limit of 50 MB; the channel is served only when the
    delivery to the user has succeeded; and the user is served at most
    once. *)
Theorem deliveries_are_small_videos cfg w d s :
  let t := trace (run cfg w d s).2 in
  Forall (sound_delivery w) t
  ∧ (length (filter (λ e, is_user_delivery e = true) t) ≤ 1)%nat.
Proof. apply pipeline_delivered. by split. Qed.

(** * A run that succeeds *)

Lemma length_append (s t : string) :
  String.length (String.append s t)
  = (String.length s + String.length t)%nat.
Proof. induction s as [|c s IH]; simpl; [done|]. by rewrite IH. Qed.

Lemma thumbnail_for_other p : thumbnail_for p ≠ p.
Proof.
  unfold thumbnail_for. intros E.
  apply (f_equal String.length) in E.
  rewrite length_append in E. cbn in E. lia.
Qed.

(** X4.  When the run reaches the transfer, the transfer leaves a file
    of at most 50 MB, the edit announcing the delivery goes through and
    the delivery to the user succeeds, the run returns [True]: the file
    has gone to the user as a video, with the thumbnail if one could be
    extracted, and then to the channel if one is configured; the status
    message is deleted; the item is marked [completed], leaves the queue,
    and the slot is empty.  The file is removed exactly when the
    retention policy says delete; an extracted thumbnail is removed in
    any case. *)
Theorem successful_run cfg w d s a msg fmt p n :
  initial_message_id d = Some msg → format_string d = Some fmt →
  active_download s = Some a → unique_id (item_at s a) = unique_id d →
  reaches_transfer w fmt → produces_file w p n →
  n ≤ TELEGRAM_VIDEO_FILE_SIZE_LIMIT_BYTES →
  edit_ok w N_sending false = true → user_send_ok w = true →
  let r := run cfg w d s in
  let s' := session r.2 in
  let thumb := if thumbnail_ok w then Some (thumbnail_for p) else None in
  r.1 = Return true
  ∧ filter (λ e, is_sent e = true) (trace r.2)
    = Sent ToUser p true thumb
      :: match TELEGRAM_CHANNEL_ID cfg with
         | Some channel => [Sent (ToChannel channel) p true thumb]
         | None => []
         end
  ∧ Deleted msg ∈ trace r.2
  ∧ status (item_at s' a) = "completed"
  ∧ active_download s' = None
  ∧ entries_with (unique_id d) s' = []
  ∧ queue s' = queue_without (unique_id d) s
  ∧ (Removed p ∈ trace r.2 ↔ SHOULD_DELETE_FILE cfg = true)
  ∧ (thumbnail_ok w = true → Removed (thumbnail_for p) ∈ trace r.2).
Proof.
  intros Hm Hf Ha Hid (Hmk & t0 & fs & fsa & Hp & Han & He)
    (Hfe & Hloc & Hsize) Hn Hedit Hsend r s' thumb.
  pose proof (superseded_false d s a Ha Hid) as Hsup.
  pose proof (thumbnail_for_other p) as Hthumb.
  assert (Hres : resolve_measured n = PROCEED_AS_VIDEO).
  { unfold resolve_measured.
    destruct (Z.ltb_spec TELEGRAM_MAX_FILE_SIZE_BYTES n).
    - unfold TELEGRAM_MAX_FILE_SIZE_BYTES,
        TELEGRAM_VIDEO_FILE_SIZE_LIMIT_BYTES in *. lia.
    - by destruct (Z.ltb_spec TELEGRAM_VIDEO_FILE_SIZE_LIMIT_BYTES n);
        [lia|]. }
  assert (Hcore : ∀ S,
    active_download S = Some a → queue S = queue s →
    (∀ q, unique_id (item_at S q) = unique_id (item_at s q)) →
    status (item_at S a) = "completed" →
    status (item_at (reconcile_after_run d S) a) = "completed"
    ∧ active_download (reconcile_after_run d S) = None
    ∧ entries_with (unique_id d) (reconcile_after_run d S) = []
    ∧ queue (reconcile_after_run d S) = queue_without (unique_id d) s).
  { intros S HaS HqS HidS HstS.
    destruct (reconcile_terminal d S a HaS) as (E & Hnone & Hent & _).
    { by rewrite HidS. }
    { rewrite HstS. in_trace. }
    split_and!; [|done..|].
    - by rewrite E, item_at_set_active_download, item_at_set_queue.
    - rewrite E. cbn. by apply queue_without_ext. }
  assert (Hsup' : ∀ S, active_download S = Some a →
            unique_id (item_at S a) = unique_id d → superseded d S = false).
  { intros S. apply superseded_false. }
  subst r s' thumb.
  destruct (run cfg w d s) as [c F] eqn:E. revert E. unfold run.
  mrun ltac:(rewrite ?Hm, ?Hf, ?Hsup, ?active_download_write, ?Ha, ?Hmk, ?Hp).
  case_bool_decide;
    mrun ltac:(rewrite ?He, ?Han, ?Hfe, ?Hloc, ?Hsize, ?Hres, ?Hedit,
                 ?active_download_write, ?Ha);
    destruct (thumbnail_ok w) eqn:Eth;
    mrun ltac:(rewrite ?Hedit, ?active_download_write, ?Ha);
    rewrite Hsup' by (by store_facts);
    mrun ltac:(rewrite ?Hsend, ?active_download_write, ?Ha);
    destruct (TELEGRAM_CHANNEL_ID cfg) as [channel|] eqn:Ech;
    mrun ltac:(rewrite ?active_download_write, ?Ha);
    destruct (SHOULD_DELETE_FILE cfg) eqn:Edel; cbn.
  all: intros [= <- <-]; cbn [trace session fst snd].
  all: match goal with
       | |- context [reconcile_after_run _ ?S] =>
           destruct (Hcore S) as (H1 & H2 & H3 & H4);
           [ by store_facts | by rewrite ?queue_write
           | intros q; by rewrite !unique_id_write by (by intros [])
           | by store_facts | ]
       end.
  all: split_and!;
    [ done | reflexivity | in_trace | done | done | done | done | | ].
  all: lazymatch goal with
       | |- _ ↔ true = true => split; [done|intros _; in_trace]
       | |- true = true → _ => intros _; in_trace
       | |- false = true → _ => done
       | |- _ ↔ false = true =>
           let H := fresh in
           split; [|done]; intros H;
           repeat (apply elem_of_cons in H as [H|H];
                   [first [discriminate H
                          |injection H as H; by symmetry in H]|]);
           by apply elem_of_nil in H
       end.
Qed.

Lemma successful_run_witness :
  (run config_delete (world_ok (Some (30 * MB)) (30 * MB)) item_a
       session_ab).1 = Return true
  ∧ entries_with (Some "id-a")
      (session (run config_delete (world_ok (Some (30 * MB)) (30 * MB))
                    item_a session_ab).2) = []
  ∧ Removed "/downloads/A.mp4"
      ∈ trace (run config_delete (world_ok (Some (30 * MB)) (30 * MB))
                   item_a session_ab).2.
Proof.
  assert (Hreach : reaches_transfer (world_ok (Some (30 * MB)) (30 * MB))
                     "best").
  { split; [reflexivity|]. eexists _, _, _.
    split; [reflexivity|]. split; reflexivity. }
  assert (Hfile : produces_file (world_ok (Some (30 * MB)) (30 * MB))
                    "/downloads/A.mp4" (30 * MB)).
  { split; [reflexivity|]. split; reflexivity. }
  destruct (successful_run config_delete
              (world_ok (Some (30 * MB)) (30 * MB)) item_a session_ab 0%nat
              7 "best" "/downloads/A.mp4" (30 * MB) eq_refl eq_refl eq_refl
              eq_refl Hreach Hfile ltac:(vm_compute; discriminate)
              eq_refl eq_refl)
    as (Hret & _ & _ & _ & _ & Hent & _ & Hdel & _).
  split; [exact Hret|]. split; [exact Hent|]. apply Hdel. reflexivity.
Defined.

(** * Callback data: from the button to the handler *)

Section Split.

Lemma split_cons sep s : ∃ part parts, split sep s = part :: parts.
Proof.
  induction s as [|c s (part & parts & IH)]; simpl; [by eexists _, _|].
  destruct (Ascii.eqb c sep); [by eexists _, _|].
  rewrite IH. by eexists _, _.
Qed.

Lemma split_plain s : plain s = true → split "_" s = [s].
Proof.
  induction s as [|c s IH]; simpl; [done|].
  intros [Hc Hs]%andb_prop. apply negb_true_iff in Hc. rewrite Hc.
  by rewrite IH.
Qed.

Lemma split_plain_app a b :
  plain a = true →
  split "_" (a +:+ String "_" b) = a :: split "_" b.
Proof.
  induction a as [|c a IH]; simpl; [done|].
  intros [Hc Ha]%andb_prop. apply negb_true_iff in Hc. rewrite Hc.
  by rewrite IH.
Qed.

Lemma prefix_append p s : String.prefix p (p +:+ s) = true.
Proof.
  induction p as [|c p IH]; simpl; [by destruct s|].
  destruct (Ascii.ascii_dec c c); [apply IH|done].
Qed.

Lemma prefix_inv p s : String.prefix p s = true → ∃ rest, s = p +:+ rest.
Proof.
  revert s. induction p as [|c p IH]; intros s.
  - intros _. by exists s.
  - destruct s as [|c' s]; simpl; [done|].
    destruct (Ascii.ascii_dec c c') as [->|]; [|done].
    intros [rest ->]%IH. by exists rest.
Qed.

Lemma third_part p1 p2 rest data :
  data = p1 +:+ String "_" (p2 +:+ String "_" rest) →
  plain p1 = true → plain p2 = true →
  index (split "_" data) 2 = head (split "_" rest).
Proof.
  intros -> H1 H2. rewrite !split_plain_app by done. simpl.
  by destruct (split "_" rest).
Qed.

End Split.

(** X5.  The data a button of the list carries brings the click to the
    section the button is meant for, with the item's id, whenever the id
    has no underscore in it (the ids the bot draws are UUIDs, which have
    none); the number buttons lead nowhere. *)
Theorem callback_data_round_trip c :
  plain (id_of c) = true → route (callback_data c) = Some (click_of c).
Proof.
  destruct c as [i|item_id|item_id|item_id]; simpl; intros Hid;
    unfold route.
  - by rewrite prefix_append.
  - rewrite (third_part "start" "download" item_id) by done.
    rewrite prefix_append, split_plain by done. reflexivity.
  - rewrite (third_part "reparse" "item" item_id) by done.
    rewrite prefix_append, split_plain by done. reflexivity.
  - rewrite (third_part "remove" "item" item_id) by done.
    rewrite prefix_append, split_plain by done. reflexivity.
Qed.

Lemma callback_data_round_trip_witness :
  route (callback_data (remove_item "0f8fad5b-d9cb-469f-a165-70867728950e"))
  = Some (ClickRemove "0f8fad5b-d9cb-469f-a165-70867728950e").
Proof.
  apply (callback_data_round_trip
           (remove_item "0f8fad5b-d9cb-469f-a165-70867728950e")).
  reflexivity.
Defined.

(** X6.  An id with an underscore in it does not survive the trip: the
    handler reads the id with [data.split('_')[2]] and gets the part of
    the id before its first underscore. *)
Theorem underscore_id_is_cut item_id rest :
  plain item_id = true →
  let whole := item_id +:+ String "_" rest in
  route (callback_data (start_download whole)) = Some (ClickStart item_id)
  ∧ route (callback_data (reparse_item whole)) = Some (ClickReparse item_id)
  ∧ route (callback_data (remove_item whole)) = Some (ClickRemove item_id).
Proof.
  intros Hid whole. subst whole. simpl. unfold route. split_and!.
  - rewrite (third_part "start" "download" (item_id +:+ String "_" rest))
      by done.
    rewrite prefix_append, split_plain_app by done. reflexivity.
  - rewrite (third_part "reparse" "item" (item_id +:+ String "_" rest))
      by done.
    rewrite prefix_append, split_plain_app by done. reflexivity.
  - rewrite (third_part "remove" "item" (item_id +:+ String "_" rest))
      by done.
    rewrite prefix_append, split_plain_app by done. reflexivity.
Qed.

Lemma underscore_id_is_cut_witness :
  route (callback_data (start_download "ab_cd_ef")) = Some (ClickStart "ab").
Proof.
  apply (underscore_id_is_cut "ab" "cd_ef"). reflexivity.
Defined.

(** X7.  Reading the id out of the data never fails: whatever data a
    click carries, the handler finds a section for it, and a subscript
    [data.split('_')[2]] it evaluates is in range. *)
Theorem route_total data : is_Some (route data).
Proof.
  unfold route.
  destruct (String.prefix "_no_op_dummy_" data || String.eqb data "_no_op");
    [done|].
  destruct (String.prefix "start_download_" data) eqn:E1.
  { apply prefix_inv in E1 as [rest ->].
    rewrite (third_part "start" "download" rest) by done.
    destruct (split_cons "_" rest) as (part & parts & ->). simpl.
    done. }
  destruct (String.prefix "reparse_item_" data) eqn:E2.
  { apply prefix_inv in E2 as [rest ->].
    rewrite (third_part "reparse" "item" rest) by done.
    by destruct (split_cons "_" rest) as (part & parts & ->). }
  cbn [orb].
  destruct (String.prefix "remove_item_" data) eqn:E3.
  { apply prefix_inv in E3 as [rest ->].
    rewrite (third_part "remove" "item" rest) by done.
    by destruct (split_cons "_" rest) as (part & parts & ->). }
  by destruct (String.eqb data "clear_all").
Qed.

(** * The keyboard of the list view *)

Section KeyboardRows.

Let row_ok (row : list Key) : Prop :=
  length row = 2%nat ∨ length row = 3%nat.

Lemma item_keys_length i it keys :
  item_keys i it = Some keys → length keys = 1%nat ∨ length keys = 2%nat.
Proof.
  unfold item_keys. intros H.
  repeat (case_match; simplify_eq/=); auto.
  all: destruct (unique_id it); simplify_eq/=; auto.
Qed.

Lemma item_keys_needs_id i it :
  is_Some (item_keys i it) ↔ (needs_id it = true → is_Some (unique_id it)).
Proof.
  unfold item_keys, needs_id, py_in. simpl.
  destruct (String.eqb (status it) "pending"),
    (String.eqb (status it) "failed_last_attempt"),
    (String.eqb (status it) "parse_failed");
    simpl; destruct (unique_id it); simpl;
    rewrite !is_Some_alt; naive_solver.
Qed.

Lemma rows_spec items : ∀ i n current_row keyboard,
  (length current_row ≤ 1)%nat → Forall row_ok keyboard →
  match rows i n items current_row keyboard with
  | Some (keyboard', current_row') =>
      (length current_row' ≤ 1)%nat ∧ Forall row_ok keyboard'
      ∧ ∃ keys, keys_from i items = Some keys
                ∧ (concat keyboard' ++ current_row'
                   = concat keyboard ++ current_row ++ keys)%list
  | None => keys_from i items = None
  end.
Proof.
  induction items as [|it items IH]; intros i n cur kb Hcur Hkb; simpl.
  { split_and!; [done..|]. exists []. by rewrite !app_nil_r. }
  destruct (item_keys i it) as [keys|] eqn:Ek; simpl; [|done].
  pose proof (item_keys_length _ _ _ Ek) as Hlen.
  assert (Hflush : Forall row_ok (kb ++ [cur ++ keys])%list
                   ∨ length (cur ++ keys)%list = 1%nat).
  { rewrite Forall_app, Forall_singleton. unfold row_ok.
    rewrite length_app. destruct cur as [|k [|??]]; simpl in *; [..|lia].
    - destruct Hlen as [->| ->]; auto.
    - destruct Hlen as [->| ->]; auto. }
  assert (Hstep : ∀ kb' cur',
    (length cur' ≤ 1)%nat → Forall row_ok kb' →
    (concat kb' ++ cur' = concat kb ++ cur ++ keys)%list →
    match rows (S i) n items cur' kb' with
    | Some (keyboard', current_row') =>
        (length current_row' ≤ 1)%nat ∧ Forall row_ok keyboard'
        ∧ ∃ keys0, (more ← keys_from (S i) items; Some (keys ++ more)%list)
                   = Some keys0
                  ∧ (concat keyboard' ++ current_row'
                     = concat kb ++ cur ++ keys0)%list
    | None => (more ← keys_from (S i) items; Some (keys ++ more)%list) = None
    end).
  { intros kb' cur' Hc Hk Heq. specialize (IH (S i) n cur' kb' Hc Hk).
    destruct (rows (S i) n items cur' kb') as [[kb2 cur2]|].
    - destruct IH as (H1 & H2 & more & -> & H3). split_and!; [done..|].
      eexists. split; [done|].
      by rewrite H3, (assoc_L (++)), Heq, <- !(assoc_L (++)).
    - by rewrite IH. }
  assert (Hcat : (concat (kb ++ [cur ++ keys]) ++ []
                  = concat kb ++ cur ++ keys)%list).
  { rewrite concat_app. simpl. by rewrite !app_nil_r. }
  rewrite length_app in *.
  destruct cur as [|k [|??]]; simpl in *; [..|lia];
    destruct Hlen as [Hl|Hl]; try rewrite Hl; simpl;
    destruct Hflush as [Hf|Hf]; try (simpl in Hf; lia);
    try destruct (i =? n - 1)%nat;
    apply Hstep; first [done | simpl; lia].
Qed.

Lemma pad_row_short current_row :
  (length current_row ≤ 1)%nat →
  pad_row 3 current_row
  = match current_row with
    | [] => []
    | _ => (current_row ++ [BLANK; BLANK])%list
    end.
Proof. by destruct current_row as [|k [|??]]; simpl; [..|lia]. Qed.

Lemma keyboard_built_iff display_items :
  is_Some (keyboard display_items)
  ↔ Forall (λ it, needs_id it = true → is_Some (unique_id it)) display_items.
Proof.
  unfold keyboard.
  pose proof (rows_spec display_items 0 (length display_items) [] []
                ltac:(simpl; lia) ltac:(constructor)) as H.
  assert (Hk : ∀ items i,
    is_Some (keys_from i items)
    ↔ Forall (λ it, needs_id it = true → is_Some (unique_id it)) items).
  { induction items as [|it items IH]; intros i; simpl.
    - split; [by constructor|by eexists].
    - rewrite Forall_cons, <- (IH (S i)), <- (item_keys_needs_id i).
      destruct (item_keys i it); simpl.
      + destruct (keys_from (S i) items); simpl.
        * split; [by split; eexists|by eexists].
        * split; [by intros [? [=]]|by intros [_ [? [=]]]].
      + split; [by intros [? [=]]|by intros [[? [=]] _]]. }
  rewrite <- (Hk display_items 0%nat).
  destruct (rows 0 (length display_items) display_items [] [])
    as [[kb0 cur]|]; simpl.
  - destruct H as (_ & _ & keys & -> & _). split; by eexists.
  - rewrite H. split; by intros [? [=]].
Qed.

End KeyboardRows.

(** X8.  The keyboard under a list that is not empty: every row but the
    last has two or three buttons, the last row is the clear-all button
    alone, and read row by row the buttons are those of the displayed
    items in the order of the list, followed by nothing or by two blank
    buttons that fill the last row of item buttons. *)
Theorem keyboard_layout display_items kb :
  display_items ≠ [] → keyboard display_items = Some kb →
  ∃ item_rows keys pad,
    kb = (item_rows ++ [[CLEAR_ALL]])%list
    ∧ Forall (λ row, length row = 2%nat ∨ length row = 3%nat) item_rows
    ∧ keys_from 0 display_items = Some keys
    ∧ concat item_rows = (keys ++ pad)%list
    ∧ (pad = [] ∨ pad = [BLANK; BLANK]).
Proof.
  intros Hne. unfold keyboard.
  pose proof (rows_spec display_items 0 (length display_items) [] []
                ltac:(simpl; lia) ltac:(constructor)) as H.
  destruct (rows 0 (length display_items) display_items [] [])
    as [[kb0 cur]|]; cbn -[pad_row]; [|done].
  destruct H as (Hcur & Hkb & keys & Hkeys & Hcat). simpl in Hcat.
  rewrite pad_row_short by done.
  destruct display_items as [|it items]; [done|]. intros [= <-].
  destruct cur as [|k [|??]]; simpl in *; [..|lia].
  - exists kb0, keys, []. rewrite !app_nil_r in *. by split_and!; auto.
  - exists (kb0 ++ [[k; BLANK; BLANK]])%list, keys, [BLANK; BLANK].
    split_and!; auto.
    + rewrite Forall_app, Forall_singleton. split; [done|]. by right.
    + rewrite concat_app. simpl. rewrite <- Hcat.
      by rewrite <- !(assoc_L (++)).
Qed.

Lemma keyboard_layout_witness :
  ∃ item_rows keys pad,
    keyboard [item_a; item_a; item_a]
    = Some (item_rows ++ [[CLEAR_ALL]])%list
    ∧ concat item_rows = (keys ++ pad)%list.
Proof.
  destruct (keyboard_layout [item_a; item_a; item_a]
              (default [] (keyboard [item_a; item_a; item_a]))
              ltac:(discriminate) eq_refl)
    as (item_rows & keys & pad & H1 & _ & _ & H2 & _).
  exists item_rows, keys, pad. split; [|exact H2].
  rewrite <- H1. reflexivity.
Defined.

(** X9.  Building the keyboard fails (a [KeyError]) exactly when some
    displayed item whose buttons carry its id, one that is pending or
    has failed, has no id. *)
Theorem keyboard_needs_ids display_items :
  is_Some (keyboard display_items)
  ↔ Forall (λ it, needs_id it = true → is_Some (unique_id it)) display_items.
Proof. apply keyboard_built_iff. Qed.

(** * The remove, save-to-list and quality buttons *)

Section ClickFacts.
Implicit Types (s : Session) (uid : option string).

Lemma length_filter_eq {A} (P : A → Prop) `{∀ x, Decision (P x)}
    (l : list A) :
  length (filter P l) = length l ↔ Forall P l.
Proof.
  induction l as [|x l IH]; [by split; [constructor|]|].
  rewrite filter_cons, Forall_cons. pose proof (length_filter P l).
  case_decide; simpl.
  - rewrite <- IH. split; [intros [=]; by split|intros [_ ->]; done].
  - split; [lia|by intros [? _]].
Qed.

Lemma entries_with_none uid s :
  entries_with uid s = []
  ↔ Forall (λ r, unique_id (item_at s r) ≠ uid) (queue s).
Proof.
  rewrite entries_with_nil. split; [apply find_in_queue_None|].
  intros H. unfold find_in_queue.
  destruct (list_find _ _) as [[i r]|] eqn:E; [|done].
  apply list_find_Some in E as (Hi & Hr & _).
  apply list_elem_of_lookup_2 in Hi.
  by destruct (proj1 (Forall_forall _ _) H r Hi).
Qed.

Lemma find_in_queue_append uid it s :
  find_in_queue uid s = None → unique_id it = uid →
  find_in_queue uid (append_new it s) = Some (fresh (addresses s)).
Proof.
  intros Hnone Hid. apply find_in_queue_None in Hnone.
  unfold find_in_queue.
  change (queue (append_new it s)) with (queue s ++ [fresh (addresses s)])%list.
  assert (Hold : ∀ r, r ∈ queue s →
            item_at (append_new it s) r = item_at s r).
  { intros r Hr. apply item_at_append_new. unfold addresses. set_solver. }
  destruct (list_find _ _) as [[i r]|] eqn:E.
  - apply list_find_Some in E as (Hi & Hr & Hbefore). simpl. f_equal.
    destruct (decide (i < length (queue s))%nat) as [Hlt|Hge].
    + rewrite lookup_app_l in Hi by done.
      apply list_elem_of_lookup_2 in Hi. rewrite Hold in Hr by done.
      by destruct (proj1 (Forall_forall _ _) Hnone r Hi).
    + rewrite lookup_app_r in Hi by lia.
      apply list_lookup_singleton_Some in Hi as [_ Hi]. done.
  - apply list_find_None in E.
    rewrite Forall_app, Forall_singleton in E. destruct E as [_ E].
    by rewrite item_at_append_new_fresh in E.
Qed.

Lemma remove_click_cases item_id s :
  queue (remove_click item_id s).1 = queue_without (Some item_id) s
  ∧ (∀ r, item_at (remove_click item_id s).1 r = item_at s r)
  ∧ (∀ a, active_download (remove_click item_id s).1 = Some a ↔
          active_download s = Some a
          ∧ unique_id (item_at s a) ≠ Some item_id)
  ∧ (remove_click item_id s).2
    = (length (queue (remove_click item_id s).1) <? length (queue s))%nat
      || (bool_decide (active_download (remove_click item_id s).1 = None)
          && (length (queue s)
              =? length (queue (remove_click item_id s).1))%nat).
Proof.
  unfold remove_click. cbv zeta.
  set (s1 := set_queue (queue_without (Some item_id) s) s).
  assert (H1 : active_download s1 = active_download s) by done.
  assert (H2 : ∀ r, item_at s1 r = item_at s r) by done.
  assert (H3 : queue s1 = queue_without (Some item_id) s) by done.
  rewrite H1. destruct (active_download s) as [a0|] eqn:E0.
  - rewrite H2. case_bool_decide; cbn [fst snd].
    + split_and!; [done..| |done].
      intros a. split; [done|]. by intros [[= ->] ?].
    + split_and!; [done..| |done].
      intros a. rewrite H1. split; [by intros [= ->]|by intros [? _]].
  - cbn [fst snd]. split_and!; [done..| |done].
    intros a. rewrite H1. split; [done|by intros [? _]].
Qed.

End ClickFacts.

(** X10.  The remove button takes every queue entry with the given id
    out of the queue, in place, and empties the slot when the active
    download has that id; no item is changed.  It reports the removal
    (and saves) unless no queue entry had the id while a download with
    another id is active: with an empty slot it reports a removal even
    when nothing had the id. *)
Theorem remove_click_removes item_id s :
  let s' := (remove_click item_id s).1 in
  let reported := (remove_click item_id s).2 in
  queue s' = queue_without (Some item_id) s
  ∧ entries_with (Some item_id) s' = []
  ∧ (∀ r, item_at s' r = item_at s r)
  ∧ (∀ a, active_download s' = Some a ↔
          active_download s = Some a
          ∧ unique_id (item_at s a) ≠ Some item_id)
  ∧ (reported = false ↔
     entries_with (Some item_id) s = []
     ∧ ∃ a, active_download s = Some a
            ∧ unique_id (item_at s a) ≠ Some item_id).
Proof.
  intros s' reported.
  destruct (remove_click_cases item_id s) as (Hq & Hit & Hact & Hrep).
  fold s' in Hq, Hit, Hact, Hrep. fold reported in Hrep.
  split_and!; [done|by apply (queue_without_entries _ s)|done..|].
  rewrite Hrep, Hq, entries_with_none.
  unfold queue_without.
  pose proof (length_filter (λ r, unique_id (item_at s r) ≠ Some item_id)
                (queue s)) as Hle.
  pose proof (length_filter_eq (λ r, unique_id (item_at s r) ≠ Some item_id)
                (queue s)) as Heq.
  rewrite orb_false_iff, andb_false_iff, Nat.ltb_ge, Nat.eqb_neq,
    bool_decide_eq_false.
  split.
  - intros [Hlen [Hslot|Hne]]; [|lia].
    split; [apply Heq; lia|].
    destruct (active_download s') as [a|] eqn:E; [|done].
    exists a. by apply Hact.
  - intros [Hall (a & Ha & Hid)]. apply Heq in Hall. split; [lia|].
    left. intros Hnone. assert (active_download s' = Some a) as E
      by by apply Hact.
    by rewrite Hnone in E.
Qed.

(** X11.  After [save_to_list] on an active download that has an id,
    the slot is empty and the start button of that id is accepted: the
    entry it finds is pending and holds the link of the item.  The queue
    is as before, or longer by the one copy appended when no entry had
    the id. *)
Theorem saved_item_can_be_started a s item_id :
  active_download s = Some a → unique_id (item_at s a) = Some item_id →
  (∀ r, r ∈ queue s → unique_id (item_at s r) = Some item_id →
        url (item_at s r) = url (item_at s a)) →
  let s' := save_to_list a s in
  active_download s' = None
  ∧ (∃ r, check_start item_id s' = Accepted r
          ∧ status (item_at s' r) = "pending"
          ∧ url (item_at s' r) = url (item_at s a))
  ∧ (queue s' = queue s ∨ ∃ r, queue s' = (queue s ++ [r])%list).
Proof.
  intros Ha Hid Hurl s'.
  assert (Hstart : ∀ S r,
    active_download S = None → find_in_queue (Some item_id) S = Some r →
    status (item_at S r) = "pending" → check_start item_id S = Accepted r).
  { intros S r H1 H2 H3. unfold check_start. by rewrite H1, H2, H3. }
  unfold s', save_to_list. rewrite Hid.
  destruct (find_in_queue (Some item_id) s) as [q|] eqn:E.
  - set (s1 := write (set_status "pending") q s).
    assert (E1 : find_in_queue (Some item_id) (set_active_download None s1)
                 = Some q).
    { rewrite <- E. apply find_in_queue_ext; [done|]. intros r.
      rewrite item_at_set_active_download. unfold s1.
      by rewrite unique_id_write by (by intros []). }
    assert (Hq : item_at (set_active_download None s1) q
                 = set_status "pending" (item_at s q)).
    { rewrite item_at_set_active_download. apply item_at_write_eq. }
    split; [done|]. split; [|by left]. exists q.
    split; [apply Hstart; [done..|by rewrite Hq]|]. rewrite Hq.
    split; [done|]. cbn.
    apply find_in_queue_Some in E as [Hin Hqid]. by apply Hurl.
  - set (s1 := write (set_status "pending") a s).
    assert (E1 : find_in_queue (Some item_id) s1 = None).
    { rewrite <- E. apply find_in_queue_ext; [done|].
      intros r. unfold s1. by rewrite unique_id_write by (by intros []). }
    assert (Hi : unique_id (item_at s1 a) = Some item_id).
    { unfold s1. by rewrite unique_id_write by (by intros []). }
    set (s2 := append_new (item_at s1 a) s1).
    assert (E2 : find_in_queue (Some item_id) (set_active_download None s2)
                 = Some (fresh (addresses s1))).
    { rewrite <- (find_in_queue_append _ _ _ E1 Hi).
      by apply find_in_queue_ext. }
    assert (Hq : item_at (set_active_download None s2) (fresh (addresses s1))
                 = set_status "pending" (item_at s a)).
    { rewrite item_at_set_active_download. unfold s2.
      rewrite item_at_append_new_fresh. apply item_at_write_eq. }
    split; [done|]. split; [|right; by eexists].
    exists (fresh (addresses s1)).
    split; [apply Hstart; [done..|by rewrite Hq]|]. by rewrite Hq.
Qed.

Lemma saved_item_can_be_started_witness :
  ∃ r, check_start "id-a" (save_to_list 0%nat session_ab) = Accepted r.
Proof.
  destruct (saved_item_can_be_started 0%nat session_ab "id-a" eq_refl
              eq_refl) as (_ & (r & Hr & _) & _).
  - intros r Hr. cbn in Hr.
    apply elem_of_cons in Hr as [->|Hr]; [done|].
    apply elem_of_cons in Hr as [->|Hr]; [done|].
    by apply elem_of_nil in Hr.
  - by exists r.
Defined.

(** * Runs that end at the probe *)

(** X12.  When the probe's estimate asks for action (above 50 MB with
    the format [best], or above the upload limit with any format) and
    both edits of the status message go through, the run shows the
    quality keyboard once and returns [False]: nothing has been
    transferred or delivered, the item stays in the slot with status
    [awaiting_quality_selection], and the queue is as it was. *)
Theorem estimate_prompts_for_quality cfg w d s a msg fmt t0 fs fsa :
  initial_message_id d = Some msg → format_string d = Some fmt →
  active_download s = Some a → unique_id (item_at s a) = unique_id d →
  makedirs_ok w = true → probe w = ProbeInfo t0 fs fsa →
  let notice := estimate_notice (resolve_estimate (py_or fs fsa) fmt) in
  action_needed (resolve_estimate (py_or fs fsa) fmt) = true →
  edit_ok w notice false = true → edit_ok w notice true = true →
  let r := run cfg w d s in
  let s' := session r.2 in
  r.1 = Return false
  ∧ filter (λ e, is_work e = true) (trace r.2) = [Probed (url d) fmt]
  ∧ filter (λ e, is_prompt e = true) (trace r.2) = [Edited msg notice true]
  ∧ active_download s' = Some a
  ∧ status (item_at s' a) = AWAITING
  ∧ queue s' = queue s.
Proof.
  intros Hm Hf Ha Hid Hmk Hp notice Han He1 He2 r s'.
  pose proof (superseded_false d s a Ha Hid) as Hsup.
  assert (Hcore : ∀ S,
    active_download S = Some a → queue S = queue s →
    unique_id (item_at S a) = unique_id d →
    status (item_at S a) = AWAITING →
    active_download (reconcile_after_run d S) = Some a
    ∧ status (item_at (reconcile_after_run d S) a) = AWAITING
    ∧ queue (reconcile_after_run d S) = queue s).
  { intros S HaS HqS HidS HstS.
    by rewrite (reconcile_awaiting d S a HaS HidS HstS). }
  assert (Hnot : resolve_estimate (py_or fs fsa) fmt ≠ PROCEED_AS_VIDEO).
  { intros E. by rewrite E in Han. }
  subst r s' notice.
  destruct (run cfg w d s) as [c F] eqn:E. revert E. unfold run.
  mrun ltac:(rewrite ?Hm, ?Hf, ?Hsup, ?active_download_write, ?Ha, ?Hmk, ?Hp).
  rewrite bool_decide_eq_false_2 by done.
  mrun ltac:(rewrite ?He1, ?He2, ?Han, ?active_download_write, ?Ha).
  intros [= <- <-]; cbn [trace session fst snd].
  match goal with
  | |- context [reconcile_after_run _ ?S] =>
      destruct (Hcore S) as (H1 & H2 & H3);
      [ by store_facts | by rewrite ?queue_write | by store_facts
      | by store_facts | ]
  end.
  split_and!; done.
Qed.

Lemma estimate_prompts_for_quality_witness :
  (run config_delete (world_ok (Some (100 * MB)) (100 * MB)) item_a
       session_ab).1 = Return false
  ∧ status (item_at (session (run config_delete
                                (world_ok (Some (100 * MB)) (100 * MB))
                                item_a session_ab).2) 0%nat)
    = "awaiting_quality_selection".
Proof.
  destruct (estimate_prompts_for_quality config_delete
              (world_ok (Some (100 * MB)) (100 * MB)) item_a session_ab
              0%nat 7 "best" (Some "A") (Some (100 * MB)) None
              eq_refl eq_refl eq_refl eq_refl eq_refl eq_refl eq_refl
              eq_refl eq_refl)
    as (Hret & _ & _ & _ & Hst & _).
  split; [exact Hret|exact Hst].
Defined.

(** X13.  When the download directory cannot be made or the probe
    raises, the run transfers and delivers nothing and asks for no
    quality: it shows the failure text of the outer handler, returns
    [False] when that edit goes through and raises otherwise, and either
    way leaves the slot empty and the first queue entry of the item's id
    with status [failed_last_attempt]. *)
Theorem early_failure_is_retryable cfg w d s a msg fmt e :
  initial_message_id d = Some msg → format_string d = Some fmt →
  active_download s = Some a → unique_id (item_at s a) = unique_id d →
  fails_early w = Some e →
  let r := run cfg w d s in
  let s' := session r.2 in
  r.1 = (if edit_ok w (outer_notice e) false then Return false
         else Raise OtherError)
  ∧ Edited msg (outer_notice e) false ∈ trace r.2
  ∧ Forall (λ ev, is_work ev = true → ev = Probed (url d) fmt) (trace r.2)
  ∧ existsb is_prompt (trace r.2) = false
  ∧ active_download s' = None
  ∧ ∃ q, find_in_queue (unique_id d) s' = Some q
         ∧ status (item_at s' q) = "failed_last_attempt".
Proof.
  intros Hm Hf Ha Hid Hearly r s'.
  pose proof (superseded_false d s a Ha Hid) as Hsup.
  assert (Hcore : ∀ S,
    active_download S = Some a → unique_id (item_at S a) = unique_id d →
    status (item_at S a) = "failed_last_attempt" →
    active_download (reconcile_after_run d S) = None
    ∧ ∃ q, find_in_queue (unique_id d) (reconcile_after_run d S) = Some q
         ∧ status (item_at (reconcile_after_run d S) q)
           = "failed_last_attempt").
  { intros S HaS HidS HstS.
    destruct (reconcile_retryable d S a HaS HidS) as (Hnone & q & Hq & Hstq).
    { rewrite HstS. in_trace. }
    rewrite HstS in Hstq. split; [done|]. by exists q. }
  subst r s'.
  destruct (run cfg w d s) as [c F] eqn:E. revert E. unfold run.
  unfold fails_early in Hearly.
  mrun ltac:(rewrite ?Hm, ?Hf, ?Hsup, ?active_download_write, ?Ha).
  destruct (makedirs_ok w); simplify_eq/=;
    [destruct (probe w) as [e'|]; simplify_eq/=|];
    mrun ltac:(rewrite ?active_download_write, ?Ha);
    destruct (edit_ok w _ false) eqn:Eedit;
    mrun ltac:(rewrite ?active_download_write, ?Ha);
    intros [= <- <-]; cbn [trace session fst snd].
  all: match goal with
       | |- context [reconcile_after_run _ ?S] =>
           destruct (Hcore S) as (H1 & H2);
           [ by store_facts | by store_facts | by store_facts | ]
       end.
  all: split_and!; [done|in_trace| |done|done|done].
  all: repeat (apply Forall_cons; split; [by intros|]); by apply Forall_nil.
Qed.

Lemma early_failure_is_retryable_witness :
  active_download
    (session (run config_delete
                (mkWorld false (ProbeRaises DownloadError) (λ _ _, true)
                         FetchDone (FinalPath "/downloads/A.mp4") None
                         true true) item_a session_ab).2) = None.
Proof.
  destruct (early_failure_is_retryable config_delete
              (mkWorld false (ProbeRaises DownloadError) (λ _ _, true)
                       FetchDone (FinalPath "/downloads/A.mp4") None
                       true true) item_a session_ab 0%nat 7 "best"
              OtherError eq_refl eq_refl eq_refl eq_refl eq_refl)
    as (_ & _ & _ & _ & H & _).
  exact H.
Defined.

(** * Ids for the items of older records *)

Section Migration.
Context (uuid4 : nat → string).

Lemma id_filled_refl it : id_filled it it.
Proof. by left. Qed.

Lemma id_filled_trans it1 it2 it3 :
  id_filled it1 it2 → id_filled it2 it3 → id_filled it1 it3.
Proof.
  intros [->|(H1 & u & ->)] [->|(H2 & v & ->)]; [by left|right..]; try done.
  - by split; [|exists v].
  - by split; [|exists u].
Qed.

Lemma id_filled_keeps it it' uid :
  id_filled it it' → unique_id it = Some uid → unique_id it' = Some uid.
Proof. intros [->|(H & _)]; [done|]. by rewrite H. Qed.

Lemma id_filled_Some it it' :
  id_filled it it' → is_Some (unique_id it) → is_Some (unique_id it').
Proof. intros H [uid Hu]. exists uid. by eapply id_filled_keeps. Qed.

Lemma id_filled_write n r s r' :
  unique_id (item_at s r) = None →
  id_filled (item_at s r')
            (item_at (write (set_unique_id (uuid4 n)) r s) r').
Proof.
  intros Hnone. rewrite item_at_write. case_decide; [subst|by left].
  right. split; [done|]. by eexists.
Qed.

Lemma assign_ids_spec q : ∀ n s,
  let s' := (assign_ids uuid4 n q s).2 in
  queue s' = queue s ∧ active_download s' = active_download s
  ∧ (∀ r, id_filled (item_at s r) (item_at s' r))
  ∧ Forall (λ r, is_Some (unique_id (item_at s' r))) q.
Proof.
  induction q as [|r q IH]; intros n s; simpl.
  { split_and!; [done..|by left|constructor]. }
  destruct (unique_id (item_at s r)) as [uid|] eqn:E.
  - destruct (IH n s) as (Hq & Ha & Hfill & Hall).
    split_and!; [done..|]. constructor; [|done].
    eapply id_filled_Some; [apply Hfill|]. by rewrite E.
  - destruct (IH (S n) (write (set_unique_id (uuid4 n)) r s))
      as (Hq & Ha & Hfill & Hall).
    split_and!; [done..| |].
    + intros r'. eapply id_filled_trans; [|apply Hfill].
      by apply id_filled_write.
    + constructor; [|done].
      eapply id_filled_Some; [apply Hfill|].
      rewrite item_at_write_eq. by eexists.
Qed.

Lemma assign_missing_ids_spec s :
  let s' := assign_missing_ids uuid4 s in
  queue s' = queue s ∧ active_download s' = active_download s
  ∧ (∀ r, id_filled (item_at s r) (item_at s' r))
  ∧ Forall (λ r, is_Some (unique_id (item_at s' r))) (queue s)
  ∧ (∀ a, active_download s = Some a → is_Some (unique_id (item_at s' a))).
Proof.
  unfold assign_missing_ids.
  pose proof (assign_ids_spec (queue s) 0 s) as H.
  destruct (assign_ids uuid4 0 (queue s) s) as [n s1]. simpl in H.
  destruct H as (Hq & Ha & Hfill & Hall).
  destruct (active_download s1) as [a|] eqn:Ea.
  - destruct (unique_id (item_at s1 a)) as [uid|] eqn:E.
    + split_and!; [first [done|congruence]..|]. intros a' Ha'.
      assert (a' = a) as -> by congruence. by rewrite E.
    + rewrite active_download_write, queue_write.
      split_and!; [done|congruence| | |].
      * intros r. eapply id_filled_trans; [apply Hfill|].
        by apply id_filled_write.
      * eapply Forall_impl; [exact Hall|]. intros r Hr. cbv beta in *.
        eapply id_filled_Some; [|exact Hr]. by apply id_filled_write.
      * intros a' Ha'. assert (a' = a) as -> by congruence.
        rewrite item_at_write_eq. by eexists.
  - split_and!; [first [done|congruence]..|]. intros a Ha'. congruence.
Qed.

Lemma display_items_have_ids s :
  Forall (λ r, is_Some (unique_id (item_at s r))) (queue s) →
  (∀ a, active_download s = Some a → is_Some (unique_id (item_at s a))) →
  Forall (λ it, is_Some (unique_id it)) (display_items s).
Proof.
  intros Hq Ha. unfold display_items. cbv zeta.
  assert (H : Forall (λ r, is_Some (unique_id
                             (item_at (reconcile_for_display s) r)))
                (queue (reconcile_for_display s))
              ∧ ∀ a, active_download (reconcile_for_display s) = Some a →
                     is_Some (unique_id
                                (item_at (reconcile_for_display s) a))).
  { destruct (active_download s) as [a|] eqn:E.
    - destruct (reconcile_for_display_cases s a E) as [[_ ->]|[_ ->]];
        [|split; [exact Hq|]; intros a' Ha'; apply Ha; congruence].
      split; [|done].
      unfold fold_into_queue.
      destruct (find_in_queue _ s) as [q|].
      + eapply Forall_impl; [exact Hq|]. intros r Hr. cbv beta in *.
        rewrite item_at_set_active_download.
        by rewrite unique_id_write by (by intros []).
      + change (Forall (λ r, is_Some (unique_id (item_at s r)))
                  (queue s ++ [a])).
        rewrite Forall_app, Forall_singleton. split; [exact Hq|by apply Ha].
    - unfold reconcile_for_display. rewrite E. cbv iota beta.
      split; [exact Hq|]. intros a. by rewrite E. }
  destruct H as [H1 H2]. apply Forall_app. split.
  - destruct (active_download (reconcile_for_display s)) as [a|];
      [|constructor].
    apply Forall_singleton. by apply H2.
  - apply Forall_forall. intros it [_ Hit]%list_elem_of_filter.
    apply list_elem_of_fmap in Hit as (r & -> & Hr).
    by apply (proj1 (Forall_forall _ _) H1).
Qed.

End Migration.

(** X14.  The start-up pass over a loaded record gives an id to every
    queue entry and to the active download that had none, and changes
    nothing else: the queue and the slot are as before, every item is as
    it was or has gained an id where it had none, so an id that was
    there is kept.  Afterwards the keyboard of the list view can be
    built. *)
Theorem startup_fills_missing_ids uuid4 s :
  let s' := assign_missing_ids uuid4 s in
  queue s' = queue s ∧ active_download s' = active_download s
  ∧ (∀ r, id_filled (item_at s r) (item_at s' r))
  ∧ (∀ r uid, unique_id (item_at s r) = Some uid →
              unique_id (item_at s' r) = Some uid)
  ∧ Forall (λ r, is_Some (unique_id (item_at s' r))) (queue s')
  ∧ (∀ a, active_download s' = Some a → is_Some (unique_id (item_at s' a)))
  ∧ is_Some (keyboard (display_items s')).
Proof.
  intros s'.
  destruct (assign_missing_ids_spec uuid4 s) as (Hq & Ha & Hfill & Hall & Hact).
  fold s' in Hq, Ha, Hfill, Hall, Hact.
  assert (Hact' : ∀ a, active_download s' = Some a →
                       is_Some (unique_id (item_at s' a))).
  { intros a. rewrite Ha. apply Hact. }
  split_and!; [done..| |by rewrite Hq|done|].
  - intros r uid. apply id_filled_keeps, Hfill.
  - apply keyboard_built_iff.
    eapply Forall_impl;
      [apply display_items_have_ids; [by rewrite Hq|done]|].
    by intros it Hit _.
Qed.

(** * The list view *)

Section ListFacts.

Lemma reconcile_for_display_twice s :
  reconcile_for_display (reconcile_for_display s) = reconcile_for_display s.
Proof.
  destruct (active_download s) as [a|] eqn:E.
  - destruct (reconcile_for_display_cases s a E) as [[_ H]|[_ H]].
    + rewrite H. by unfold reconcile_for_display at 1.
    + by rewrite !H.
  - assert (H : reconcile_for_display s = s).
    { unfold reconcile_for_display. by rewrite E. }
    by rewrite !H.
Qed.

End ListFacts.

(** X15.  Rendering the list settles the session: the reconciliation
    the list view makes leaves a session on which a second rendering
    reconciles nothing and displays the same items. *)
Theorem list_view_settles s :
  let s' := reconcile_for_display s in
  reconcile_for_display s' = s' ∧ display_items s' = display_items s
  ∧ (∀ a, active_download s' = Some a →
          active_download s = Some a ∧ status (item_at s' a) ∉ RETRYABLE).
Proof.
  intros s'. subst s'. split; [apply reconcile_for_display_twice|].
  split; [unfold display_items; cbv zeta;
          by rewrite reconcile_for_display_twice|].
  intros a Ha.
  destruct (active_download s) as [a0|] eqn:E.
  - destruct (reconcile_for_display_cases s a0 E) as [[_ H]|[Hst H]];
      rewrite H in *; [done|].
    assert (a = a0) as -> by congruence. done.
  - unfold reconcile_for_display in Ha. rewrite E in Ha. congruence.
Qed.

(** X16.  An active download that is not a retryable failure and is
    itself an entry of the queue (the start button puts the queue's own
    dict into the slot) is displayed twice when its status is not one
    the list hides: once as the active download, and once as the queue
    entry. *)
Theorem active_queue_entry_listed_twice s a :
  active_download s = Some a → a ∈ queue s →
  status (item_at s a) ∉ RETRYABLE → status (item_at s a) ∉ HIDDEN →
  ∃ before after,
    display_items s
    = (item_at s a :: before ++ item_at s a :: after)%list.
Proof.
  intros Ha Hin Hr Hh.
  destruct (reconcile_for_display_cases s a Ha) as [[H _]|[_ H]]; [done|].
  unfold display_items. cbv zeta. rewrite H, Ha.
  apply list_elem_of_split in Hin as (q1 & q2 & ->).
  rewrite fmap_app, fmap_cons, filter_app, filter_cons.
  rewrite decide_True by by apply py_in_false.
  by eexists _, _.
Qed.

Lemma active_queue_entry_listed_twice_witness :
  ∃ before after,
    display_items session_ab = (item_a :: before ++ item_a :: after)%list.
Proof.
  apply (active_queue_entry_listed_twice session_ab 0%nat).
  - reflexivity.
  - apply list_elem_of_here.
  - intros H. vm_compute in H.
    repeat (apply elem_of_cons in H as [H|H]; [discriminate H|]).
    by apply elem_of_nil in H.
  - intros H. vm_compute in H.
    repeat (apply elem_of_cons in H as [H|H]; [discriminate H|]).
    by apply elem_of_nil in H.
Defined.

(** * The links of a message *)

Section LinkFacts.

(** The group under the [+] of the pattern. *)
Let GROUP : regex :=
  Alt (Class [Span "a" "z"; Span "A" "Z"])
  (Alt (Class [Span "0" "9"])
  (Alt (Class [Span "$" "_"; One "@"; One "."; One "&"; One "+"])
  (Alt (Class [One "!"; One "*"; One "\"; One "("; One "\"; One ")";
               One ","])
       (Seq (Lit "%") (Seq HEX HEX))))).

Lemma URL_PATTERN_eq :
  URL_PATTERN
  = Seq (Lit "http")
      (Seq (Opt (Class [One "s"])) (Seq (Lit "://") (Plus GROUP))).
Proof. reflexivity. Qed.

(** One round of the group takes one link character, whatever the
    alternative that takes it: the escape [%XX] is never needed, since
    [%] lies between [$] and [_]. *)
Lemma group_round {R} fuel c text (k : string → option R) :
  is_Some (k text) →
  matching GROUP fuel (String c text) k
  = if link_char c then k text else None.
Proof.
  intros [x Hk].
  destruct c as [[] [] [] [] [] [] [] []]; cbn; rewrite ?Hk; reflexivity.
Qed.

Lemma group_round_empty {R} fuel (k : string → option R) :
  matching GROUP fuel "" k = None.
Proof. reflexivity. Qed.

Lemma skip_first c text :
  link_char c = false → skip_link_chars (String c text) = String c text.
Proof. intros H. simpl. by rewrite H. Qed.

Lemma rounds_run {R} n (k : string → option R) :
  (∀ t, is_Some (k t)) →
  ∀ fuel text c,
    (String.length text ≤ fuel)%nat →
    rounds (matching GROUP n) fuel (String c text) k
    = if link_char c then k (skip_link_chars text) else None.
Proof.
  intros Hk. induction fuel as [|fuel IH]; intros text c Hlen.
  - destruct text; [|simpl in Hlen; lia]. cbn [rounds].
    by rewrite group_round.
  - cbn [rounds]. rewrite group_round.
    2:{ destruct (rounds _ _ _ _); [by eexists|apply Hk]. }
    destruct (link_char c); [|done].
    destruct text as [|c' text'].
    + by destruct fuel.
    + rewrite IH by (simpl in Hlen; lia). simpl.
      destruct (link_char c') eqn:E; [|done].
      by destruct (Hk (skip_link_chars text')) as [x ->].
Qed.

Lemma strip_append p q text :
  strip (p +:+ q) text = strip p text ≫= strip q.
Proof.
  revert text. induction p as [|a p IH]; intros text; simpl; [done|].
  destruct text as [|c text]; [done|]. by destruct (Ascii.eqb a c).
Qed.

Lemma strip_length p text rest :
  strip p text = Some rest →
  String.length text = (String.length p + String.length rest)%nat.
Proof.
  revert text. induction p as [|a p IH]; intros text; simpl.
  - by intros [= ->].
  - destruct text as [|c text]; [done|].
    destruct (Ascii.eqb a c); [|done]. intros H%IH. simpl. lia.
Qed.

Lemma strip_Some p text rest :
  strip p text = Some rest ↔ text = p +:+ rest.
Proof.
  revert text. induction p as [|a p IH]; intros text; simpl.
  - split; [by intros [= ->]|by intros ->].
  - destruct text as [|c text]; [done|].
    destruct (Ascii.eqb_spec a c) as [->|Hne].
    + rewrite IH. split; [by intros ->|by intros [= ->]].
    + split; [done|]. intros [= -> _]. done.
Qed.

(** What follows the scheme: the body of the link. *)
Lemma body_rounds n body :
  (String.length body ≤ S n)%nat →
  rounds (matching GROUP n) n body Some
  = match body with
    | String c rest =>
        if link_char c then Some (skip_link_chars rest) else None
    | EmptyString => None
    end.
Proof.
  intros Hlen. destruct body as [|c rest]; [by destruct n|].
  apply rounds_run; [by eexists|]. simpl in Hlen. lia.
Qed.

Lemma match_here_link_at text : match_here text = link_at text.
Proof.
  unfold match_here, link_at. rewrite URL_PATTERN_eq.
  set (n := String.length text). cbn [matching].
  change "https://" with ("http" +:+ "s://").
  change "http://" with ("http" +:+ "://").
  rewrite !strip_append.
  destruct (strip "http" text) as [t1|] eqn:E1; [|done].
  cbn [mbind option_bind].
  apply strip_length in E1. simpl in E1.
  assert (Hbody : ∀ t2 body, strip "://" t2 = Some body →
            (String.length t2 ≤ String.length t1)%nat →
            rounds (matching GROUP n) n body Some
            = match body with
              | String c rest =>
                  if link_char c then Some (skip_link_chars rest) else None
              | EmptyString => None
              end).
  { intros t2 body H2 Hle. apply body_rounds.
    apply strip_length in H2. simpl in H2. unfold n. lia. }
  change "s://" with ("s" +:+ "://"). rewrite strip_append.
  destruct t1 as [|c t2]; [done|]. cbn [existsb in_cls orb].
  rewrite orb_false_r.
  change (strip "s" (String c t2))
    with (if Ascii.eqb "s" c then Some t2 else None).
  rewrite (Ascii.eqb_sym "s" c).
  destruct (Ascii.eqb_spec c "s") as [->|Hne]; cbn [mbind option_bind].
  - change (strip "://" (String "s" t2)) with (@None string).
    destruct (strip "://" t2) as [body|] eqn:E2; [|done].
    rewrite (Hbody t2 body E2) by (simpl; lia).
    destruct body as [|c' rest]; [done|].
    by destruct (link_char c').
  - destruct (strip "://" (String c t2)) as [body|] eqn:E2; [|done].
    by rewrite (Hbody (String c t2) body E2).
Qed.

End LinkFacts.

(** X17.  The pattern of line 781 says no more than this: a link is
    [http://] or [https://] followed by the longest run of link
    characters there is, at least one.  Matching it at the start of a
    text, with all its backtracking, gives what reading the text once
    from the left gives; the escape [%XX] adds nothing, since a lone [%]
    is a link character already. *)
Theorem pattern_is_scheme_and_run text : match_here text = link_at text.
Proof. apply match_here_link_at. Qed.

(** * What [findall] returns *)

Section FindallFacts.

Lemma length_app_string (s t : string) :
  String.length (s +:+ t) = (String.length s + String.length t)%nat.
Proof. induction s as [|c s IH]; simpl; [done|]. by rewrite IH. Qed.

Lemma substring_prefix (u rest : string) :
  String.substring 0 (String.length u) (u +:+ rest) = u.
Proof.
  induction u as [|c u IH]; simpl; [by destruct rest|]. by rewrite IH.
Qed.

Lemma app_string_cons c (s t : string) :
  String c s +:+ t = String c (s +:+ t).
Proof. reflexivity. Qed.

Lemma app_string_assoc (s t u : string) : (s +:+ t) +:+ u = s +:+ (t +:+ u).
Proof.
  induction s as [|c s IH]; [done|]. by rewrite !app_string_cons, IH.
Qed.

Lemma app_string_empty (s : string) : s +:+ "" = s.
Proof. induction s as [|c s IH]; [done|]. by rewrite app_string_cons, IH. Qed.

(** The link characters a text starts with, and what follows them. *)
Lemma skip_link_chars_split text :
  ∃ run, text = run +:+ skip_link_chars text ∧ link_chars run = true.
Proof.
  induction text as [|c text (run & IH & Hrun)]; [by exists ""|].
  simpl. destruct (link_char c) eqn:E; [|by exists ""].
  exists (String c run). simpl. rewrite E, Hrun. split; [|done].
  by rewrite app_string_cons, <- IH.
Qed.

Lemma skip_link_chars_run run c rest :
  link_chars run = true → link_char c = false →
  skip_link_chars (run +:+ String c rest) = String c rest.
Proof.
  intros Hrun Hc. induction run as [|b run IH]; simpl in *.
  - by rewrite Hc.
  - apply andb_prop in Hrun as [-> Hrun]. by apply IH.
Qed.

Lemma skip_link_chars_all run :
  link_chars run = true → skip_link_chars run = "".
Proof.
  induction run as [|b run IH]; simpl; [done|].
  intros [-> Hrun]%andb_prop. by apply IH.
Qed.

Lemma link_chars_app s t :
  link_chars (s +:+ t) = link_chars s && link_chars t.
Proof.
  induction s as [|c s IH]; simpl; [done|]. by rewrite IH, andb_assoc.
Qed.

(** A link found at the start of a text: the text is the link and what
    follows it. *)
Lemma link_at_Some text rest :
  link_at text = Some rest → ∃ u, text = u +:+ rest ∧ is_link u.
Proof.
  unfold link_at.
  destruct (strip "https://" text) as [body|] eqn:E1.
  - apply strip_Some in E1 as ->.
    destruct body as [|c t]; [done|].
    destruct (link_char c) eqn:Ec; [|done]. intros [= <-].
    destruct (skip_link_chars_split t) as (run & Ht & Hrun).
    exists ("https://" +:+ String c run). split.
    + by rewrite app_string_assoc, (app_string_cons c run), <- Ht.
    + exists (String c run). split; [by right|]. split; [done|].
      simpl. by rewrite Ec, Hrun.
  - destruct (strip "http://" text) as [body|] eqn:E2; [|done].
    apply strip_Some in E2 as ->.
    destruct body as [|c t]; [done|].
    destruct (link_char c) eqn:Ec; [|done]. intros [= <-].
    destruct (skip_link_chars_split t) as (run & Ht & Hrun).
    exists ("http://" +:+ String c run). split.
    + by rewrite app_string_assoc, (app_string_cons c run), <- Ht.
    + exists (String c run). split; [by left|]. split; [done|].
      simpl. by rewrite Ec, Hrun.
Qed.

Lemma is_link_length u : is_link u → (0 < String.length u)%nat.
Proof. intros (body & [-> | ->] & _); simpl; lia. Qed.

Lemma is_link_chars u : is_link u → link_chars u = true.
Proof.
  intros (body & [-> | ->] & _ & H); rewrite link_chars_app, H; reflexivity.
Qed.

(** A link, then a text that does not go on with a link character. *)
Lemma link_at_link u tail :
  is_link u →
  match tail with
  | String c _ => link_char c = false
  | EmptyString => True
  end →
  link_at (u +:+ tail) = Some tail.
Proof.
  intros (body & Hu & Hne & Hbody) Htail.
  destruct body as [|b body]; [done|]. simpl in Hbody.
  apply andb_prop in Hbody as [Hb Hbody].
  assert (Hskip : skip_link_chars (body +:+ tail) = tail).
  { destruct tail as [|c rest].
    - rewrite app_string_empty. by apply skip_link_chars_all.
    - by apply skip_link_chars_run. }
  unfold link_at. destruct Hu as [-> | ->]; rewrite app_string_assoc.
  - change (strip "https://" ("http://" +:+ (String b body +:+ tail)))
      with (@None string).
    rewrite (proj2 (strip_Some "http://" _ (String b body +:+ tail)))
      by done.
    simpl. by rewrite Hb, Hskip.
  - rewrite (proj2 (strip_Some "https://" _ (String b body +:+ tail)))
      by done.
    simpl. by rewrite Hb, Hskip.
Qed.

Lemma link_at_not_here c rest :
  link_char c = false → link_at (String c rest) = None.
Proof.
  intros Hc. unfold link_at.
  assert (Hh : Ascii.eqb "h" c = false).
  { destruct (Ascii.eqb_spec "h" c) as [<-|]; [done|done]. }
  cbn [strip]. by rewrite Hh.
Qed.

Lemma scan_step fuel text :
  scan (S fuel) text
  = match link_at text with
    | Some rest =>
        String.substring 0 (String.length text - String.length rest) text
        :: scan fuel rest
    | None =>
        match text with
        | String _ text' => scan fuel text'
        | EmptyString => []
        end
    end.
Proof. cbn [scan]. by rewrite match_here_link_at. Qed.

(** The scan needs no more rounds than the text has characters. *)
Lemma scan_fuel fuel1 : ∀ fuel2 text,
  (String.length text ≤ fuel1)%nat → (String.length text ≤ fuel2)%nat →
  scan fuel1 text = scan fuel2 text.
Proof.
  assert (Hempty : ∀ fuel, scan fuel "" = []) by (by intros []).
  induction fuel1 as [|fuel1 IH]; intros fuel2 text H1 H2.
  - destruct text; [|simpl in H1; lia]. by rewrite !Hempty.
  - destruct fuel2 as [|fuel2].
    { destruct text; [|simpl in H2; lia]. by rewrite !Hempty. }
    rewrite !scan_step.
    destruct (link_at text) as [rest|] eqn:E.
    + destruct (link_at_Some _ _ E) as (u & -> & Hu).
      apply is_link_length in Hu. rewrite length_app_string in *.
      f_equal. apply IH; lia.
    + destruct text as [|c text]; [done|]. simpl in *. apply IH; lia.
Qed.

Lemma findall_step text :
  findall text
  = match link_at text with
    | Some rest =>
        String.substring 0 (String.length text - String.length rest) text
        :: findall rest
    | None =>
        match text with
        | String _ text' => findall text'
        | EmptyString => []
        end
    end.
Proof.
  unfold findall. destruct text as [|c text]; [done|].
  cbn [String.length]. rewrite scan_step.
  destruct (link_at (String c text)) as [rest|] eqn:E; [|done].
  destruct (link_at_Some _ _ E) as (u & Hu & Hlink).
  apply is_link_length in Hlink.
  f_equal. apply scan_fuel; [|done].
  apply (f_equal String.length) in Hu. rewrite length_app_string in Hu.
  simpl in Hu. lia.
Qed.

Lemma findall_link u tail :
  is_link u →
  match tail with
  | String c _ => link_char c = false
  | EmptyString => True
  end →
  findall (u +:+ tail) = u :: findall tail.
Proof.
  intros Hu Htail. rewrite findall_step, (link_at_link u tail Hu Htail).
  f_equal. rewrite length_app_string.
  replace (String.length u + String.length tail - String.length tail)%nat
    with (String.length u) by lia.
  apply substring_prefix.
Qed.

Lemma scan_links fuel : ∀ text, Forall is_link (scan fuel text).
Proof.
  induction fuel as [|fuel IH]; intros text; [constructor|].
  rewrite scan_step. destruct (link_at text) as [rest|] eqn:E.
  - constructor; [|apply IH].
    destruct (link_at_Some _ _ E) as (u & -> & Hu).
    rewrite length_app_string.
    replace (String.length u + String.length rest - String.length rest)%nat
      with (String.length u) by lia.
    by rewrite substring_prefix.
  - destruct text; [constructor|apply IH].
Qed.

End FindallFacts.

(** X18.  Everything [findall] returns for a message is a link from its
    first to its last character: [http://] or [https://] and then one
    or more link characters. *)
Theorem found_links_are_links message_text :
  Forall is_link (findall message_text).
Proof. unfold findall. apply scan_links. Qed.

(** X19.  A link comes back as it was sent: alone it is the one link
    found, and followed by a character that is not a link character it
    is found first, the search going on after that character.  Two links
    with only a comma between them come back as one, the comma being a
    link character. *)
Theorem findall_round_trip u :
  is_link u →
  findall u = [u]
  ∧ (∀ c rest, link_char c = false →
               findall (u +:+ String c rest) = u :: findall rest)
  ∧ (∀ u', is_link u' →
           findall (u +:+ String "," u') = [u +:+ String "," u']).
Proof.
  intros Hu.
  assert (Halone : ∀ v, is_link v → findall v = [v]).
  { intros v Hv. pose proof (findall_link v "" Hv I) as H.
    by rewrite app_string_empty in H. }
  split; [by apply Halone|]. split.
  - intros c rest Hc. rewrite (findall_link u (String c rest) Hu Hc).
    f_equal. rewrite findall_step. by rewrite link_at_not_here.
  - intros u' Hu'. apply Halone.
    destruct Hu as (body & Hbody & Hne & Hchars).
    exists (body +:+ String "," u'). split.
    + destruct Hbody as [-> | ->]; [left|right];
        by rewrite app_string_assoc.
    + split; [by destruct body|].
      rewrite link_chars_app, Hchars. simpl.
      by rewrite (is_link_chars u' Hu').
Qed.

Lemma findall_round_trip_witness :
  findall "https://v.example/a?x=1 http://w.example/b"
  = ["https://v.example/a?x=1"; "http://w.example/b"].
Proof.
  assert (H1 : is_link "https://v.example/a?x=1").
  { exists "v.example/a?x=1". split; [by right|]. split; [discriminate|].
    reflexivity. }
  assert (H2 : is_link "http://w.example/b").
  { exists "w.example/b". split; [by left|]. split; [discriminate|].
    reflexivity. }
  destruct (findall_round_trip "https://v.example/a?x=1" H1)
    as (_ & Hnext & _).
  destruct (findall_round_trip "http://w.example/b" H2) as (Halone & _).
  rewrite <- Halone. apply (Hnext " "%char "http://w.example/b").
  reflexivity.
Defined.
